(** * SQL_Agent: the schema materializer, the agent with its answer
    parser, the SQL validator and the query endpoint, embedded from the
    TypeScript sources

  - [JsString]: the ECMAScript string operations the sources call
    ([trim], [toUpperCase], [startsWith], [includes], [split], [join],
    [replace] and [test] with their patterns), written as scanners over
    [string].
  - [Validator]: [validateSqlQuery] of [src/lib/agent.ts].
  - [Schema]: [schemaToFiles] of [src/lib/schema.ts], over the records
    of [src/lib/types.ts].
  - [Agent]: [createQueryAgent] and its method [query] of
    [src/lib/agent.ts].
  - [Route]: the [POST] handler of [src/app/api/query/route.ts], as a
    function of the request and of the outside world, which returns the
    calls made and the answer.
  - [Introspection]: [fetchSchemaViaRest] and [fetchSchema] of
    [src/lib/schema.ts]; [SchemaRoute]: the [POST] handler of
    [src/app/api/schema/route.ts].
  - [Storage]: [src/lib/storage.ts]; [Home]: the page of the
    application; [QueryInterface]: the pure parts of
    [src/components/query-interface.tsx].
  - [Stateful]: [schemaToFiles] once more, as the sequence of its
    assignments on a store of its variables.

  A JavaScript string is modelled as a [string] of 8-bit characters and
  the ECMAScript operations are modelled on the ASCII range: the white
  space characters are TAB, LF, VT, FF, CR and SPACE, the letters with
  a case are [a-z] and [A-Z], the word characters are [A-Za-z0-9_]. A
  character above 127 is kept as it is by [trim] and [toUpperCase] and
  is no word character. *)

From Stdlib Require Import Ascii NArith.
From stdpp Require Import gmap strings list.

#[local] Arguments String.append !_ _ / : simpl nomatch.

(** ** ECMAScript string primitives *)

Module JsString.

(** The line feed, written [\n] in the sources. *)
Definition LF : string := String "010"%char "".

Definition isEmpty (s : string) : bool :=
  match s with "" => true | String _ _ => false end.

(** [WhiteSpace] and [LineTerminator], the characters [trim] removes and
    [\s] matches. *)
Definition isWhiteSpace (c : ascii) : bool :=
  match c with
  | "009" | "010" | "011" | "012" | "013" | " " => true
  | _ => false
  end%char.

(** The word characters of [\b] and [\w]. *)
Definition isWordChar (c : ascii) : bool :=
  let n := N_of_ascii c in
  ((65 <=? n) && (n <=? 90) || (97 <=? n) && (n <=? 122)
   || (48 <=? n) && (n <=? 57) || (n =? 95))%N.

Definition toUpperChar (c : ascii) : ascii :=
  let n := N_of_ascii c in
  if ((97 <=? n) && (n <=? 122))%N then ascii_of_N (n - 32) else c.

(** [s.toUpperCase()] *)
Fixpoint toUpperCase (s : string) : string :=
  match s with
  | "" => ""
  | String c r => String (toUpperChar c) (toUpperCase r)
  end.

(** [s.trimStart()] *)
Fixpoint trimStart (s : string) : string :=
  match s with
  | "" => ""
  | String c r => if isWhiteSpace c then trimStart r else s
  end.

(** [s.trimEnd()]: a white space character is dropped when nothing but
    white space follows it. *)
Fixpoint trimEnd (s : string) : string :=
  match s with
  | "" => ""
  | String c r =>
      let r' := trimEnd r in
      if isWhiteSpace c && isEmpty r' then "" else String c r'
  end.

(** [s.trim()] *)
Definition trim (s : string) : string := trimEnd (trimStart s).

(** [stripPrefix p s] is the rest of [s] after its prefix [p]. *)
Fixpoint stripPrefix (p s : string) : option string :=
  match p, s with
  | "", _ => Some s
  | String _ _, "" => None
  | String a p', String b s' =>
      if Ascii.eqb a b then stripPrefix p' s' else None
  end.

(** [s.startsWith(p)] *)
Definition startsWith (s p : string) : bool :=
  match stripPrefix p s with Some _ => true | None => false end.

(** [splitOn p s]: the text before and after the first occurrence of
    [p] in [s]. *)
Fixpoint splitOn (p s : string) {struct s} : option (string * string) :=
  match stripPrefix p s with
  | Some rest => Some ("", rest)
  | None =>
      match s with
      | "" => None
      | String c r =>
          match splitOn p r with
          | Some (b, a) => Some (String c b, a)
          | None => None
          end
      end
  end.

(** [s.includes(p)] *)
Definition includes (s p : string) : bool :=
  match splitOn p s with Some _ => true | None => false end.

(** [s.split(p)[0]] for a non-empty separator [p]. *)
Definition splitFirst (s p : string) : string :=
  match splitOn p s with Some (b, _) => b | None => s end.

(** The characters of [s] up to the first one that is not white space
    are skipped: what a greedy [\s*] consumes. *)
Definition skipWhiteSpace (s : string) : string := trimStart s.

(** [l.join(sep)] *)
Fixpoint join (sep : string) (l : list string) : string :=
  match l with
  | [] => ""
  | [x] => x
  | x :: rest => x +:+ sep +:+ join sep rest
  end.

(** A string is truthy in a condition when it is not empty. *)
Definition truthy (s : string) : bool := negb (isEmpty s).

Definition singleQuote : ascii := "039"%char.
Definition doubleQuote : ascii := "034"%char.

Fixpoint hasChar (q : ascii) (s : string) : bool :=
  match s with
  | "" => false
  | String c r => Ascii.eqb c q || hasChar q r
  end.

(** [s.replace(/q[^q]*q/g, '')] for a quote character [q]. The scan goes
    left to right. Outside a span ([inside = false]) a [q] opens a span
    when another [q] follows somewhere (otherwise the pattern fails at
    this position and the character is kept); inside a span the
    characters are dropped up to and including the next [q]. *)
Fixpoint removeQuoted (q : ascii) (inside : bool) (s : string) : string :=
  match s with
  | "" => ""
  | String c r =>
      if inside then
        if Ascii.eqb c q then removeQuoted q false r
        else removeQuoted q true r
      else if Ascii.eqb c q && hasChar q r then removeQuoted q true r
      else String c (removeQuoted q false r)
  end.

Fixpoint allSemicolons (s : string) : bool :=
  match s with
  | "" => true
  | String c r => Ascii.eqb c ";" && allSemicolons r
  end.

(** [s.replace(/;+$/, '')]: the pattern matches at the leftmost
    semicolon that only semicolons follow up to the end of the text;
    the match, which reaches the end, is removed. *)
Fixpoint stripTrailingSemicolons (s : string) : string :=
  match s with
  | "" => ""
  | String c r =>
      if Ascii.eqb c ";" && allSemicolons r then ""
      else String c (stripTrailingSemicolons r)
  end.

Definition isWordOpt (o : option ascii) : bool :=
  match o with Some c => isWordChar c | None => false end.

Definition head (s : string) : option ascii :=
  match s with "" => None | String c _ => Some c end.

(** The assertion [\b] between the character [prev] before the position
    and the character [next] after it. *)
Definition wordBoundary (prev next : option ascii) : bool :=
  xorb (isWordOpt prev) (isWordOpt next).

(** The literal [kw] matched against the start of [s] under the flag
    [i]: two characters match when their upper-case forms are equal.
    The result is the last character matched and the rest of [s]. *)
Fixpoint matchLiteralCI (kw s : string) (last : option ascii)
  : option (option ascii * string) :=
  match kw, s with
  | "", _ => Some (last, s)
  | String _ _, "" => None
  | String a kw', String b s' =>
      if Ascii.eqb (toUpperChar a) (toUpperChar b)
      then matchLiteralCI kw' s' (Some b)
      else None
  end.

(** One attempt of [/\bkw\b/i] at a position with [prev] before it. *)
Definition matchWordAt (kw : string) (prev : option ascii) (s : string)
  : bool :=
  wordBoundary prev (head s) &&
  match matchLiteralCI kw s prev with
  | Some (last, rest) => wordBoundary last (head rest)
  | None => false
  end.

(** The [test] of the pattern [\bkw\b] with the flag [i]: the attempts go through
    the positions of [s] from the left, the end included. *)
Fixpoint testWordFrom (kw : string) (prev : option ascii) (s : string)
  : bool :=
  matchWordAt kw prev s ||
  match s with
  | "" => false
  | String c r => testWordFrom kw (Some c) r
  end.

Definition testWord (kw s : string) : bool := testWordFrom kw None s.

End JsString.

(** ** [src/lib/agent.ts]: the SQL validator *)

Module Validator.
Import JsString.

Record ValidationOutcome := {
  valid : bool;
  error : option string
}.

Definition dangerousKeywords : list string :=
  [ "INSERT"; "UPDATE"; "DELETE"; "DROP"; "TRUNCATE"; "ALTER";
    "CREATE"; "GRANT"; "REVOKE"; "EXECUTE"; "EXEC"; "CALL";
    "SET"; "COPY"; "LOAD"; "VACUUM"; "REINDEX"; "CLUSTER" ].

Definition onlySelectMessage : string :=
  "Only SELECT queries are allowed. Query must start with SELECT or WITH.".

Definition forbiddenKeywordMessage (keyword : string) : string :=
  "Query contains forbidden keyword: " +:+ keyword +:+
  ". Only SELECT queries are allowed.".

Definition multipleStatementsMessage : string :=
  "Multiple SQL statements are not allowed.".

Definition commentsMessage : string := "SQL comments are not allowed.".

Definition invalid (reason : string) : ValidationOutcome :=
  {| valid := false; error := Some reason |}.

(** The [for] loop over the keywords: the first keyword, in the order of
    the list, that the text holds as a whole word. *)
Fixpoint firstForbidden (keywords : list string) (trimmed : string)
  : option string :=
  match keywords with
  | [] => None
  | keyword :: rest =>
      if testWord keyword trimmed then Some keyword
      else firstForbidden rest trimmed
  end.

(** The two [replace] calls with the global patterns for a span between
    single quotes and for a span between double quotes, in this order. *)
Definition withoutStrings (trimmed : string) : string :=
  removeQuoted doubleQuote false (removeQuoted singleQuote false trimmed).

Definition validateSqlQuery (sql : string) : ValidationOutcome :=
  let trimmed := toUpperCase (trim sql) in
  if negb (startsWith trimmed "SELECT") && negb (startsWith trimmed "WITH")
  then invalid onlySelectMessage
  else
    match firstForbidden dangerousKeywords trimmed with
    | Some keyword => invalid (forbiddenKeywordMessage keyword)
    | None =>
        if includes (withoutStrings trimmed) ";"
        then invalid multipleStatementsMessage
        else if includes trimmed "--" || includes trimmed "/*"
        then invalid commentsMessage
        else {| valid := true; error := None |}
    end.

End Validator.

(** ** [src/lib/types.ts] and [src/lib/schema.ts]: the schema materializer *)

Module TableInfo.
Record t := {
  table_schema : string;
  table_name : string;
  table_type : string
}.
End TableInfo.

Module ColumnInfo.
Record t := {
  table_schema : string;
  table_name : string;
  column_name : string;
  data_type : string;
  is_nullable : string;
  column_default : option string;
  character_maximum_length : option N
}.
End ColumnInfo.

Module ForeignKeyInfo.
Record t := {
  constraint_name : string;
  table_schema : string;
  table_name : string;
  column_name : string;
  foreign_table_schema : string;
  foreign_table_name : string;
  foreign_column_name : string
}.
End ForeignKeyInfo.

Module Schema.
Import JsString.

Record SchemaInfo := {
  tables : list TableInfo.t;
  columns : list ColumnInfo.t;
  foreignKeys : list ForeignKeyInfo.t
}.

(** The arrow U+2192 of the templates, in its UTF-8 encoding. *)
Definition arrow : string :=
  String "226"%char (String "134"%char (String "146"%char "")).

Definition overviewPath : string := "schema/overview.md".
Definition relationshipsPath : string := "schema/relationships.md".
Definition summaryPath : string := "schema/summary.md".
Definition tablePath (name : string) : string :=
  "schema/tables/" +:+ name +:+ ".md".

Definition overviewHeader : string :=
  "# Database Schema Overview" +:+ LF +:+ LF +:+ "## Tables" +:+ LF +:+ LF.

Definition overviewLine (table : TableInfo.t) : string :=
  "- " +:+ TableInfo.table_name table +:+ " (" +:+
  TableInfo.table_type table +:+ ")" +:+ LF.

(** The first loop: one line per table is appended to [overview]. *)
Definition overviewText (schema : SchemaInfo) : string :=
  fold_left (fun overview table => overview +:+ overviewLine table)
    (tables schema) overviewHeader.

Definition columnsOf (schema : SchemaInfo) (table : TableInfo.t)
  : list ColumnInfo.t :=
  filter (fun c => ColumnInfo.table_name c = TableInfo.table_name table)
    (columns schema).

Definition foreignKeysOf (schema : SchemaInfo) (table : TableInfo.t)
  : list ForeignKeyInfo.t :=
  filter (fun fk => ForeignKeyInfo.table_name fk = TableInfo.table_name table)
    (foreignKeys schema).

Definition tableHeader (table : TableInfo.t) : string :=
  "# Table: " +:+ TableInfo.table_name table +:+ LF +:+ LF +:+
  "Type: " +:+ TableInfo.table_type table +:+ LF +:+
  "Schema: " +:+ TableInfo.table_schema table +:+ LF +:+ LF.

Definition columnsHeader : string :=
  "## Columns" +:+ LF +:+ LF +:+
  "| Column | Type | Nullable | Default |" +:+ LF +:+
  "|--------|------|----------|--------|" +:+ LF.

Definition columnRow (col : ColumnInfo.t) : string :=
  let nullable :=
    if String.eqb (ColumnInfo.is_nullable col) "YES" then "Yes" else "No" in
  let defaultVal :=
    match ColumnInfo.column_default col with
    | Some d => if truthy d then d else "-"
    | None => "-"
    end in
  "| " +:+ ColumnInfo.column_name col +:+ " | " +:+
  ColumnInfo.data_type col +:+ " | " +:+ nullable +:+ " | " +:+
  defaultVal +:+ " |" +:+ LF.

Definition tableForeignKeyLine (fk : ForeignKeyInfo.t) : string :=
  "- " +:+ ForeignKeyInfo.column_name fk +:+ " " +:+ arrow +:+ " " +:+
  ForeignKeyInfo.foreign_table_name fk +:+ "." +:+
  ForeignKeyInfo.foreign_column_name fk +:+ LF.

Definition foreignKeysSection (tableFKs : list ForeignKeyInfo.t) : string :=
  match tableFKs with
  | [] => ""
  | _ :: _ =>
      fold_left (fun content fk => content +:+ tableForeignKeyLine fk)
        tableFKs (LF +:+ "## Foreign Keys" +:+ LF +:+ LF)
  end.

(** The body of the second loop: the text of a table's document. *)
Definition tableContent (schema : SchemaInfo) (table : TableInfo.t) : string :=
  let tableColumns := columnsOf schema table in
  let tableFKs := foreignKeysOf schema table in
  let content := tableHeader table +:+ columnsHeader in
  let content :=
    fold_left (fun content col => content +:+ columnRow col)
      tableColumns content in
  content +:+ foreignKeysSection tableFKs.

Definition relationshipLine (fk : ForeignKeyInfo.t) : string :=
  "- " +:+ ForeignKeyInfo.table_name fk +:+ "." +:+
  ForeignKeyInfo.column_name fk +:+ " " +:+ arrow +:+ " " +:+
  ForeignKeyInfo.foreign_table_name fk +:+ "." +:+
  ForeignKeyInfo.foreign_column_name fk +:+ LF.

Definition relationshipsText (schema : SchemaInfo) : string :=
  fold_left (fun relationships fk => relationships +:+ relationshipLine fk)
    (foreignKeys schema)
    ("# Table Relationships" +:+ LF +:+ LF +:+
     "## Foreign Key Relationships" +:+ LF +:+ LF).

Definition summaryEntry (schema : SchemaInfo) (table : TableInfo.t) : string :=
  "### " +:+ TableInfo.table_name table +:+ LF +:+
  join LF
    (map (fun c => "- " +:+ ColumnInfo.column_name c +:+ " (" +:+
                   ColumnInfo.data_type c +:+ ")")
         (columnsOf schema table)) +:+
  LF +:+ LF.

Definition summaryText (schema : SchemaInfo) : string :=
  fold_left (fun summary table => summary +:+ summaryEntry schema table)
    (tables schema)
    ("# Quick Reference" +:+ LF +:+ LF +:+
     "## All Tables and Columns" +:+ LF +:+ LF).

(** [schemaToFiles]: the object [files] starts empty and receives the
    overview, one document per table in the order of [schema.tables],
    the relationships when there is a foreign key, and the summary. *)
Definition schemaToFiles (schema : SchemaInfo) : gmap string string :=
  let files : gmap string string := ∅ in
  let files := <[overviewPath := overviewText schema]> files in
  let files :=
    fold_left
      (fun (files : gmap string string) table =>
         <[tablePath (TableInfo.table_name table) :=
             tableContent schema table]> files)
      (tables schema) files in
  let files :=
    match foreignKeys schema with
    | [] => files
    | _ :: _ => <[relationshipsPath := relationshipsText schema]> files
    end in
  <[summaryPath := summaryText schema]> files.

End Schema.

(** ** [src/lib/agent.ts]: the agent and the answer parser *)

Module Agent.
Import JsString.

Record Credentials := {
  supabaseUrl : string;
  supabaseAnonKey : string;
  llmProvider : string;
  llmModel : option string;
  llmApiKey : string
}.

(** What a [throw] carries to the [catch] of the caller: an [Error]
    with its message, or any other value. *)
Inductive Thrown :=
| ThrownError (message : string)
| ThrownOther.

(** [createLLMClient]: the [switch] on the provider throws on a provider
    that is none of the three. *)
Definition createLLMClient (credentials : Credentials) : Thrown + unit :=
  let provider := llmProvider credentials in
  if String.eqb provider "openai" then inr tt
  else if String.eqb provider "anthropic" then inr tt
  else if String.eqb provider "google" then inr tt
  else inl (ThrownError ("Unknown LLM provider: " +:+ provider)).

Record ToolArgs := {
  command : option string;
  path : option string
}.

Record ToolCall := {
  toolName : option string;
  args : option ToolArgs
}.

Record StepResult := {
  stepText : string;
  toolCalls : option (list ToolCall)
}.

Record GenerateTextResult := {
  text : string;
  steps : option (list StepResult)
}.

Record AgentResponse := {
  explanation : string;
  sql : string;
  agentSteps : list string
}.

Definition truthyOpt (o : option string) : bool :=
  match o with Some s => truthy s | None => false end.

Definition stepBudget : nat := 10.

(** [getModelId]: the override when there is one, else the default
    model of the provider. *)
Definition getModelId (provider : string) (modelOverride : option string)
  : string :=
  if truthyOpt modelOverride then default "" modelOverride
  else if String.eqb provider "openai" then "gpt-4o-mini"
  else if String.eqb provider "anthropic" then "claude-sonnet-4-20250514"
  else if String.eqb provider "google" then "gemini-3-pro-preview"
  else "gpt-4o-mini".

(** A conversation with the remote model: from the steps made so far,
    the next step (a text and the tool calls it asks for), or a
    failure. *)
Definition Provider : Type := list StepResult -> Thrown + StepResult.

(** The remote model with the tools that serve the schema documents:
    the conversation it holds for a model identifier, a set of
    documents and a question. *)
Definition LanguageModel : Type :=
  string -> gmap string string -> string -> Provider.

Definition asksForTools (step : StepResult) : bool :=
  match toolCalls step with
  | Some (_ :: _) => true
  | _ => false
  end.

(** Modelled from the spec: the bounded provider loop of section 4.2,
    which the source delegates to the SDK call [generateText] with
    [stopWhen: stepCountIs(10)]. A step is one answer of the provider;
    the loop goes on while the answer asks for tools and fewer than
    [budget] steps are made. The tools only read the schema documents;
    a [Provider] stands for the remote model together with the tools,
    so the results of the tools do not appear. *)
Fixpoint runSteps (provider : Provider) (budget : nat)
    (made : list StepResult) : Thrown + list StepResult :=
  match budget with
  | 0 => inr made
  | S budget' =>
      match provider made with
      | inl e => inl e
      | inr step =>
          let made := made ++ [step] in
          if asksForTools step then runSteps provider budget' made
          else inr made
      end
  end.

Definition lastText (made : list StepResult) : string :=
  match last made with
  | Some step => stepText step
  | None => ""
  end.

Definition generateText (provider : Provider)
  : Thrown + GenerateTextResult :=
  match runSteps provider stepBudget [] with
  | inl e => inl e
  | inr made => inr {| text := lastText made; steps := Some made |}
  end.

Definition argOf (field : ToolArgs -> option string) (tc : ToolCall)
  : option string :=
  match args tc with Some a => field a | None => None end.

(** The body of the inner loop: what one tool call pushes on [steps]. *)
Definition logToolCall (steps : list string) (tc : ToolCall) : list string :=
  if bool_decide (toolName tc = Some "bash") && truthyOpt (argOf command tc)
  then steps ++ ["$ " +:+ default "" (argOf command tc)]
  else if bool_decide (toolName tc = Some "readFile")
          && truthyOpt (argOf path tc)
  then steps ++ ["$ cat " +:+ default "" (argOf path tc)]
  else if truthyOpt (toolName tc)
  then steps ++ ["[" +:+ default "" (toolName tc) +:+ "] executed"]
  else steps.

Definition logStep (steps : list string) (step : StepResult) : list string :=
  match toolCalls step with
  | Some calls => fold_left logToolCall calls steps
  | None => steps
  end.

(** The two nested loops over [result.steps]. *)
Definition extractSteps (result : GenerateTextResult) : list string :=
  match steps result with
  | Some made => fold_left logStep made []
  | None => []
  end.

Definition sqlFence : string := "```sql" +:+ LF.
Definition fence : string := "```".

(** The first group of the pattern for a fenced SQL block, an opening
    fence with its tag and line feed, a lazy body, a closing fence: the
    attempts go through the positions from the left; at an opening
    fence the body ends at the next closing fence. *)
Fixpoint matchSqlBlock (s : string) : option string :=
  match s with
  | "" => None
  | String _ r =>
      match stripPrefix sqlFence s with
      | Some rest =>
          match splitOn fence rest with
          | Some (body, _) => Some body
          | None => matchSqlBlock r
          end
      | None => matchSqlBlock r
      end
  end.

Definition extractSql (finalResponse : string) : string :=
  match matchSqlBlock finalResponse with
  | Some body => trim body
  | None => ""
  end.

(** The first group of the pattern for the explanation: after the
    marker and the white space that follows it, the lazy body ends
    where the marker of the query starts, or at the end of the text. *)
Definition matchExplanation (s : string) : option string :=
  match splitOn "**Explanation:**" s with
  | Some (_, rest) =>
      Some (splitFirst (skipWhiteSpace rest) "**SQL Query:")
  | None => None
  end.

Definition extractExplanation (finalResponse : string) : string :=
  match matchExplanation finalResponse with
  | Some body => trim body
  | None => trim (splitFirst finalResponse fence)
  end.

(** The rest of [query] after [generateText] has returned. *)
Definition parseResult (result : GenerateTextResult) : AgentResponse :=
  let steps := extractSteps result in
  let finalResponse := text result in
  {| explanation := extractExplanation finalResponse;
     sql := extractSql finalResponse;
     agentSteps := steps |}.

(** The method [query] of the agent, for the conversation that
    [generateText] holds on the question. *)
Definition query (provider : Provider) : Thrown + AgentResponse :=
  match generateText provider with
  | inl e => inl e
  | inr result => inr (parseResult result)
  end.

(** [createQueryAgent]: the agent is its method [query]. *)
Definition createQueryAgent (model : LanguageModel)
    (schemaFiles : gmap string string) (credentials : Credentials)
  : Thrown + (string -> Thrown + AgentResponse) :=
  match createLLMClient credentials with
  | inl e => inl e
  | inr _ =>
      let modelId :=
        getModelId (llmProvider credentials) (llmModel credentials) in
      inr (fun question => query (model modelId schemaFiles question))
  end.

End Agent.

(** ** [src/app/api/query/route.ts]: the query endpoint *)

Module Route.
Import JsString Validator Schema Agent.

Definition Rows : Type := list (list (string * string)).

(** A [data] value: [null] or rows. *)
Inductive Data :=
| DataNull
| DataRows (rows : Rows).

(** What [supabase.rpc('execute_query', ..)] does: it returns a result
    with [data] and possibly an [error] that has a message, or throws. *)
Inductive RpcOutcome :=
| RpcReturned (data : Data) (error : option string)
| RpcThrew.

Record Body := {
  question : string;
  credentials : option Credentials;
  schema : option SchemaInfo
}.

(** The outside world of one request: the remote model, the creation
    of the database client from a URL and a key, which may throw, and
    the remote procedure [execute_query]. *)
Record Env := {
  model : LanguageModel;
  createSupabaseClient : string -> string -> Thrown + unit;
  rpc : string -> RpcOutcome
}.

(** The calls the handler makes, in order. *)
Inductive Event :=
| CalledSchemaToFiles
| CalledCreateQueryAgent
| CalledAgentQuery (question : string)
| CalledValidator (sql : string)
| CalledCreateSupabaseClient
| CalledRpc (query_text : string).

(** The JSON answer: a status and the fields that are present. *)
Record Response := {
  status : nat;
  success : option bool;
  error : option string;
  explanation : option string;
  sql : option string;
  steps : option (list string);
  data : option Data;
  note : option string
}.

Definition emptyResponse : Response :=
  {| status := 200; success := None; error := None; explanation := None;
     sql := None; steps := None; data := None; note := None |}.

Definition extractionFailureMessage : string :=
  "Could not extract SQL from the response. Please try rephrasing your question.".

Definition rpcNote (message : string) : string :=
  "SQL generated successfully. RPC error: " +:+ message +:+
  ". To execute queries directly, set up an execute_query RPC function in your Supabase project.".

(** The answer of the outer [catch]. *)
Definition serverError (e : Thrown) : Response :=
  {| status := 500; success := Some false;
     error := Some match e with
                   | ThrownError message => message
                   | ThrownOther => "Failed to process query"
                   end;
     explanation := None; sql := None; steps := None; data := None;
     note := None |}.

(** [result.sql.trim().replace(/;+$/, '')] *)
Definition cleanSql (sql : string) : string :=
  stripTrailingSemicolons (trim sql).

(** The inner [try]: [data] and [executeError] after the call. *)
Definition execute (outcome : RpcOutcome) : Data * option string :=
  match outcome with
  | RpcReturned data (Some message) => (data, Some message)
  | RpcReturned data None => (data, None)
  | RpcThrew => (DataNull, Some "RPC not available")
  end.

Definition missingFields : Response :=
  {| status := 400; success := None;
     error := Some "Missing question, credentials, or schema";
     explanation := None; sql := None; steps := None;
     data := None; note := None |}.

(** The handler after the agent has returned [result]. *)
Definition respond (env : Env) (credentials : Credentials)
    (result : AgentResponse) : list Event * Response :=
  if negb (truthy (Agent.sql result)) || isEmpty (trim (Agent.sql result))
  then
    ([],
     {| status := 200; success := Some false;
        error := Some extractionFailureMessage;
        explanation := Some (Agent.explanation result);
        sql := None;
        steps := Some (agentSteps result);
        data := None; note := None |})
  else
    let validation := validateSqlQuery (Agent.sql result) in
    if negb (valid validation) then
      ([CalledValidator (Agent.sql result)],
       {| status := 200; success := Some false;
          error := Validator.error validation;
          explanation := Some (Agent.explanation result);
          sql := Some (Agent.sql result);
          steps := Some (agentSteps result);
          data := None; note := None |})
    else
      match createSupabaseClient env (supabaseUrl credentials)
              (supabaseAnonKey credentials) with
      | inl e =>
          ([CalledValidator (Agent.sql result); CalledCreateSupabaseClient],
           serverError e)
      | inr _ =>
          let query_text := cleanSql (Agent.sql result) in
          let trace :=
            [CalledValidator (Agent.sql result); CalledCreateSupabaseClient;
             CalledRpc query_text] in
          match execute (rpc env query_text) with
          | (_, Some message) =>
              (trace,
               {| status := 200; success := Some true; error := None;
                  explanation := Some (Agent.explanation result);
                  sql := Some (Agent.sql result);
                  steps := Some (agentSteps result);
                  data := Some DataNull;
                  note := Some (rpcNote message) |})
          | (data, None) =>
              (trace,
               {| status := 200; success := Some true; error := None;
                  explanation := Some (Agent.explanation result);
                  sql := Some (Agent.sql result);
                  steps := Some (agentSteps result);
                  data := Some data; note := None |})
          end
      end.

(** [POST]: the calls made, in order, and the answer. *)
Definition POST (env : Env) (body : Body) : list Event * Response :=
  match credentials body, schema body with
  | Some credentials, Some schema =>
      if negb (truthy (question body)) then ([], missingFields)
      else
        let schemaFiles := schemaToFiles schema in
        match createQueryAgent (model env) schemaFiles credentials with
        | inl e => ([CalledSchemaToFiles; CalledCreateQueryAgent], serverError e)
        | inr agent =>
            let trace :=
              [CalledSchemaToFiles; CalledCreateQueryAgent;
               CalledAgentQuery (question body)] in
            match agent (question body) with
            | inl e => (trace, serverError e)
            | inr result =>
                let (calls, response) := respond env credentials result in
                (trace ++ calls, response)
            end
        end
  | _, _ => ([], missingFields)
  end.

End Route.

(** ** Notions used to state the properties *)

Module Notions.
Import JsString Validator.

(** The text the rules of the validator look at. *)
Definition normalize (sql : string) : string := toUpperCase (trim sql).

Definition startsWithSelectOrWith (sql : string) : Prop :=
  startsWith (normalize sql) "SELECT" = true \/
  startsWith (normalize sql) "WITH" = true.

(** The reason of an outcome names a word when it holds it. *)
Definition reasonNames (o : ValidationOutcome) (word : string) : Prop :=
  exists reason, error o = Some reason /\ includes reason word = true.

Fixpoint lastChar (s : string) : option ascii :=
  match s with
  | "" => None
  | String c r =>
      match lastChar r with
      | Some d => Some d
      | None => Some c
      end
  end.

(** The characters of the markers the validator looks for. *)
Definition isMark (a : ascii) : bool :=
  Ascii.eqb a ";" || Ascii.eqb a "-" || Ascii.eqb a "/" || Ascii.eqb a "*".

Fixpoint allMarks (p : string) : bool :=
  match p with
  | "" => true
  | String a p' => isMark a && allMarks p'
  end.

(** [before] is the text of [s] up to its first occurrence of [p], and
    [after] the text that follows this occurrence. *)
Definition FirstOccurrence (p s before after : string) : Prop :=
  s = before +:+ p +:+ after /\
  forall b a, s = b +:+ p +:+ a -> String.length before <= String.length b.

(** [body] is the contents of the first fenced block tagged as SQL: the
    text between the first opening fence and the first closing fence
    after it. *)
Definition FirstSqlBlock (answer body : string) : Prop :=
  exists before rest after,
    FirstOccurrence Agent.sqlFence answer before rest /\
    FirstOccurrence Agent.fence rest body after.

(** The answer holds a fenced block tagged as SQL. *)
Definition HasSqlBlock (answer : string) : Prop :=
  exists before body after,
    answer = before +:+ Agent.sqlFence +:+ body +:+ Agent.fence +:+ after.

(** The document of a table with no column: the header of the table,
    the header of the column table and the foreign keys, if any. *)
Definition emptyTableDocument (schema : Schema.SchemaInfo)
    (table : TableInfo.t) : string :=
  (Schema.tableHeader table +:+ Schema.columnsHeader) +:+
  Schema.foreignKeysSection (Schema.foreignKeysOf schema table).

(** The second loop of [schemaToFiles], over any list of tables. *)
Definition insertTables (schema : Schema.SchemaInfo) (l : list TableInfo.t)
    (files : gmap string string) : gmap string string :=
  fold_left
    (fun (files : gmap string string) table =>
       <[Schema.tablePath (TableInfo.table_name table) :=
           Schema.tableContent schema table]> files)
    l files.

(** The conversation that the handler starts for a request. *)
Definition conversation (env : Route.Env) (creds : Agent.Credentials)
    (sch : Schema.SchemaInfo) (question : string) : Agent.Provider :=
  Route.model env
    (Agent.getModelId (Agent.llmProvider creds) (Agent.llmModel creds))
    (Schema.schemaToFiles sch) question.

(** The calls the handler has made when the agent has returned. *)
Definition agentTrace (question : string) : list Route.Event :=
  [Route.CalledSchemaToFiles; Route.CalledCreateQueryAgent;
   Route.CalledAgentQuery question].

(** The tool calls of a step, and how many of them have a name: each
    of these is one entry of the step log. *)
Definition callsOf (step : Agent.StepResult) : list Agent.ToolCall :=
  default [] (Agent.toolCalls step).

Definition isNamed (tc : Agent.ToolCall) : bool :=
  Agent.truthyOpt (Agent.toolName tc).

Fixpoint countNamed (calls : list Agent.ToolCall) : nat :=
  match calls with
  | [] => 0
  | tc :: rest => (if isNamed tc then 1 else 0) + countNamed rest
  end.

Fixpoint countLogged (made : list Agent.StepResult) : nat :=
  match made with
  | [] => 0
  | step :: rest => countNamed (callsOf step) + countLogged rest
  end.

(** The answer of the endpoint when the query was generated and
    validated but the call of the database left an error message. *)
Definition softSuccess (result : Agent.AgentResponse) (message : string)
  : Route.Response :=
  {| Route.status := 200; Route.success := Some true; Route.error := None;
     Route.explanation := Some (Agent.explanation result);
     Route.sql := Some (Agent.sql result);
     Route.steps := Some (Agent.agentSteps result);
     Route.data := Some Route.DataNull;
     Route.note := Some (Route.rpcNote message) |}.

(** The answer of the endpoint when no SQL could be extracted. *)
Definition extractionFailure (result : Agent.AgentResponse) : Route.Response :=
  {| Route.status := 200; Route.success := Some false;
     Route.error := Some Route.extractionFailureMessage;
     Route.explanation := Some (Agent.explanation result);
     Route.sql := None;
     Route.steps := Some (Agent.agentSteps result);
     Route.data := None; Route.note := None |}.

End Notions.

(** ** Concrete requests *)

Module Examples.
Import JsString Schema Agent Route.

Definition bash (c : string) : ToolCall :=
  {| toolName := Some "bash";
     args := Some {| command := Some c; path := None |} |}.

Definition sqlAnswer : string :=
  "**Explanation:** one row" +:+ LF +:+ LF +:+ "**SQL Query:**" +:+ LF +:+
  "```sql" +:+ LF +:+ "SELECT 1" +:+ LF +:+ "```".


(** A model that answers at once, without a tool call. *)
Definition answering (answer : string) : LanguageModel :=
  fun _ _ _ _ => inr {| stepText := answer; toolCalls := Some [] |}.

(** A provider that asks for eleven tool calls in its first step and
    then answers. *)
Definition eager : Provider :=
  fun made =>
    match made with
    | [] => inr {| stepText := ""; toolCalls := Some (repeat (bash "ls schema/") 11) |}
    | _ :: _ => inr {| stepText := sqlAnswer; toolCalls := Some [] |}
    end.

(** A provider that asks for one tool call in every step. *)
Definition restlessStep : StepResult :=
  {| stepText := ""; toolCalls := Some [bash "ls"] |}.

Definition restless : Provider := fun _ => inr restlessStep.

Definition someCredentials : Credentials :=
  {| supabaseUrl := "https://db.example"; supabaseAnonKey := "anon";
     llmProvider := "openai"; llmModel := None; llmApiKey := "key" |}.

Definition emptyTable : TableInfo.t :=
  {| TableInfo.table_schema := "public"; TableInfo.table_name := "audit";
     TableInfo.table_type := "BASE TABLE" |}.

Definition ordersTable : TableInfo.t :=
  {| TableInfo.table_schema := "public"; TableInfo.table_name := "orders";
     TableInfo.table_type := "BASE TABLE" |}.

Definition ordersColumn (name type : string) : ColumnInfo.t :=
  {| ColumnInfo.table_schema := "public"; ColumnInfo.table_name := "orders";
     ColumnInfo.column_name := name; ColumnInfo.data_type := type;
     ColumnInfo.is_nullable := "NO"; ColumnInfo.column_default := None;
     ColumnInfo.character_maximum_length := None |}.

Definition someSchema : SchemaInfo :=
  {| tables := [ordersTable; emptyTable];
     columns := [ordersColumn "id" "int"; ordersColumn "total" "numeric"];
     foreignKeys := [] |}.

Definition someBody : Body :=
  {| question := "show me one row";
     credentials := Some someCredentials;
     schema := Some someSchema |}.

(** The database runs the query and reports an error with [message]. *)
Definition failingDatabase (answer message : string) : Env :=
  {| model := answering answer;
     createSupabaseClient := fun _ _ => inr tt;
     rpc := fun _ => RpcReturned DataNull (Some message) |}.

(** The call of the database throws: the capability is not there. *)
Definition missingDatabase (answer : string) : Env :=
  {| model := answering answer;
     createSupabaseClient := fun _ _ => inr tt;
     rpc := fun _ => RpcThrew |}.

(** What [generateText] returns for a model that answers at once. *)
Definition answered (answer : string) : GenerateTextResult :=
  {| text := answer;
     Agent.steps := Some [ {| stepText := answer; toolCalls := Some [] |} ] |}.

End Examples.

(** ** [src/lib/schema.ts]: the schema introspection *)

Module Introspection.
Import JsString Schema Agent.

(** The part of the OpenAPI document of the REST endpoint that
    [fetchSchemaViaRest] reads. The entries of [definitions] and of
    [properties] are in the order of [Object.entries]. *)
Record ColumnDef := {
  type : option string;
  format : option string;
  description : option string
}.

Record TableDefinition := {
  properties : option (list (string * ColumnDef))
}.

Record OpenApiSpec := {
  definitions : option (list (string * TableDefinition))
}.

(** What [fetch] does: it throws, or returns a response with its flag
    [ok] and a body that [response.json()] parses or throws on. *)
Inductive FetchOutcome :=
| FetchThrew (e : Thrown)
| FetchReturned (ok : bool) (json : Thrown + OpenApiSpec).

(** [columnDef.format || columnDef.type || 'unknown'] *)
Definition restDataType (columnDef : ColumnDef) : string :=
  if truthyOpt (format columnDef) then default "" (format columnDef)
  else if truthyOpt (type columnDef) then default "" (type columnDef)
  else "unknown".

Definition restTable (tableName : string) : TableInfo.t :=
  {| TableInfo.table_schema := "public";
     TableInfo.table_name := tableName;
     TableInfo.table_type := "BASE TABLE" |}.

Definition restColumn (tableName : string) (entry : string * ColumnDef)
  : ColumnInfo.t :=
  {| ColumnInfo.table_schema := "public";
     ColumnInfo.table_name := tableName;
     ColumnInfo.column_name := fst entry;
     ColumnInfo.data_type := restDataType (snd entry);
     ColumnInfo.is_nullable := "YES";
     ColumnInfo.column_default := None;
     ColumnInfo.character_maximum_length := None |}.

(** The inner loop: the columns of one definition are pushed. *)
Definition restColumns (tableName : string) (definition : TableDefinition)
    (columns : list ColumnInfo.t) : list ColumnInfo.t :=
  match properties definition with
  | Some props =>
      fold_left (fun columns entry => columns ++ [restColumn tableName entry])
        props columns
  | None => columns
  end.

(** The body of the outer loop, on the arrays [tables] and [columns]. *)
Definition restEntry (acc : list TableInfo.t * list ColumnInfo.t)
    (entry : string * TableDefinition)
  : list TableInfo.t * list ColumnInfo.t :=
  if startsWith (fst entry) "_" then acc
  else (fst acc ++ [restTable (fst entry)],
        restColumns (fst entry) (snd entry) (snd acc)).

(** The rest of [fetchSchemaViaRest] after the document is parsed. *)
Definition parseOpenApi (openApiSpec : OpenApiSpec) : SchemaInfo :=
  let acc :=
    match definitions openApiSpec with
    | Some entries => fold_left restEntry entries ([], [])
    | None => ([], [])
    end in
  {| tables := fst acc; columns := snd acc; foreignKeys := [] |}.

Definition restFailure : string := "Failed to fetch schema from REST endpoint".

(** [fetchSchemaViaRest], with [fetch] applied to the URL and the key. *)
Definition fetchSchemaViaRest (fetch : string -> string -> FetchOutcome)
    (supabaseUrl anonKey : string) : Thrown + SchemaInfo :=
  match fetch (supabaseUrl +:+ "/rest/v1/") anonKey with
  | FetchThrew e => inl e
  | FetchReturned ok json =>
      if negb ok then inl (ThrownError restFailure)
      else
        match json with
        | inl e => inl e
        | inr openApiSpec => inr (parseOpenApi openApiSpec)
        end
  end.

(** The result of a query of the database client: [data] and [error],
    each possibly [null]; an error has a message. *)
Record QueryResult (A : Type) := {
  data : option A;
  error : option string
}.
Arguments data {A} _.
Arguments error {A} _.

(** The four requests that [fetchSchema] makes on its client: the two
    selections on the information schema and the two remote procedures,
    which may throw. *)
Record SupabaseClient := {
  selectTables : QueryResult (list TableInfo.t);
  rpcGetTablesInfo : Thrown + option (list TableInfo.t);
  selectColumns : QueryResult (list ColumnInfo.t);
  rpcExecuteSql : Thrown + option (list ForeignKeyInfo.t)
}.

(** The fallback when the selection of the tables fails: [tablesResult]
    after the [try]. *)
Definition tablesFallback (supabase : SupabaseClient)
  : option (list TableInfo.t) :=
  match rpcGetTablesInfo supabase with
  | inr data => data
  | inl _ => None
  end.

(** [foreignKeys] after the [try]. *)
Definition fetchForeignKeys (supabase : SupabaseClient)
  : list ForeignKeyInfo.t :=
  match rpcExecuteSql supabase with
  | inr (Some fkData) => fkData
  | _ => []
  end.

Definition fetchSchema (supabase : SupabaseClient) : Thrown + SchemaInfo :=
  let tables := data (selectTables supabase) in
  let tablesChecked : Thrown + unit :=
    match error (selectTables supabase) with
    | Some message =>
        match tablesFallback supabase with
        | Some _ => inr tt
        | None => inl (ThrownError ("Failed to fetch tables: " +:+ message))
        end
    | None => inr tt
    end in
  match tablesChecked with
  | inl e => inl e
  | inr _ =>
      match error (selectColumns supabase) with
      | Some message =>
          inl (ThrownError ("Failed to fetch columns: " +:+ message))
      | None =>
          inr {| tables := default [] tables;
                 columns := default [] (data (selectColumns supabase));
                 foreignKeys := fetchForeignKeys supabase |}
      end
  end.

End Introspection.

(** ** [src/app/api/schema/route.ts]: the schema endpoint *)

Module SchemaRoute.
Import JsString Schema Agent Introspection.

Record Body := {
  supabaseUrl : string;
  supabaseAnonKey : string
}.

Record Response := {
  status : nat;
  error : option string;
  schema : option SchemaInfo
}.

Inductive Event :=
| CalledFetchSchemaViaRest (supabaseUrl supabaseAnonKey : string).

Definition POST (fetch : string -> string -> FetchOutcome) (body : Body)
  : list Event * Response :=
  if negb (truthy (supabaseUrl body)) || negb (truthy (supabaseAnonKey body))
  then
    ([], {| status := 400;
            error := Some "Missing supabaseUrl or supabaseAnonKey";
            schema := None |})
  else
    let trace :=
      [CalledFetchSchemaViaRest (supabaseUrl body) (supabaseAnonKey body)] in
    match fetchSchemaViaRest fetch (supabaseUrl body) (supabaseAnonKey body) with
    | inl e =>
        (trace,
         {| status := 500;
            error := Some match e with
                          | ThrownError message => message
                          | ThrownOther => "Failed to fetch schema"
                          end;
            schema := None |})
    | inr schema =>
        (trace, {| status := 200; error := None; schema := Some schema |})
    end.

End SchemaRoute.

(** ** [src/lib/storage.ts]: the credentials and the schema in the
       storage of the browser *)

Module Storage.
Import JsString Schema Agent.

Definition CREDENTIALS_KEY : string := "supabase-query-agent-credentials".
Definition SCHEMA_KEY : string := "supabase-query-agent-schema".

(** [JSON.stringify] and [JSON.parse] at one type; [parse] is [None]
    where [JSON.parse] throws. *)
Record Json (A : Type) := {
  stringify : A -> string;
  parse : string -> option A
}.
Arguments stringify {A} _ _.
Arguments parse {A} _ _.

Section WithJson.
Variable credentialsJson : Json Credentials.
Variable schemaJson : Json SchemaInfo.

(** The storage is [None] where there is no [window], on the server,
    and the map of [localStorage] in the browser. *)
Definition saveCredentials (credentials : Credentials)
    (storage : option (gmap string string)) : option (gmap string string) :=
  match storage with
  | None => None
  | Some items =>
      Some (<[CREDENTIALS_KEY := stringify credentialsJson credentials]> items)
  end.

Definition getCredentials (storage : option (gmap string string))
  : option Credentials :=
  match storage with
  | None => None
  | Some items =>
      match items !! CREDENTIALS_KEY with
      | Some stored =>
          if negb (truthy stored) then None else parse credentialsJson stored
      | None => None
      end
  end.

Definition clearCredentials (storage : option (gmap string string))
  : option (gmap string string) :=
  match storage with
  | None => None
  | Some items => Some (delete SCHEMA_KEY (delete CREDENTIALS_KEY items))
  end.

Definition saveSchema (schema : SchemaInfo)
    (storage : option (gmap string string)) : option (gmap string string) :=
  match storage with
  | None => None
  | Some items => Some (<[SCHEMA_KEY := stringify schemaJson schema]> items)
  end.

Definition getSchema (storage : option (gmap string string))
  : option SchemaInfo :=
  match storage with
  | None => None
  | Some items =>
      match items !! SCHEMA_KEY with
      | Some stored =>
          if negb (truthy stored) then None else parse schemaJson stored
      | None => None
      end
  end.

Definition hasCredentials (storage : option (gmap string string)) : bool :=
  match getCredentials storage with Some _ => true | None => false end.

End WithJson.

End Storage.

(** ** The page of the application ([src/unnamed/part_000]) *)

Module Home.
Import JsString Schema Agent Storage.

Record State := {
  credentials : option Credentials;
  schema : option SchemaInfo;
  mounted : bool
}.

(** The state of a page that has just been loaded. *)
Definition initial : State :=
  {| credentials := None; schema := None; mounted := false |}.

Inductive View :=
| Nothing
| QueryInterface (credentials : Credentials) (schema : SchemaInfo)
| Landing.

Section WithJson.
Variable credentialsJson : Json Credentials.
Variable schemaJson : Json SchemaInfo.

(** The effect run on mount: the saved session is taken up when both
    the credentials and the schema are there. *)
Definition onMount (state : State) (storage : option (gmap string string))
  : State :=
  let savedCredentials := getCredentials credentialsJson storage in
  let savedSchema := getSchema schemaJson storage in
  match savedCredentials, savedSchema with
  | Some c, Some s =>
      {| credentials := Some c; schema := Some s; mounted := true |}
  | _, _ =>
      {| credentials := credentials state; schema := schema state;
         mounted := true |}
  end.

Definition handleConnect (creds : Credentials) (schemaInfo : SchemaInfo)
    (state : State) (storage : option (gmap string string))
  : State * option (gmap string string) :=
  ({| credentials := Some creds; schema := Some schemaInfo;
      mounted := mounted state |},
   saveSchema schemaJson schemaInfo
     (saveCredentials credentialsJson creds storage)).

Definition handleDisconnect (state : State)
    (storage : option (gmap string string))
  : State * option (gmap string string) :=
  ({| credentials := None; schema := None; mounted := mounted state |},
   clearCredentials storage).

End WithJson.

(** What the page renders. *)
Definition render (state : State) : View :=
  if negb (mounted state) then Nothing
  else
    match credentials state, schema state with
    | Some c, Some s => QueryInterface c s
    | _, _ => Landing
    end.

End Home.

(** ** [src/components/query-interface.tsx]: the pure parts of the chat *)

Module QueryInterface.
Import JsString.

(** [input.slice(0, 40) + (input.length > 40 ? '...' : '')] *)
Definition conversationTitle (input : string) : string :=
  String.substring 0 40 input +:+
  (if 40 <? String.length input then "..." else "").

(** [toggleSteps]: the next set of the expanded messages. *)
Definition toggleSteps (messageId : string) (prev : gset string)
  : gset string :=
  if decide (messageId ∈ prev) then prev ∖ {[messageId]}
  else prev ∪ {[messageId]}.

End QueryInterface.

(** ** Further notions used to state the properties *)

Module Specs.
Import JsString Validator Notions.

(** The text holds the word [kw], in any letter case, with no word
    character next to it. *)
Definition HoldsWord (kw text : string) : Prop :=
  exists pre w post,
    text = pre +:+ w +:+ post /\
    toUpperCase w = kw /\
    isWordOpt (lastChar pre) = false /\
    isWordOpt (head post) = false.

Fixpoint allWordChars (s : string) : bool :=
  match s with
  | "" => true
  | String c r => isWordChar c && allWordChars r
  end.

Fixpoint allWhiteSpace (s : string) : bool :=
  match s with
  | "" => true
  | String c r => isWhiteSpace c && allWhiteSpace r
  end.

(** The answer in the format that the system prompt asks for. *)
Definition formatAnswer (explanation sql : string) : string :=
  "**Explanation:** " +:+ explanation +:+ LF +:+ LF +:+
  "**SQL Query:**" +:+ LF +:+
  "```sql" +:+ LF +:+ sql +:+ LF +:+ "```".

(** The last table of the list that has the name. *)
Definition tableNamed (name : string) (l : list TableInfo.t)
  : option TableInfo.t :=
  last (filter (fun t => TableInfo.table_name t = name) l).

(** What holds of the arrays [tables] and [columns] all along the loop
    of [fetchSchemaViaRest]. *)
Definition restInvariant (acc : list TableInfo.t * list ColumnInfo.t)
  : Prop :=
  (forall c, In c (snd acc) ->
     (exists t, In t (fst acc) /\
                TableInfo.table_name t = ColumnInfo.table_name c) /\
     truthy (ColumnInfo.data_type c) = true /\
     ColumnInfo.is_nullable c = "YES" /\
     ColumnInfo.column_default c = None) /\
  (forall t, In t (fst acc) ->
     TableInfo.table_schema t = "public" /\
     TableInfo.table_type t = "BASE TABLE" /\
     startsWith (TableInfo.table_name t) "_" = false).

End Specs.

(** ** Further concrete requests *)

Module Cases.
Import JsString Schema Agent Route Examples.



Definition deleteAnswer : string :=
  "```sql" +:+ LF +:+ "DELETE FROM users" +:+ LF +:+ "```".

Definition ordersDefinition : Introspection.TableDefinition :=
  {| Introspection.properties :=
       Some [ ("id", {| Introspection.type := Some "integer";
                        Introspection.format := Some "bigint";
                        Introspection.description := None |});
              ("total", {| Introspection.type := Some "number";
                           Introspection.format := None;
                           Introspection.description := None |}) ] |}.

Definition restEntries : list (string * Introspection.TableDefinition) :=
  [ ("orders", ordersDefinition);
    ("_migrations", {| Introspection.properties := None |}) ].

(** A schema with a foreign key from the orders to the users. *)
Definition linkedSchema : SchemaInfo :=
  {| tables := [ordersTable;
                {| TableInfo.table_schema := "public";
                   TableInfo.table_name := "users";
                   TableInfo.table_type := "BASE TABLE" |}];
     columns := [ordersColumn "id" "int"; ordersColumn "user_id" "int"];
     foreignKeys :=
       [ {| ForeignKeyInfo.constraint_name := "orders_user_id_fkey";
            ForeignKeyInfo.table_schema := "public";
            ForeignKeyInfo.table_name := "orders";
            ForeignKeyInfo.column_name := "user_id";
            ForeignKeyInfo.foreign_table_schema := "public";
            ForeignKeyInfo.foreign_table_name := "users";
            ForeignKeyInfo.foreign_column_name := "id" |} ] |}.

(** Two codecs that know one value each. *)
Definition fixedCredentialsJson : Storage.Json Credentials :=
  {| Storage.stringify := fun _ => "{credentials}";
     Storage.parse := fun _ => Some someCredentials |}.

Definition fixedSchemaJson : Storage.Json SchemaInfo :=
  {| Storage.stringify := fun _ => "{schema}";
     Storage.parse := fun _ => Some someSchema |}.

(** A client whose selection of the tables fails, with a fallback
    procedure that returns rows. *)
Definition failedSelection : Introspection.SupabaseClient :=
  {| Introspection.selectTables :=
       {| Introspection.data := None; Introspection.error := Some "denied" |};
     Introspection.rpcGetTablesInfo := inr (Some [ordersTable]);
     Introspection.selectColumns :=
       {| Introspection.data := Some [ordersColumn "id" "int"];
          Introspection.error := None |};
     Introspection.rpcExecuteSql := inl ThrownOther |}.

End Cases.

(** ** [schemaToFiles] of [src/lib/schema.ts], statement by statement *)

Module Stateful.
Import JsString Schema.

(** The variables that [schemaToFiles] writes: the object [files] and
    the texts [overview], [content], [relationships] and [summary]. *)
Record Store := {
  files : gmap string string;
  overview : string;
  content : string;
  relationships : string;
  summary : string
}.

Definition setFiles (v : gmap string string) (st : Store) : Store :=
  {| files := v; overview := overview st; content := content st;
     relationships := relationships st; summary := summary st |}.

Definition setOverview (v : string) (st : Store) : Store :=
  {| files := files st; overview := v; content := content st;
     relationships := relationships st; summary := summary st |}.

Definition setContent (v : string) (st : Store) : Store :=
  {| files := files st; overview := overview st; content := v;
     relationships := relationships st; summary := summary st |}.

Definition setRelationships (v : string) (st : Store) : Store :=
  {| files := files st; overview := overview st; content := content st;
     relationships := v; summary := summary st |}.

Definition setSummary (v : string) (st : Store) : Store :=
  {| files := files st; overview := overview st; content := content st;
     relationships := relationships st; summary := v |}.

(** [files[path] = text] *)
Definition assignFile (path text : string) (st : Store) : Store :=
  setFiles (<[path := text]> (files st)) st.

(** [overview += text], and the like for the other texts. *)
Definition appendOverview (text : string) (st : Store) : Store :=
  setOverview (overview st +:+ text) st.

Definition appendContent (text : string) (st : Store) : Store :=
  setContent (content st +:+ text) st.

Definition appendRelationships (text : string) (st : Store) : Store :=
  setRelationships (relationships st +:+ text) st.

Definition appendSummary (text : string) (st : Store) : Store :=
  setSummary (summary st +:+ text) st.

(** The declaration of [files] and the statements up to the assignment
    of the overview. *)
Definition overviewStatements (schema : SchemaInfo) (st : Store) : Store :=
  let st := setFiles ∅ st in
  let st := setOverview ("# Database Schema Overview" +:+ LF +:+ LF) st in
  let st := appendOverview ("## Tables" +:+ LF +:+ LF) st in
  let st :=
    fold_left (fun st table => appendOverview (overviewLine table) st)
      (tables schema) st in
  assignFile "schema/overview.md" (overview st) st.

(** The body of the loop that writes the document of a table. *)
Definition tableStatements (schema : SchemaInfo) (st : Store)
    (table : TableInfo.t) : Store :=
  let tableColumns := columnsOf schema table in
  let tableFKs := foreignKeysOf schema table in
  let st :=
    setContent ("# Table: " +:+ TableInfo.table_name table +:+ LF +:+ LF) st in
  let st :=
    appendContent ("Type: " +:+ TableInfo.table_type table +:+ LF) st in
  let st :=
    appendContent
      ("Schema: " +:+ TableInfo.table_schema table +:+ LF +:+ LF) st in
  let st := appendContent ("## Columns" +:+ LF +:+ LF) st in
  let st :=
    appendContent ("| Column | Type | Nullable | Default |" +:+ LF) st in
  let st :=
    appendContent ("|--------|------|----------|--------|" +:+ LF) st in
  let st :=
    fold_left (fun st col => appendContent (columnRow col) st)
      tableColumns st in
  let st :=
    match tableFKs with
    | [] => st
    | _ :: _ =>
        let st := appendContent (LF +:+ "## Foreign Keys" +:+ LF +:+ LF) st in
        fold_left (fun st fk => appendContent (tableForeignKeyLine fk) st)
          tableFKs st
    end in
  assignFile ("schema/tables/" +:+ TableInfo.table_name table +:+ ".md")
    (content st) st.

(** The statements under the test on the number of foreign keys. *)
Definition relationshipsStatements (schema : SchemaInfo) (st : Store)
  : Store :=
  match foreignKeys schema with
  | [] => st
  | _ :: _ =>
      let st := setRelationships ("# Table Relationships" +:+ LF +:+ LF) st in
      let st :=
        appendRelationships
          ("## Foreign Key Relationships" +:+ LF +:+ LF) st in
      let st :=
        fold_left (fun st fk => appendRelationships (relationshipLine fk) st)
          (foreignKeys schema) st in
      assignFile "schema/relationships.md" (relationships st) st
  end.

(** The body of the loop that writes the summary. *)
Definition summaryEntryStatements (schema : SchemaInfo) (st : Store)
    (table : TableInfo.t) : Store :=
  let tableColumns := columnsOf schema table in
  let st := appendSummary ("### " +:+ TableInfo.table_name table +:+ LF) st in
  let st :=
    appendSummary
      (join LF
         (map (fun c => "- " +:+ ColumnInfo.column_name c +:+ " (" +:+
                        ColumnInfo.data_type c +:+ ")")
              tableColumns)) st in
  appendSummary (LF +:+ LF) st.

Definition summaryStatements (schema : SchemaInfo) (st : Store) : Store :=
  let st := setSummary ("# Quick Reference" +:+ LF +:+ LF) st in
  let st := appendSummary ("## All Tables and Columns" +:+ LF +:+ LF) st in
  let st := fold_left (summaryEntryStatements schema) (tables schema) st in
  assignFile "schema/summary.md" (summary st) st.

(** The body of [schemaToFiles], run on a store that holds whatever was
    there before the call; every declaration of the source is the
    assignment of the initial value of the variable. *)
Definition run (schema : SchemaInfo) (st : Store) : Store :=
  let st := overviewStatements schema st in
  let st := fold_left (tableStatements schema) (tables schema) st in
  let st := relationshipsStatements schema st in
  summaryStatements schema st.

(** What a call returns: the object [files] when the body has run. *)
Definition schemaToFilesFrom (st : Store) (schema : SchemaInfo)
  : gmap string string :=
  files (run schema st).

End Stateful.

(** ** The terms in which the properties of the validator, of the parser
       and of the documents are stated *)

Module Terms.
Import JsString Validator Notions Specs.

(** A text of ASCII characters. On such a text [trim] and [toUpperCase]
    of [JsString] are those of ECMAScript. *)
Fixpoint isAscii (s : string) : bool :=
  match s with
  | "" => true
  | String c r => (N_of_ascii c <? 128)%N && isAscii r
  end.

(** The text holds no character [q]. *)
Fixpoint lacks (q : ascii) (s : string) : bool :=
  match s with
  | "" => true
  | String c r => negb (Ascii.eqb c q) && lacks q r
  end.

(** [SpansRemoved q s t]: [t] is [s] without its spans between two
    characters [q]. From the left, a [q] is paired with the next [q];
    the two and what stands between them are removed. A [q] that no
    other [q] follows stays where it is. *)
Inductive SpansRemoved (q : ascii) : string -> string -> Prop :=
| spans_end : SpansRemoved q "" ""
| spans_keep (c : ascii) (s t : string) :
    c <> q -> SpansRemoved q s t ->
    SpansRemoved q (String c s) (String c t)
| spans_span (b rest t : string) :
    lacks q b = true -> SpansRemoved q rest t ->
    SpansRemoved q (String q (b +:+ String q rest)) t
| spans_last (s : string) :
    lacks q s = true -> SpansRemoved q (String q s) (String q s).

(** The first keyword of the list that the query holds as a whole word:
    the keywords in front of it are not held. *)
Definition FirstHeld (keywords : list string) (sql named : string) : Prop :=
  exists before after,
    keywords = before ++ named :: after /\
    (forall k, In k before -> ~ HoldsWord k sql) /\
    HoldsWord named sql.

(** The white space characters TAB, LF, VT, FF, CR and SPACE. *)
Definition isBlank (c : ascii) : bool :=
  existsb (N.eqb (N_of_ascii c)) [9; 10; 11; 12; 13; 32]%N.

Fixpoint allBlank (s : string) : bool :=
  match s with
  | "" => true
  | String c r => isBlank c && allBlank r
  end.

(** [t] is [body] without the white space at its two ends. *)
Definition TrimmedTo (body t : string) : Prop :=
  exists before after,
    body = before +:+ t +:+ after /\
    allBlank before = true /\ allBlank after = true /\
    (forall c, head t = Some c -> isBlank c = false) /\
    (forall c, lastChar t = Some c -> isBlank c = false).

(** The marker that opens a block of SQL: three backquotes, the tag in
    lower case and a line feed; and the marker that closes it. *)
Definition openingMarker : string := "```sql" +:+ String "010"%char "".
Definition closingMarker : string := "```".

(** [body] is what stands between the first opening marker of the
    answer and the first closing marker after it. *)
Definition FirstBlock (answer body : string) : Prop :=
  exists before rest after,
    FirstOccurrence openingMarker answer before rest /\
    FirstOccurrence closingMarker rest body after.

Definition HasBlock (answer : string) : Prop :=
  exists before body after,
    answer = before +:+ openingMarker +:+ body +:+ closingMarker +:+ after.

(** A fenced block tagged as SQL in the wider sense of Markdown: the tag
    in any letter case, the line ended by a line feed or by a carriage
    return and a line feed. *)
Definition TaggedBlock (answer body : string) : Prop :=
  exists before tag eol after,
    answer = before +:+ "```" +:+ tag +:+ eol +:+ body +:+ "```" +:+ after /\
    toUpperCase tag = "SQL" /\
    (eol = String "010"%char "" \/
     eol = String "013"%char (String "010"%char "")).

(** The arrow U+2192 in its UTF-8 encoding. *)
Definition rightArrow : string :=
  String "226"%char (String "134"%char (String "146"%char "")).

(** The cell of a column that tells whether it may be null, and the
    cell of its default value. *)
Definition nullableCell (c : ColumnInfo.t) : string :=
  if decide (ColumnInfo.is_nullable c = "YES") then "Yes" else "No".

Definition defaultCell (c : ColumnInfo.t) : string :=
  match ColumnInfo.column_default c with
  | Some d => if decide (d = "") then "-" else d
  | None => "-"
  end.

End Terms.

(** ** Concrete answers and queries for the terms above *)

Module Inputs.
Import JsString.

(** An answer whose block has its tag in upper case, and one whose
    lines end with a carriage return and a line feed. *)
Definition upperTagAnswer : string :=
  "```SQL" +:+ LF +:+ "SELECT 1" +:+ LF +:+ "```".

Definition crlfAnswer : string :=
  "```sql" +:+ String "013"%char LF +:+ "SELECT 1" +:+
  String "013"%char LF +:+ "```".

(** A query with a single quote inside a double-quoted name, and one
    with two statements. *)
Definition quoteInName : string :=
  "SELECT " +:+ String "034"%char "a'b" +:+ String "034"%char ", 'c;d'".

Definition twoKeywords : string := "SELECT 1 WHERE drop = update".

(** The store before any call. *)
Definition freshStore : Stateful.Store :=
  {| Stateful.files := ∅; Stateful.overview := ""; Stateful.content := "";
     Stateful.relationships := ""; Stateful.summary := "" |}.

End Inputs.

Import Notions.

(** * Properties *)

(** ** Facts on the string primitives *)

Ltac each_char c := destruct c as [[] [] [] [] [] [] [] []].

Section StringFacts.
Import JsString.

Lemma append_nil_r (s : string) : s +:+ "" = s.
Proof. induction s as [|c s IH]; simpl; [reflexivity | by rewrite IH]. Qed.

Lemma append_assoc (a b c : string) : (a +:+ b) +:+ c = a +:+ (b +:+ c).
Proof. induction a as [|x a IH]; simpl; [reflexivity | by rewrite IH]. Qed.

Lemma append_length (a b : string) :
  String.length (a +:+ b) = String.length a + String.length b.
Proof. induction a as [|x a IH]; simpl; [reflexivity | by rewrite IH]. Qed.

Lemma ascii_eqb_true (a b : ascii) : Ascii.eqb a b = true -> a = b.
Proof. apply Ascii.eqb_eq. Qed.

Lemma stripPrefix_Some (p s rest : string) :
  stripPrefix p s = Some rest -> s = p +:+ rest.
Proof.
  revert s; induction p as [|a p IH]; intros [|b s] H; simpl in *;
    try congruence.
  destruct (Ascii.eqb a b) eqn:E; [|discriminate].
  apply ascii_eqb_true in E as ->. by rewrite (IH _ H).
Qed.

Lemma stripPrefix_append (p rest : string) :
  stripPrefix p (p +:+ rest) = Some rest.
Proof.
  induction p as [|a p IH]; simpl; [reflexivity|].
  by rewrite Ascii.eqb_refl.
Qed.

Lemma startsWith_true (s p : string) :
  startsWith s p = true -> exists rest, s = p +:+ rest.
Proof.
  unfold startsWith. destruct (stripPrefix p s) as [rest|] eqn:E;
    [|discriminate].
  intros _. exists rest. by apply stripPrefix_Some.
Qed.

Lemma includes_nil (p : string) : includes "" p = startsWith "" p.
Proof. unfold includes, startsWith. simpl. by destruct (stripPrefix p ""). Qed.

Lemma includes_cons (c : ascii) (r p : string) :
  includes (String c r) p = startsWith (String c r) p || includes r p.
Proof.
  unfold includes, startsWith. simpl splitOn.
  destruct (stripPrefix p (String c r)); [reflexivity|].
  by destruct (splitOn p r) as [[? ?]|].
Qed.

Lemma isMark_cases (a : ascii) :
  isMark a = true -> a = ";"%char \/ a = "-"%char \/ a = "/"%char \/ a = "*"%char.
Proof.
  unfold isMark. rewrite !orb_true_iff, !Ascii.eqb_eq. tauto.
Qed.

Lemma mark_not_space (a c : ascii) :
  isMark a = true -> isWhiteSpace c = true -> Ascii.eqb a c = false.
Proof.
  intros Ha Hc. apply isMark_cases in Ha as [->|[->|[->| ->]]];
    each_char c; try reflexivity; discriminate Hc.
Qed.

Lemma mark_upper (a c : ascii) :
  isMark a = true -> Ascii.eqb a (toUpperChar c) = Ascii.eqb a c.
Proof.
  intros Ha. apply isMark_cases in Ha as [->|[->|[->| ->]]];
    each_char c; reflexivity.
Qed.

Lemma startsWith_toUpperCase (p s : string) :
  allMarks p = true -> startsWith (toUpperCase s) p = startsWith s p.
Proof.
  unfold startsWith. revert s.
  induction p as [|a p IH]; intros [|c s] Hp; simpl in *; try reflexivity.
  apply andb_true_iff in Hp as [Ha Hp].
  rewrite (mark_upper _ _ Ha).
  destruct (Ascii.eqb a c); [by apply IH | reflexivity].
Qed.

Lemma includes_toUpperCase (p s : string) :
  allMarks p = true -> includes (toUpperCase s) p = includes s p.
Proof.
  intros Hp. induction s as [|c s IH].
  - reflexivity.
  - change (toUpperCase (String c s))
      with (String (toUpperChar c) (toUpperCase s)).
    rewrite !includes_cons, IH.
    by rewrite <- (startsWith_toUpperCase p (String c s) Hp).
Qed.

Lemma startsWith_space (a c : ascii) (p s : string) :
  isMark a = true -> isWhiteSpace c = true ->
  startsWith (String c s) (String a p) = false.
Proof.
  intros Ha Hc. unfold startsWith. simpl.
  by rewrite (mark_not_space _ _ Ha Hc).
Qed.

Lemma includes_trimStart (a : ascii) (p s : string) :
  isMark a = true ->
  includes (trimStart s) (String a p) = includes s (String a p).
Proof.
  intros Ha. induction s as [|c s IH]; [reflexivity|].
  simpl trimStart. destruct (isWhiteSpace c) eqn:Hc; [|reflexivity].
  by rewrite includes_cons, (startsWith_space _ _ _ _ Ha Hc).
Qed.

Lemma startsWith_trimEnd (p s : string) :
  allMarks p = true -> startsWith (trimEnd s) p = startsWith s p.
Proof.
  unfold startsWith. revert p.
  induction s as [|c s IH]; intros [|a p] Hp; try reflexivity.
  apply andb_true_iff in Hp as [Ha Hp]. simpl.
  destruct (isWhiteSpace c) eqn:Hc; simpl.
  - rewrite (mark_not_space _ _ Ha Hc).
    destruct (isEmpty (trimEnd s)); simpl; [reflexivity|].
    by rewrite (mark_not_space _ _ Ha Hc).
  - destruct (Ascii.eqb a c); [by apply IH | reflexivity].
Qed.

Lemma includes_trimEnd (a : ascii) (p s : string) :
  allMarks (String a p) = true ->
  includes (trimEnd s) (String a p) = includes s (String a p).
Proof.
  intros Hp. induction s as [|c s IH]; [reflexivity|].
  rewrite includes_cons, <- IH, <- (startsWith_trimEnd _ (String c s) Hp).
  simpl trimEnd.
  destruct (isWhiteSpace c && isEmpty (trimEnd s)) eqn:E.
  - apply andb_true_iff in E as [_ E].
    destruct (trimEnd s); [reflexivity | discriminate E].
  - by rewrite includes_cons.
Qed.

(** A marker that the text holds is still there after [trim] and
    [toUpperCase]. *)
Lemma includes_normalized (a : ascii) (p sql : string) :
  allMarks (String a p) = true ->
  includes (toUpperCase (trim sql)) (String a p) = includes sql (String a p).
Proof.
  intros Hp. rewrite (includes_toUpperCase _ _ Hp). unfold trim.
  rewrite (includes_trimEnd _ _ _ Hp). apply includes_trimStart.
  simpl in Hp. by apply andb_true_iff in Hp as [? _].
Qed.

End StringFacts.

Section ValidatorFacts.
Import JsString Validator.

Lemma lastChar_None (s : string) : lastChar s = None -> s = "".
Proof. destruct s as [|c r]; simpl; [done|]. by destruct (lastChar r). Qed.

Lemma lastChar_cons (c : ascii) (r : string) :
  r <> "" -> lastChar (String c r) = lastChar r.
Proof.
  intros Hr. simpl. destruct (lastChar r) eqn:E; [done|].
  by apply lastChar_None in E.
Qed.

Lemma upper_semicolon (c : ascii) :
  toUpperChar c = ";"%char -> c = ";"%char.
Proof. each_char c; vm_compute; congruence. Qed.

Lemma lastChar_toUpperCase (s : string) :
  lastChar (toUpperCase s) = toUpperChar <$> lastChar s.
Proof.
  induction s as [|c r IH]; simpl; [done|].
  rewrite IH. by destruct (lastChar r).
Qed.

Lemma hasChar_nonempty (q : ascii) (s : string) :
  hasChar q s = true -> s <> "".
Proof. by destruct s. Qed.

Lemma includes_lastChar (a : ascii) (s : string) :
  lastChar s = Some a -> includes s (String a "") = true.
Proof.
  induction s as [|c r IH]; [done|].
  rewrite includes_cons. simpl lastChar.
  destruct (lastChar r) as [d|] eqn:E.
  - intros [= ->]. rewrite IH by done. apply orb_true_r.
  - intros [= ->]. unfold startsWith. simpl. by rewrite Ascii.eqb_refl.
Qed.

(** A text that ends with a semicolon still ends with it after the
    quoted spans are removed: a span ends with its closing quote. *)
Lemma removeQuoted_lastChar (q : ascii) (s : string) (inside : bool) :
  q <> ";"%char ->
  lastChar s = Some ";"%char ->
  (inside = true -> hasChar q s = true) ->
  lastChar (removeQuoted q inside s) = Some ";"%char.
Proof.
  intros Hq. revert inside.
  induction s as [|c r IH]; intros inside Hlast Hin; [done|].
  destruct (decide (r = "")) as [->|Hr].
  - simpl in Hlast. injection Hlast as Hc.
    destruct inside.
    + specialize (Hin eq_refl). simpl in Hin.
      rewrite orb_false_r in Hin. apply Ascii.eqb_eq in Hin. congruence.
    + simpl. rewrite andb_false_r. simpl. by rewrite Hc.
  - rewrite (lastChar_cons _ _ Hr) in Hlast. simpl removeQuoted.
    destruct inside.
    + specialize (Hin eq_refl). simpl in Hin.
      destruct (Ascii.eqb c q); simpl in Hin.
      * apply IH; [done | discriminate].
      * apply IH; done.
    + destruct (Ascii.eqb c q && hasChar q r) eqn:E.
      * apply andb_true_iff in E as [_ E]. apply IH; done.
      * assert (Hrec : lastChar (removeQuoted q false r) = Some ";"%char)
          by (apply IH; [done | discriminate]).
        simpl. by rewrite Hrec.
Qed.

Lemma withoutStrings_lastChar (t : string) :
  lastChar t = Some ";"%char -> lastChar (withoutStrings t) = Some ";"%char.
Proof.
  intros H. unfold withoutStrings.
  apply removeQuoted_lastChar; [done | | discriminate].
  apply removeQuoted_lastChar; [done | done | discriminate].
Qed.

Lemma allSemicolons_lastChar (r : string) :
  allSemicolons r = true -> r = "" \/ lastChar r = Some ";"%char.
Proof.
  induction r as [|c r IH]; [by left|]. simpl.
  intros [Hc Hr]%andb_true_iff. apply Ascii.eqb_eq in Hc as ->. right.
  destruct (IH Hr) as [Hnil|Hlast]; [by rewrite Hnil | by rewrite Hlast].
Qed.

Lemma stripTrailingSemicolons_id (s : string) :
  lastChar s <> Some ";"%char -> stripTrailingSemicolons s = s.
Proof.
  induction s as [|c r IH]; [done|]. intros Hlast. simpl.
  destruct (Ascii.eqb c ";" && allSemicolons r) eqn:E.
  - exfalso. apply Hlast. apply andb_true_iff in E as [Hc Hr].
    apply Ascii.eqb_eq in Hc as ->.
    destruct (allSemicolons_lastChar _ Hr) as [->|H]; [done|].
    simpl. by rewrite H.
  - f_equal. apply IH. intros H. apply Hlast. simpl. by rewrite H.
Qed.

(** What an accepted query went through. *)
Lemma validateSqlQuery_valid (sql : string) :
  valid (validateSqlQuery sql) = true ->
  let trimmed := toUpperCase (trim sql) in
  (startsWith trimmed "SELECT" = true \/ startsWith trimmed "WITH" = true) /\
  firstForbidden dangerousKeywords trimmed = None /\
  includes (withoutStrings trimmed) ";" = false /\
  includes trimmed "--" = false /\ includes trimmed "/*" = false.
Proof.
  unfold validateSqlQuery. cbv zeta.
  set (trimmed := toUpperCase (trim sql)).
  destruct (startsWith trimmed "SELECT") eqn:E1;
    destruct (startsWith trimmed "WITH") eqn:E2; simpl negb; simpl andb;
    cbv iota;
    try (simpl; discriminate);
    (destruct (firstForbidden dangerousKeywords trimmed) eqn:E3;
       [simpl; discriminate|]);
    (destruct (includes (withoutStrings trimmed) ";") eqn:E4;
       [simpl; discriminate|]);
    (destruct (includes trimmed "--") eqn:E5; [simpl; discriminate|]);
    (destruct (includes trimmed "/*") eqn:E6; [simpl; discriminate|]);
    intros _; repeat split; auto.
Qed.

(** The outcome of a query that passes the first rule. *)
Lemma validateSqlQuery_select (sql : string) :
  let trimmed := toUpperCase (trim sql) in
  startsWith trimmed "SELECT" = true \/ startsWith trimmed "WITH" = true ->
  validateSqlQuery sql =
    match firstForbidden dangerousKeywords trimmed with
    | Some keyword => invalid (forbiddenKeywordMessage keyword)
    | None =>
        if includes (withoutStrings trimmed) ";"
        then invalid multipleStatementsMessage
        else if includes trimmed "--" || includes trimmed "/*"
        then invalid commentsMessage
        else {| valid := true; error := None |}
    end.
Proof.
  cbv zeta. intros H. unfold validateSqlQuery. cbv zeta.
  by destruct H as [-> | ->]; rewrite ?andb_false_r.
Qed.

Lemma firstForbidden_Some (keywords : list string) (t keyword : string) :
  firstForbidden keywords t = Some keyword ->
  In keyword keywords /\ testWord keyword t = true.
Proof.
  induction keywords as [|k rest IH]; simpl; [done|].
  destruct (testWord k t) eqn:E.
  - intros [= <-]. auto.
  - intros H. destruct (IH H). auto.
Qed.

Lemma firstForbidden_None (keywords : list string) (t keyword : string) :
  firstForbidden keywords t = None ->
  In keyword keywords -> testWord keyword t = false.
Proof.
  induction keywords as [|k rest IH]; simpl; [done|].
  destruct (testWord k t) eqn:E; [done|].
  intros H [<-|Hin]; auto.
Qed.

(** No text starts both with a dangerous keyword and with [SELECT] or
    [WITH]. *)
Lemma dangerous_prefix (t keyword : string) :
  In keyword dangerousKeywords ->
  startsWith t keyword = true ->
  startsWith t "SELECT" = false /\ startsWith t "WITH" = false.
Proof.
  intros Hin Hk. apply startsWith_true in Hk as [rest ->].
  unfold dangerousKeywords in Hin. simpl in Hin.
  repeat (destruct Hin as [<-|Hin]; [split; reflexivity|]).
  destruct Hin.
Qed.

End ValidatorFacts.

(** ** The SQL validator *)

Section ValidatorClaims.
Import JsString Validator.

Lemma startsWith_includes (s p : string) :
  startsWith s p = true -> includes s p = true.
Proof.
  unfold startsWith, includes.
  destruct s; simpl; by destruct (stripPrefix p _).
Qed.

Lemma includes_append (a p b : string) : includes (a +:+ p +:+ b) p = true.
Proof.
  induction a as [|c a IH]; simpl.
  - apply startsWith_includes. unfold startsWith.
    by rewrite stripPrefix_append.
  - rewrite includes_cons, IH. apply orb_true_r.
Qed.

Lemma forbiddenKeywordMessage_names (keyword : string) :
  reasonNames (invalid (forbiddenKeywordMessage keyword)) keyword.
Proof.
  eexists; split; [reflexivity|]. apply includes_append.
Qed.

(** C1, as the spec states it, fails on its own example: the reason
    given for [DROP TABLE users;] does not name DROP. *)
Lemma mutating_keyword_not_named :
  In "DROP" dangerousKeywords /\
  startsWith (normalize "DROP TABLE users;") "DROP" = true /\
  valid (validateSqlQuery "DROP TABLE users;") = false /\
  ~ reasonNames (validateSqlQuery "DROP TABLE users;") "DROP".
Proof.
  repeat split; [simpl; tauto|].
  intros [reason [H1 H2]]. injection H1 as <-. discriminate H2.
Qed.




(** C10: an accepted query does not end, once trimmed, with a
    semicolon, so the removal of the trailing semicolons before the
    execution leaves it as it is; [SELECT 1;] is rejected by the
    statement rule. *)
Theorem accepted_query_has_no_trailing_semicolon :
  (forall sql : string,
     valid (validateSqlQuery sql) = true ->
     lastChar (trim sql) <> Some ";"%char /\
     Route.cleanSql sql = trim sql) /\
  validateSqlQuery "SELECT 1;" = invalid multipleStatementsMessage.
Proof.
  split; [|reflexivity].
  intros sql Hvalid.
  assert (Hlast : lastChar (trim sql) <> Some ";"%char).
  { intros Hlast.
    destruct (validateSqlQuery_valid sql Hvalid) as (_ & _ & H & _).
    rewrite includes_lastChar in H; [discriminate|].
    apply withoutStrings_lastChar.
    by rewrite lastChar_toUpperCase, Hlast. }
  split; [exact Hlast|].
  unfold Route.cleanSql. by apply stripTrailingSemicolons_id.
Qed.

Lemma accepted_query_has_no_trailing_semicolon_witness :
  lastChar (trim "SELECT id FROM users") <> Some ";"%char /\
  Route.cleanSql "SELECT id FROM users" = trim "SELECT id FROM users".
Proof.
  apply (proj1 accepted_query_has_no_trailing_semicolon).
  reflexivity.
Defined.

End ValidatorClaims.

(** ** The answer parser *)

Section ParserClaims.
Import JsString Agent.

Lemma splitOn_unfold (p s : string) :
  splitOn p s =
    match stripPrefix p s with
    | Some rest => Some ("", rest)
    | None =>
        match s with
        | "" => None
        | String c r =>
            match splitOn p r with
            | Some (b, a) => Some (String c b, a)
            | None => None
            end
        end
    end.
Proof. by destruct s. Qed.

Lemma FirstOccurrence_tail (p : string) (c : ascii) (r b a : string) :
  FirstOccurrence p (String c r) (String c b) a -> FirstOccurrence p r b a.
Proof.
  intros [Heq Hmin]. split.
  - simpl in Heq. congruence.
  - intros b' a' Hr. specialize (Hmin (String c b') a').
    simpl in Hmin. rewrite <- Hr in Hmin. specialize (Hmin eq_refl). lia.
Qed.

Lemma FirstOccurrence_no_prefix (p : string) (c : ascii) (s b a : string) :
  FirstOccurrence p s (String c b) a -> stripPrefix p s = None.
Proof.
  intros [_ Hmin]. destruct (stripPrefix p s) as [rest|] eqn:E; [|done].
  apply stripPrefix_Some in E. specialize (Hmin "" rest E).
  simpl in Hmin. lia.
Qed.

Lemma splitOn_first (p s b a : string) :
  splitOn p s = Some (b, a) -> FirstOccurrence p s b a.
Proof.
  revert b a. induction s as [|c r IH]; intros b a; rewrite splitOn_unfold.
  - destruct (stripPrefix p "") as [rest|] eqn:E; [|done].
    intros [= <- <-]. split; [simpl; by apply stripPrefix_Some | intros; simpl; lia].
  - destruct (stripPrefix p (String c r)) as [rest|] eqn:E.
    + intros [= <- <-]. split; [simpl; by apply stripPrefix_Some | intros; simpl; lia].
    + destruct (splitOn p r) as [[b' a']|] eqn:Er; [|done].
      intros [= <- <-]. destruct (IH _ _ eq_refl) as [Heq Hmin].
      split; [simpl; by rewrite <- Heq|].
      intros [|c2 b2] a2 H2.
      * simpl in H2. rewrite H2, stripPrefix_append in E. discriminate.
      * simpl in H2. injection H2 as -> H2.
        specialize (Hmin _ _ H2). simpl. lia.
Qed.

Lemma first_splitOn (p s b a : string) :
  FirstOccurrence p s b a -> splitOn p s = Some (b, a).
Proof.
  revert s. induction b as [|c b IH]; intros s H.
  - destruct H as [-> _]. rewrite splitOn_unfold. simpl.
    by rewrite stripPrefix_append.
  - rewrite splitOn_unfold, (FirstOccurrence_no_prefix _ _ _ _ _ H).
    destruct H as [Heq Hmin]. simpl in Heq. subst s.
    rewrite (IH (b +:+ p +:+ a)); [done|].
    apply (FirstOccurrence_tail p c). by split.
Qed.

Lemma occurrence_splitOn (p b a : string) :
  exists b' a', splitOn p (b +:+ p +:+ a) = Some (b', a').
Proof.
  induction b as [|c b [b' [a' IH]]]; rewrite splitOn_unfold.
  - simpl. rewrite stripPrefix_append. eauto.
  - destruct (stripPrefix p _); [eauto|]. simpl. rewrite IH. eauto.
Qed.

Lemma append_split (x y u v : string) :
  x +:+ y = u +:+ v -> String.length x <= String.length u ->
  exists w, u = x +:+ w /\ y = w +:+ v.
Proof.
  revert u. induction x as [|c x IH]; intros u H Hlen.
  - exists u. by simpl in *.
  - destruct u as [|d u]; simpl in *; [lia|].
    injection H as -> H. destruct (IH u H) as [w [-> ->]]; [lia|].
    by exists w.
Qed.

Lemma matchSqlBlock_first (answer body : string) :
  FirstSqlBlock answer body -> matchSqlBlock answer = Some body.
Proof.
  intros (before & rest & after & Hopen & Hclose).
  apply first_splitOn in Hclose.
  revert answer Hopen. induction before as [|c b IH]; intros answer Hopen.
  - destruct Hopen as [-> _]. simpl. by rewrite Hclose.
  - pose proof (FirstOccurrence_no_prefix _ _ _ _ _ Hopen) as Hno.
    destruct Hopen as [Heq Hmin]. simpl in Heq. subst answer.
    cbn [matchSqlBlock]. rewrite Hno. apply IH.
    apply (FirstOccurrence_tail sqlFence c). by split.
Qed.

Lemma matchSqlBlock_block (answer body : string) :
  matchSqlBlock answer = Some body -> HasSqlBlock answer.
Proof.
  induction answer as [|c r IH]; [done|]. cbn [matchSqlBlock].
  assert (Hrec : matchSqlBlock r = Some body -> HasSqlBlock (String c r)).
  { intros H. destruct (IH H) as (b & bd & a & ->).
    by exists (String c b), bd, a. }
  destruct (stripPrefix sqlFence (String c r)) as [rest|] eqn:E; [|done].
  destruct (splitOn fence rest) as [[bd a]|] eqn:Es; [|done].
  intros _. apply stripPrefix_Some in E.
  apply splitOn_first in Es as [-> _]. by exists "", bd, a.
Qed.

Lemma block_first (answer : string) :
  HasSqlBlock answer -> exists body, FirstSqlBlock answer body.
Proof.
  intros (b & bd & a & ->).
  destruct (occurrence_splitOn sqlFence b (bd +:+ fence +:+ a))
    as (b0 & rest & Hsplit).
  apply splitOn_first in Hsplit as Hopen.
  destruct Hopen as [Heq Hmin].
  pose proof (Hmin _ _ eq_refl) as Hlen.
  assert (Hrest : exists w, rest = w +:+ fence +:+ a).
  { destruct (append_split (b0 +:+ sqlFence) rest
                (b +:+ sqlFence +:+ bd) (fence +:+ a)) as [w [_ Hw]].
    - rewrite !append_assoc. by rewrite <- Heq.
    - rewrite !append_length. lia.
    - by exists w. }
  destruct Hrest as [w ->].
  destruct (occurrence_splitOn fence w a) as (body & after & Hclose).
  exists body, b0, (w +:+ fence +:+ a), after. split.
  - by split.
  - by apply splitOn_first.
Qed.

End ParserClaims.

(** ** The agent loop and the step log *)

Section AgentClaims.
Import JsString Agent.

Lemma runSteps_length (provider : Provider) (budget : nat)
    (made result : list StepResult) :
  runSteps provider budget made = inr result ->
  length result <= length made + budget.
Proof.
  revert made. induction budget as [|budget IH]; intros made; simpl.
  - intros [= <-]. lia.
  - destruct (provider made) as [e|step]; [done|].
    destruct (asksForTools step).
    + intros H. apply IH in H. rewrite length_app in H. simpl in H. lia.
    + intros [= <-]. rewrite length_app. simpl. lia.
Qed.

Lemma logToolCall_length (steps : list string) (tc : ToolCall) :
  length (logToolCall steps tc)
  = length steps + (if isNamed tc then 1 else 0).
Proof.
  unfold logToolCall, isNamed.
  destruct (bool_decide (toolName tc = Some "bash")) eqn:Eb.
  - apply bool_decide_eq_true in Eb. rewrite Eb. simpl.
    destruct (truthyOpt (argOf command tc)); rewrite length_app; done.
  - destruct (bool_decide (toolName tc = Some "readFile")) eqn:Er.
    + apply bool_decide_eq_true in Er. rewrite Er. simpl.
      destruct (truthyOpt (argOf path tc)); rewrite length_app; done.
    + simpl. destruct (truthyOpt (toolName tc)); simpl; [|lia].
      by rewrite length_app.
Qed.

Lemma logCalls_length (calls : list ToolCall) (steps : list string) :
  length (fold_left logToolCall calls steps)
  = length steps + countNamed calls.
Proof.
  revert steps. induction calls as [|tc calls IH]; intros steps; simpl.
  - lia.
  - rewrite IH, logToolCall_length. lia.
Qed.

Lemma logStep_length (steps : list string) (step : StepResult) :
  length (logStep steps step) = length steps + countNamed (callsOf step).
Proof.
  unfold logStep, callsOf. destruct (toolCalls step) as [calls|]; simpl.
  - apply logCalls_length.
  - lia.
Qed.

Lemma logSteps_length (made : list StepResult) (steps : list string) :
  length (fold_left logStep made steps) = length steps + countLogged made.
Proof.
  revert steps. induction made as [|step made IH]; intros steps; simpl.
  - lia.
  - rewrite IH, logStep_length. lia.
Qed.

Lemma countNamed_le (calls : list ToolCall) :
  countNamed calls <= length calls.
Proof.
  induction calls as [|tc calls IH]; simpl; [lia|].
  destruct (isNamed tc); lia.
Qed.

Lemma countLogged_le (made : list StepResult) (k : nat) :
  (forall step, In step made -> length (callsOf step) <= k) ->
  countLogged made <= length made * k.
Proof.
  induction made as [|step made IH]; intros H; simpl; [lia|].
  pose proof (H step (or_introl eq_refl)).
  pose proof (countNamed_le (callsOf step)).
  assert (countLogged made <= length made * k)
    by (apply IH; intros s Hs; apply H; by right).
  lia.
Qed.

(** C6, as the code has it: the loop makes at most [stepBudget] (10)
    steps, and the step log holds one entry for every named tool call
    of these steps. It has at most 10 entries when no step asks for
    more than one tool call, and at most 10 times [k] entries when no
    step asks for more than [k]. *)
Theorem step_log_bounded_by_calls (provider : Provider)
    (result : GenerateTextResult) :
  generateText provider = inr result ->
  exists made,
    steps result = Some made /\
    length made <= stepBudget /\
    length (extractSteps result) = countLogged made /\
    forall k,
      (forall step, In step made -> length (callsOf step) <= k) ->
      length (extractSteps result) <= stepBudget * k.
Proof.
  unfold generateText.
  destruct (runSteps provider stepBudget []) as [e|made] eqn:E;
    [done|].
  intros [= <-]. exists made. apply runSteps_length in E. simpl in E.
  assert (Hlog : length (extractSteps
                   {| text := lastText made; steps := Some made |})
                 = countLogged made).
  { unfold extractSteps. simpl. by rewrite logSteps_length. }
  repeat split; [done | done |].
  intros k Hk. rewrite Hlog.
  pose proof (countLogged_le made k Hk).
  assert (length made * k <= stepBudget * k)
    by (apply Nat.mul_le_mono_r; exact E).
  lia.
Qed.

End AgentClaims.

Section AgentExamples.
Import JsString Agent Examples.

Lemma step_log_bounded_by_calls_witness :
  exists made,
    steps {| text := ""; steps := Some (repeat (restlessStep) 10) |}
      = Some made /\
    length made <= stepBudget /\
    length (extractSteps
              {| text := ""; steps := Some (repeat (restlessStep) 10) |})
      = countLogged made /\
    forall k,
      (forall step, In step made -> length (callsOf step) <= k) ->
      length (extractSteps
                {| text := ""; steps := Some (repeat (restlessStep) 10) |})
        <= stepBudget * k.
Proof.
  apply (step_log_bounded_by_calls restless). reflexivity.
Defined.

(** C6, as the spec states it, fails: a provider that asks for eleven
    tool calls in one step gets eleven entries in the step log, with
    two steps made. *)
Lemma step_log_exceeds_budget :
  exists result made,
    generateText eager = inr result /\
    steps result = Some made /\
    length made = 2 /\
    length (extractSteps result) = 11 /\
    ~ length (extractSteps result) <= stepBudget.
Proof.
  eexists; eexists. split; [reflexivity|].
  split; [reflexivity|]. split; [reflexivity|]. split; [reflexivity|].
  vm_compute. lia.
Qed.

End AgentExamples.

(** ** The query endpoint *)

Section RouteClaims.
Import JsString Validator Schema Agent Route Examples.


Lemma append_inj_length (a b c d : string) :
  String.length a = String.length b ->
  a +:+ c = b +:+ d -> a = b /\ c = d.
Proof.
  revert b. induction a as [|x a IH]; intros [|y b] Hlen H;
    simpl in *; try lia; [done|].
  injection H as -> H. destruct (IH b) as [-> ->]; [lia | done | done].
Qed.

Lemma append_inj_r (a b c : string) : a +:+ c = b +:+ c -> a = b.
Proof.
  intros H. apply (f_equal String.length) in H as Hlen.
  rewrite !append_length in Hlen.
  apply append_inj_length in H as [H _]; [done | lia].
Qed.

Lemma rpcNote_inj (m1 m2 : string) : rpcNote m1 = rpcNote m2 -> m1 = m2.
Proof.
  unfold rpcNote. intros H. apply String.app_inj in H.
  by apply append_inj_r in H.
Qed.

(** The handler up to the return of the agent. *)
Lemma POST_after_agent (env : Env) (body : Body) (creds : Credentials)
    (sch : SchemaInfo) (result : AgentResponse) :
  credentials body = Some creds ->
  schema body = Some sch ->
  truthy (question body) = true ->
  createLLMClient creds = inr tt ->
  Agent.query (conversation env creds sch (question body)) = inr result ->
  POST env body =
    (agentTrace (question body) ++ fst (respond env creds result),
     snd (respond env creds result)).
Proof.
  intros Hc Hs Hq Hl Ha. unfold POST, createQueryAgent.
  rewrite Hc, Hs, Hq, Hl. simpl. unfold conversation in Ha. rewrite Ha.
  by destruct (respond env creds result).
Qed.



(** C2, as the code has it: when the database runs the query and
    reports an error, the endpoint answers with [success = true],
    [data = null] and a note that holds the message of the database.
    The answer when the call throws has the same form, with the message
    that the RPC is not available; the two answers differ only by the
    message in the note. *)
Theorem database_error_reported_in_note (env : Env) (body : Body)
    (creds : Credentials) (sch : SchemaInfo) (result : AgentResponse) :
  credentials body = Some creds ->
  schema body = Some sch ->
  truthy (question body) = true ->
  createLLMClient creds = inr tt ->
  Agent.query (conversation env creds sch (question body)) = inr result ->
  isEmpty (trim (Agent.sql result)) = false ->
  valid (validateSqlQuery (Agent.sql result)) = true ->
  createSupabaseClient env (supabaseUrl creds) (supabaseAnonKey creds)
    = inr tt ->
  (forall data message,
     rpc env (cleanSql (Agent.sql result))
       = RpcReturned data (Some message) ->
     snd (POST env body) = softSuccess result message /\
     includes (rpcNote message) message = true) /\
  (rpc env (cleanSql (Agent.sql result)) = RpcThrew ->
   snd (POST env body) = softSuccess result "RPC not available") /\
  (forall m1 m2,
     softSuccess result m1 = softSuccess result m2 <-> m1 = m2).
Proof.
  intros Hc Hs Hq Hl Ha Hne Hv Hdb.
  rewrite (POST_after_agent env body creds sch _ Hc Hs Hq Hl Ha).
  assert (Ht : truthy (Agent.sql result) = true).
  { destruct (Agent.sql result); [discriminate Hne | reflexivity]. }
  unfold respond. cbv zeta. rewrite Ht, Hne, Hv, Hdb. simpl.
  split; [|split].
  - intros d message ->. simpl. split; [reflexivity|].
    apply includes_append.
  - intros ->. reflexivity.
  - intros m1 m2. split; [|by intros ->].
    intros H. apply rpcNote_inj. apply (f_equal note) in H.
    unfold softSuccess in H. cbn [note] in H. congruence.
Qed.

Lemma database_error_reported_in_note_witness :
  snd (POST (failingDatabase sqlAnswer "permission denied") someBody)
    = softSuccess (parseResult (answered sqlAnswer)) "permission denied".
Proof.
  refine (proj1 (proj1 (database_error_reported_in_note
            (failingDatabase sqlAnswer "permission denied")
            someBody someCredentials someSchema _
            eq_refl eq_refl eq_refl eq_refl eq_refl eq_refl eq_refl eq_refl)
            DataNull "permission denied" eq_refl)).
Defined.

(** C2, as the spec states it, fails: the answer to an error of the
    database and the answer to a call that throws are the same when the
    database reports the message that the handler uses for a call that
    throws; both are given with [success = true]. *)
Lemma database_error_conflated_with_unavailable :
  POST (failingDatabase sqlAnswer "RPC not available") someBody
  = POST (missingDatabase sqlAnswer) someBody /\
  success (snd (POST (failingDatabase sqlAnswer "RPC not available")
                  someBody)) = Some true /\
  In (CalledRpc "SELECT 1")
     (fst (POST (failingDatabase sqlAnswer "RPC not available") someBody)).
Proof. repeat split. simpl. tauto. Qed.

End RouteClaims.

(** ** The schema materializer *)

Section SchemaClaims.
Import JsString Schema Examples.

Lemma filter_none {A : Type} (P : A -> Prop) `{forall x, Decision (P x)}
    (l : list A) :
  (forall x, In x l -> ~ P x) -> filter P l = [].
Proof.
  induction l as [|x l IH]; intros Hno; [reflexivity|].
  rewrite filter_cons_False by (apply Hno; by left).
  apply IH. intros y Hy. apply Hno. by right.
Qed.

Lemma tablePath_inj (n1 n2 : string) : tablePath n1 = tablePath n2 -> n1 = n2.
Proof.
  unfold tablePath. intros H. apply String.app_inj in H.
  by apply append_inj_r in H.
Qed.

Lemma tablePath_fresh (name : string) :
  tablePath name <> overviewPath /\
  tablePath name <> relationshipsPath /\
  tablePath name <> summaryPath.
Proof. repeat split; discriminate. Qed.

Lemma insertTables_snoc (schema : SchemaInfo) (l : list TableInfo.t)
    (table : TableInfo.t) (files : gmap string string) :
  insertTables schema (l ++ [table]) files
  = <[tablePath (TableInfo.table_name table) := tableContent schema table]>
      (insertTables schema l files).
Proof. unfold insertTables. by rewrite fold_left_app. Qed.

(** A path that is not the path of a table is left as it was. *)
Lemma insertTables_other (schema : SchemaInfo) (l : list TableInfo.t)
    (files : gmap string string) (path : string) :
  (forall name, path <> tablePath name) ->
  insertTables schema l files !! path = files !! path.
Proof.
  intros Hpath. induction l as [|table l IH] using rev_ind; [reflexivity|].
  rewrite insertTables_snoc, lookup_insert_ne; [exact IH|].
  intros Heq. by apply (Hpath (TableInfo.table_name table)).
Qed.

(** The path of a table of the list holds the document of the last
    table of the list that has this name. *)
Lemma insertTables_lookup (schema : SchemaInfo) (l : list TableInfo.t)
    (files : gmap string string) (table : TableInfo.t) :
  In table l ->
  exists owner,
    In owner l /\
    TableInfo.table_name owner = TableInfo.table_name table /\
    insertTables schema l files !! tablePath (TableInfo.table_name table)
      = Some (tableContent schema owner).
Proof.
  induction l as [|last l IH] using rev_ind; [done|].
  intros Hin. rewrite insertTables_snoc.
  destruct (decide (TableInfo.table_name last = TableInfo.table_name table))
    as [Hname|Hname].
  - exists last. split; [apply in_or_app; right; by left|].
    split; [done|]. rewrite Hname. apply lookup_insert_eq.
  - apply in_app_or in Hin as [Hin|[->|[]]]; [|done].
    destruct (IH Hin) as (owner & Ho & Hn & Hl).
    exists owner. split; [apply in_or_app; by left|]. split; [done|].
    rewrite lookup_insert_ne; [done|].
    intros Heq. by apply tablePath_inj in Heq.
Qed.

Lemma schemaToFiles_table (schema : SchemaInfo) (name : string) :
  schemaToFiles schema !! tablePath name
  = insertTables schema (tables schema)
      (<[overviewPath := overviewText schema]> ∅) !! tablePath name.
Proof.
  destruct (tablePath_fresh name) as (_ & Hr & Hs).
  unfold schemaToFiles. rewrite lookup_insert_ne by done.
  destruct (foreignKeys schema); [done|].
  by rewrite lookup_insert_ne.
Qed.

Lemma schemaToFiles_overview (schema : SchemaInfo) :
  schemaToFiles schema !! overviewPath = Some (overviewText schema).
Proof.
  unfold schemaToFiles. rewrite lookup_insert_ne by done.
  assert (Hfold : insertTables schema (tables schema)
                    (<[overviewPath := overviewText schema]> ∅)
                  !! overviewPath = Some (overviewText schema)).
  { rewrite insertTables_other; [apply lookup_insert_eq|].
    intros name H. by destruct (tablePath_fresh name) as (Ho & _). }
  destruct (foreignKeys schema); [exact Hfold|].
  by rewrite lookup_insert_ne.
Qed.

Lemma appendLines_prefix {A : Type} (line : A -> string) (l : list A)
    (init : string) :
  fold_left (fun text x => text +:+ line x) l init
  = init +:+ fold_left (fun text x => text +:+ line x) l "".
Proof.
  revert init. induction l as [|x l IH]; intros init; simpl.
  - by rewrite append_nil_r.
  - rewrite (IH (init +:+ line x)), (IH (line x)).
    by rewrite append_assoc.
Qed.

Lemma appendLines_holds {A : Type} (line : A -> string) (l : list A)
    (init : string) (x : A) :
  In x l ->
  exists before after,
    fold_left (fun text x => text +:+ line x) l init
    = before +:+ line x +:+ after.
Proof.
  revert init. induction l as [|y l IH]; intros init; [done|].
  intros [->|Hin]; simpl.
  - rewrite appendLines_prefix, append_assoc. eauto.
  - by apply IH.
Qed.

Lemma tableContent_no_columns (schema : SchemaInfo) (table : TableInfo.t) :
  columnsOf schema table = [] ->
  tableContent schema table = emptyTableDocument schema table.
Proof. unfold tableContent. by intros ->. Qed.

End SchemaClaims.


(** ** Evaluations *)

Section Evaluations.
Import JsString Validator Schema Agent Route Examples.

Example validate_plain_select :
  validateSqlQuery "SELECT id, name FROM users LIMIT 10"
  = {| valid := true; Validator.error := None |}.
Proof. reflexivity. Qed.

Example validate_lower_case_cte :
  validateSqlQuery "  with t as (select 1) select * from t  "
  = {| valid := true; Validator.error := None |}.
Proof. reflexivity. Qed.

Example validate_keyword_inside_identifier :
  validateSqlQuery "select offset, dataset_id from t"
  = {| valid := true; Validator.error := None |}.
Proof. reflexivity. Qed.

Example validate_keyword_inside_literal :
  validateSqlQuery "SELECT * FROM t WHERE kind = 'set'"
  = invalid (forbiddenKeywordMessage "SET").
Proof. reflexivity. Qed.

Example validate_first_keyword_of_the_list :
  validateSqlQuery "SELECT 1 WHERE drop = update"
  = invalid (forbiddenKeywordMessage "UPDATE").
Proof. reflexivity. Qed.

Example validate_comment_inside_literal :
  validateSqlQuery "SELECT '--'" = invalid commentsMessage.
Proof. reflexivity. Qed.

Example withoutStrings_unclosed_quote :
  withoutStrings "A 'B;C' D 'E;" = "A  D 'E;".
Proof. reflexivity. Qed.

Example cleanSql_trailing_semicolons :
  cleanSql (" SELECT 1;b;; " +:+ LF) = "SELECT 1;b".
Proof. reflexivity. Qed.

Example extractSql_answer : extractSql sqlAnswer = "SELECT 1".
Proof. reflexivity. Qed.

Example extractSql_upper_case_tag :
  extractSql ("```SQL" +:+ LF +:+ "SELECT 1" +:+ LF +:+ "```") = "".
Proof. reflexivity. Qed.

Example extractSql_unclosed_block :
  extractSql ("```sql" +:+ LF +:+ "SELECT 1") = "".
Proof. reflexivity. Qed.

Example extractExplanation_answer :
  extractExplanation sqlAnswer = "one row".
Proof. reflexivity. Qed.

Example extractExplanation_without_marker :
  extractExplanation ("  see below ```sql" +:+ LF +:+ "x```") = "see below".
Proof. reflexivity. Qed.

Example extractSteps_kinds :
  extractSteps
    {| text := "";
       Agent.steps :=
         Some [ {| stepText := "";
                   toolCalls :=
                     Some [ bash "ls schema/";
                            {| toolName := Some "readFile";
                               args := Some {| command := None;
                                               path := Some "schema/summary.md" |} |};
                            {| toolName := Some "bash"; args := None |};
                            {| toolName := None; args := None |} ] |};
                {| stepText := "done"; toolCalls := None |} ] |}
  = ["$ ls schema/"; "$ cat schema/summary.md"; "[bash] executed"].
Proof. reflexivity. Qed.

Example generateText_stops_at_the_budget :
  generateText restless
  = inr {| text := ""; Agent.steps := Some (repeat restlessStep 10) |}.
Proof. reflexivity. Qed.

Example schemaToFiles_summary :
  schemaToFiles someSchema !! "schema/summary.md"
  = Some ("# Quick Reference" +:+ LF +:+ LF +:+
          "## All Tables and Columns" +:+ LF +:+ LF +:+
          "### orders" +:+ LF +:+
          "- id (int)" +:+ LF +:+ "- total (numeric)" +:+ LF +:+ LF +:+
          "### audit" +:+ LF +:+ LF +:+ LF).
Proof. reflexivity. Qed.

Example schemaToFiles_no_relationships :
  schemaToFiles someSchema !! "schema/relationships.md" = None.
Proof. reflexivity. Qed.

Example POST_missing_question :
  POST (missingDatabase sqlAnswer)
    {| question := ""; credentials := Some someCredentials;
       schema := Some someSchema |}
  = ([], missingFields).
Proof. reflexivity. Qed.

Example POST_success :
  snd (POST {| model := answering sqlAnswer;
               createSupabaseClient := fun _ _ => inr tt;
               rpc := fun _ => RpcReturned (DataRows [[("?column?", "1")]]) None |}
         someBody)
  = {| status := 200; success := Some true; error := None;
       explanation := Some "one row"; sql := Some "SELECT 1";
       steps := Some []; data := Some (DataRows [[("?column?", "1")]]);
       note := None |}.
Proof. reflexivity. Qed.

End Evaluations.

(** * Further properties *)

(** ** White space, letter case and the validator *)

Section TrimFacts.
Import JsString Validator Specs.

Lemma space_upper (c : ascii) : isWhiteSpace (toUpperChar c) = isWhiteSpace c.
Proof. each_char c; reflexivity. Qed.

Lemma upper_upper (c : ascii) : toUpperChar (toUpperChar c) = toUpperChar c.
Proof. each_char c; reflexivity. Qed.

Lemma word_upper (c : ascii) : isWordChar (toUpperChar c) = isWordChar c.
Proof. each_char c; reflexivity. Qed.

Lemma word_not_space (c : ascii) :
  isWordChar c = true -> isWhiteSpace c = false.
Proof. each_char c; vm_compute; congruence. Qed.

Lemma toUpperCase_idem (s : string) :
  toUpperCase (toUpperCase s) = toUpperCase s.
Proof.
  induction s as [|c r IH]; simpl; [done|]. by rewrite upper_upper, IH.
Qed.

Lemma toUpperCase_app (a b : string) :
  toUpperCase (a +:+ b) = toUpperCase a +:+ toUpperCase b.
Proof. induction a as [|c a IH]; simpl; [done|]. by rewrite IH. Qed.

Lemma isEmpty_toUpperCase (s : string) : isEmpty (toUpperCase s) = isEmpty s.
Proof. by destruct s. Qed.

Lemma trimStart_toUpperCase (s : string) :
  trimStart (toUpperCase s) = toUpperCase (trimStart s).
Proof.
  induction s as [|c r IH]; simpl; [done|].
  rewrite space_upper. by destruct (isWhiteSpace c).
Qed.

Lemma trimEnd_toUpperCase (s : string) :
  trimEnd (toUpperCase s) = toUpperCase (trimEnd s).
Proof.
  induction s as [|c r IH]; simpl; [done|].
  rewrite space_upper, IH, isEmpty_toUpperCase.
  by destruct (isWhiteSpace c && isEmpty (trimEnd r)).
Qed.

Lemma trim_toUpperCase (s : string) :
  trim (toUpperCase s) = toUpperCase (trim s).
Proof. unfold trim. by rewrite trimStart_toUpperCase, trimEnd_toUpperCase. Qed.

(** A text that does not start with white space is left by [trimStart]. *)
Lemma trimStart_fixed (s : string) :
  isWhiteSpace (default "a"%char (head s)) = false -> trimStart s = s.
Proof. destruct s as [|c r]; simpl; [done|]. by intros ->. Qed.

Lemma trimStart_head (s : string) :
  isWhiteSpace (default "a"%char (head (trimStart s))) = false.
Proof.
  induction s as [|c r IH]; simpl; [done|].
  destruct (isWhiteSpace c) eqn:E; [exact IH | simpl; exact E].
Qed.

Lemma trimEnd_head (s : string) :
  isWhiteSpace (default "a"%char (head s)) = false ->
  isWhiteSpace (default "a"%char (head (trimEnd s))) = false.
Proof.
  destruct s as [|c r]; simpl; [done|]. intros E. rewrite E. simpl. exact E.
Qed.

Lemma trimEnd_idem (s : string) : trimEnd (trimEnd s) = trimEnd s.
Proof.
  induction s as [|c r IH]; simpl; [done|].
  destruct (isWhiteSpace c && isEmpty (trimEnd r)) eqn:E; [done|].
  simpl. by rewrite IH, E.
Qed.

Lemma trim_idem (s : string) : trim (trim s) = trim s.
Proof.
  unfold trim.
  rewrite (trimStart_fixed (trimEnd (trimStart s))).
  - apply trimEnd_idem.
  - apply trimEnd_head, trimStart_head.
Qed.

Lemma normalize_toUpperCase (sql : string) :
  normalize (toUpperCase sql) = normalize sql.
Proof. unfold normalize. by rewrite trim_toUpperCase, toUpperCase_idem. Qed.

Lemma normalize_trim (sql : string) : normalize (trim sql) = normalize sql.
Proof. unfold normalize. by rewrite trim_idem. Qed.

(** The validator looks at its argument through [normalize] only. *)
Lemma validateSqlQuery_normalize (a b : string) :
  normalize a = normalize b -> validateSqlQuery a = validateSqlQuery b.
Proof.
  unfold normalize. intros H. unfold validateSqlQuery. by rewrite H.
Qed.

Lemma lastChar_app (a b : string) :
  lastChar (a +:+ b)
  = match lastChar b with Some c => Some c | None => lastChar a end.
Proof.
  induction a as [|c a IH]; simpl.
  - by destruct (lastChar b).
  - rewrite IH. by destruct (lastChar b), (lastChar a).
Qed.

Lemma allWhiteSpace_trimStart (w : string) :
  allWhiteSpace w = true -> trimStart w = "".
Proof.
  induction w as [|c w IH]; simpl; [done|].
  intros [-> H]%andb_true_iff. by apply IH.
Qed.

Lemma allWhiteSpace_trimEnd (w : string) :
  allWhiteSpace w = true -> trimEnd w = "".
Proof.
  induction w as [|c w IH]; simpl; [done|].
  intros [-> H]%andb_true_iff. by rewrite (IH H).
Qed.

(** [trimStart] removes a prefix of white space. *)
Lemma trimStart_split (s : string) :
  exists ws, allWhiteSpace ws = true /\ s = ws +:+ trimStart s.
Proof.
  induction s as [|c r (ws & Hws & IH)]; [by exists ""|]. simpl.
  destruct (isWhiteSpace c) eqn:E.
  - exists (String c ws). simpl. rewrite E, Hws. split; [done|]. by rewrite <- IH.
  - by exists "".
Qed.

(** [trimEnd] removes a suffix of white space. *)
Lemma trimEnd_split (s : string) :
  exists ws, allWhiteSpace ws = true /\ s = trimEnd s +:+ ws.
Proof.
  induction s as [|c r (ws & Hws & IH)]; [by exists ""|]. simpl.
  destruct (isWhiteSpace c && isEmpty (trimEnd r)) eqn:E.
  - apply andb_true_iff in E as [Ec Er]. exists (String c ws). simpl.
    rewrite Ec, Hws. split; [done|].
    destruct (trimEnd r); [|discriminate Er]. simpl in IH. by rewrite <- IH.
  - exists ws. split; [done|]. simpl. by rewrite <- IH.
Qed.

(** In front of a text that starts with no white space, [trimStart]
    leaves a suffix of what is in front. *)
Lemma trimStart_app (pre x : string) :
  isWhiteSpace (default " "%char (head x)) = false ->
  exists ws pre',
    allWhiteSpace ws = true /\ pre = ws +:+ pre' /\
    trimStart (pre +:+ x) = pre' +:+ x.
Proof.
  intros Hx. induction pre as [|c p (ws & pre' & Hws & Hp & IH)].
  - exists "", "". repeat split. simpl. destruct x as [|d x]; [done|].
    simpl in *. by rewrite Hx.
  - simpl. destruct (isWhiteSpace c) eqn:E.
    + exists (String c ws), pre'. simpl. rewrite E, Hws.
      repeat split; [by rewrite <- Hp | exact IH].
    + by exists "", (String c p).
Qed.

Lemma trimEnd_head_cases (s : string) :
  trimEnd s = "" \/ head (trimEnd s) = head s.
Proof.
  destruct s as [|c r]; [by left|]. simpl.
  destruct (isWhiteSpace c && isEmpty (trimEnd r)); [by left | by right].
Qed.

(** Behind a text that ends with no white space, [trimEnd] trims what
    is behind. *)
Lemma trimEnd_app (y post : string) :
  isWhiteSpace (default " "%char (lastChar y)) = false ->
  trimEnd (y +:+ post) = y +:+ trimEnd post.
Proof.
  induction y as [|c r IH]; [done|]. intros Hlast.
  destruct (decide (r = "")) as [->|Hr].
  - simpl in *. by rewrite Hlast.
  - rewrite (lastChar_cons _ _ Hr) in Hlast. simpl. rewrite (IH Hlast).
    destruct r as [|d r]; [done|]. simpl. by rewrite andb_false_r.
Qed.

Lemma lastChar_suffix (ws pre' : string) :
  lastChar pre' = None \/ lastChar pre' = lastChar (ws +:+ pre').
Proof.
  rewrite lastChar_app. destruct (lastChar pre'); [by right | by left].
Qed.

End TrimFacts.

Section ValidatorCoverageFacts.
Import JsString Validator Specs.

Lemma trimStart_ws_app (ws s : string) :
  allWhiteSpace ws = true -> trimStart (ws +:+ s) = trimStart s.
Proof.
  induction ws as [|c ws IH]; simpl; [done|].
  intros [-> H]%andb_true_iff. by apply IH.
Qed.

Lemma trimEnd_app_ws (s ws : string) :
  allWhiteSpace ws = true -> trimEnd (s +:+ ws) = trimEnd s.
Proof.
  intros H. induction s as [|c r IH]; simpl.
  - by apply allWhiteSpace_trimEnd.
  - by rewrite IH.
Qed.

Lemma trimStart_app_ws (s ws : string) :
  allWhiteSpace ws = true ->
  exists ws', allWhiteSpace ws' = true /\
              trimStart (s +:+ ws) = trimStart s +:+ ws'.
Proof.
  intros H. induction s as [|c r (ws' & Hws' & IH)]; simpl.
  - exists "". by rewrite (allWhiteSpace_trimStart _ H).
  - destruct (isWhiteSpace c); [by exists ws' | by exists ws].
Qed.

(** White space around a text does not change what [trim] gives. *)
Lemma trim_padded (before s after : string) :
  allWhiteSpace before = true -> allWhiteSpace after = true ->
  trim (before +:+ s +:+ after) = trim s.
Proof.
  intros Hb Ha. unfold trim. rewrite (trimStart_ws_app _ _ Hb).
  destruct (trimStart_app_ws s after Ha) as (ws' & Hws' & ->).
  by apply trimEnd_app_ws.
Qed.

Lemma matchLiteralCI_self (kw b : string) (last : option ascii) :
  matchLiteralCI kw (kw +:+ b) last
  = Some (match lastChar kw with Some c => Some c | None => last end, b).
Proof.
  revert last. induction kw as [|c kw IH]; intros last; simpl; [done|].
  rewrite Ascii.eqb_refl, IH. by destruct (lastChar kw).
Qed.

Lemma allWordChars_lastChar (kw : string) (c : ascii) :
  allWordChars kw = true -> lastChar kw = Some c -> isWordChar c = true.
Proof.
  induction kw as [|d kw IH]; simpl; [done|].
  intros [Hd Hkw]%andb_true_iff. destruct (lastChar kw) as [e|] eqn:E.
  - intros [= <-]. by apply IH.
  - by intros [= <-].
Qed.

(** The pattern of a keyword matches where the keyword stands between
    two positions with no word character on the outer side. *)
Lemma testWordFrom_holds (kw a b : string) (prev : option ascii) :
  kw <> "" -> allWordChars kw = true ->
  isWordOpt (match lastChar a with Some c => Some c | None => prev end)
    = false ->
  isWordOpt (head b) = false ->
  testWordFrom kw prev (a +:+ kw +:+ b) = true.
Proof.
  intros Hne Hkw Ha Hb. revert prev Ha.
  induction a as [|c a IH]; intros prev Ha.
  - simpl in Ha. simpl String.append.
    assert (Hm : matchWordAt kw prev (kw +:+ b) = true).
    { unfold matchWordAt. rewrite matchLiteralCI_self.
      destruct kw as [|k kw]; [done|].
      apply andb_true_iff in Hkw as Hk. destruct Hk as [Hk _].
      destruct (lastChar (String k kw)) as [l|] eqn:El;
        [|by apply lastChar_None in El].
      pose proof (allWordChars_lastChar _ _ Hkw El) as Hl.
      unfold wordBoundary. simpl. by rewrite Ha, Hk, Hl, Hb. }
    destruct (kw +:+ b); simpl; by rewrite Hm.
  - simpl String.append. cbn [testWordFrom]. rewrite IH; [apply orb_true_r|].
    simpl in Ha. by destruct (lastChar a).
Qed.

Lemma dangerous_words (keyword : string) :
  In keyword dangerousKeywords ->
  keyword <> "" /\ allWordChars keyword = true.
Proof.
  unfold dangerousKeywords. simpl. intros Hin.
  repeat (destruct Hin as [<-|Hin]; [split; [discriminate | reflexivity]|]).
  destruct Hin.
Qed.

Lemma allWordChars_upper (w : string) :
  allWordChars (toUpperCase w) = allWordChars w.
Proof.
  induction w as [|c w IH]; simpl; [done|]. by rewrite word_upper, IH.
Qed.

Lemma allWordChars_head (w : string) :
  allWordChars w = true -> isWhiteSpace (default " "%char (head w)) = false
                           \/ w = "".
Proof.
  destruct w as [|c w]; [by right|]. simpl.
  intros [H _]%andb_true_iff. left. by apply word_not_space.
Qed.

Lemma head_toUpperCase (s : string) :
  head (toUpperCase s) = toUpperChar <$> head s.
Proof. by destruct s. Qed.

Lemma isWordOpt_upper (o : option ascii) :
  isWordOpt (toUpperChar <$> o) = isWordOpt o.
Proof. destruct o; simpl; [apply word_upper | done]. Qed.

Lemma head_app_nonempty (w post : string) :
  w <> "" -> head (w +:+ post) = head w.
Proof. by destruct w. Qed.

(** A word that the query holds is found by the pattern in the text
    that the validator looks at. *)
Lemma holdsWord_testWord (keyword sql : string) :
  In keyword dangerousKeywords -> HoldsWord keyword sql ->
  testWord keyword (toUpperCase (trim sql)) = true.
Proof.
  intros Hin (pre & w & post & -> & Hw & Hpre & Hpost).
  destruct (dangerous_words _ Hin) as [Hne Hall].
  assert (Hwne : w <> "") by (intros ->; by apply Hne).
  assert (Hwall : allWordChars w = true)
    by (by rewrite <- allWordChars_upper, Hw).
  assert (Hhead : isWhiteSpace (default " "%char (head (w +:+ post))) = false).
  { rewrite (head_app_nonempty _ _ Hwne).
    by destruct (allWordChars_head _ Hwall). }
  destruct (trimStart_app pre (w +:+ post) Hhead)
    as (ws & pre' & Hws & Hp & Hts).
  assert (Hlast : isWhiteSpace (default " "%char (lastChar (pre' +:+ w)))
                  = false).
  { rewrite lastChar_app.
    destruct (lastChar w) as [l|] eqn:El; [|by apply lastChar_None in El].
    simpl. apply word_not_space. by apply (allWordChars_lastChar w). }
  unfold trim. rewrite Hts, <- append_assoc, (trimEnd_app _ _ Hlast).
  rewrite append_assoc, !toUpperCase_app, Hw.
  apply testWordFrom_holds; [done | done | |].
  - rewrite lastChar_toUpperCase.
    destruct (lastChar_suffix ws pre') as [-> | ->]; [done|].
    rewrite <- Hp. simpl. destruct (lastChar pre); simpl in *; [|done].
    by rewrite word_upper.
  - rewrite head_toUpperCase, isWordOpt_upper.
    destruct (trimEnd_head_cases post) as [-> | ->]; done.
Qed.

Lemma hasChar_app (q : ascii) (a b : string) :
  hasChar q (a +:+ b) = hasChar q a || hasChar q b.
Proof.
  induction a as [|c a IH]; simpl; [done|]. by rewrite IH, orb_assoc.
Qed.

Lemma hasChar_quote_upper (q : ascii) (s : string) :
  q = singleQuote \/ q = doubleQuote ->
  hasChar q (toUpperCase s) = hasChar q s.
Proof.
  intros Hq. induction s as [|c r IH]; simpl; [done|]. rewrite IH. f_equal.
  destruct Hq as [-> | ->]; each_char c; reflexivity.
Qed.

(** Outside the quoted spans nothing is removed: a text with no quote
    in front stays in front. *)
Lemma removeQuoted_app (q : ascii) (a s : string) :
  hasChar q a = false ->
  removeQuoted q false (a +:+ s) = a +:+ removeQuoted q false s.
Proof.
  induction a as [|c a IH]; simpl; [done|].
  intros [Hc Ha]%orb_false_iff. by rewrite Hc, IH.
Qed.

Lemma removeQuoted_semicolon (q : ascii) (s : string) :
  q = singleQuote \/ q = doubleQuote ->
  removeQuoted q false (String ";" s) = String ";" (removeQuoted q false s).
Proof. by intros [-> | ->]. Qed.

(** A semicolon with no quote before it is still there when the quoted
    spans are removed from the text that the validator looks at. *)
Lemma semicolon_survives (pre post : string) :
  hasChar singleQuote pre = false ->
  hasChar doubleQuote pre = false ->
  includes (withoutStrings (toUpperCase (trim (pre +:+ ";" +:+ post)))) ";"
  = true.
Proof.
  intros Hs Hd.
  destruct (trimStart_app pre (";" +:+ post) eq_refl)
    as (ws & pre' & Hws & Hp & Hts).
  unfold trim. rewrite Hts.
  change (pre' +:+ ";" +:+ post) with (pre' +:+ String ";" post).
  assert (Hsplit : pre' +:+ String ";" post = (pre' +:+ ";") +:+ post)
    by (by rewrite append_assoc).
  rewrite Hsplit, trimEnd_app.
  2:{ rewrite lastChar_app. reflexivity. }
  rewrite append_assoc, !toUpperCase_app. simpl String.append.
  assert (Hs' : hasChar singleQuote (toUpperCase pre') = false).
  { rewrite hasChar_quote_upper by (by left).
    rewrite Hp, hasChar_app in Hs. by apply orb_false_iff in Hs as [_ ?]. }
  assert (Hd' : hasChar doubleQuote (toUpperCase pre') = false).
  { rewrite hasChar_quote_upper by (by right).
    rewrite Hp, hasChar_app in Hd. by apply orb_false_iff in Hd as [_ ?]. }
  unfold withoutStrings.
  change (toUpperCase (String ";" (trimEnd post)))
    with (String ";" (toUpperCase (trimEnd post))).
  rewrite (removeQuoted_app _ _ _ Hs'), removeQuoted_semicolon by (by left).
  rewrite (removeQuoted_app _ _ _ Hd'), removeQuoted_semicolon by (by right).
  apply (includes_append _ ";").
Qed.

Lemma stripTrailingSemicolons_split (s : string) :
  exists run,
    s = stripTrailingSemicolons s +:+ run /\
    allSemicolons run = true /\
    lastChar (stripTrailingSemicolons s) <> Some ";"%char.
Proof.
  induction s as [|c r (run & H1 & H2 & H3)]; [by exists ""|]. simpl.
  destruct (Ascii.eqb c ";" && allSemicolons r) eqn:E.
  - exists (String c r). by repeat split.
  - exists run. repeat split; [simpl; by rewrite <- H1 | done |].
    simpl. destruct (lastChar (stripTrailingSemicolons r)) as [d|] eqn:El;
      [done|].
    intros [= ->]. apply lastChar_None in El. rewrite El in H1. simpl in H1.
    subst r. by rewrite H2 in E.
Qed.

End ValidatorCoverageFacts.

Section ValidatorCoverage.
Import JsString Validator Specs.

(** X1: an outcome of the validator has a reason exactly when it is
    invalid. *)
Theorem validateSqlQuery_reason_iff_invalid (sql : string) :
  (valid (validateSqlQuery sql) = false <->
   exists reason, error (validateSqlQuery sql) = Some reason) /\
  (valid (validateSqlQuery sql) = true <-> error (validateSqlQuery sql) = None).
Proof.
  unfold validateSqlQuery. cbv zeta.
  destruct (negb _ && negb _); [simpl; split; split; eauto; try done;
                                 by intros [? ?] |].
  destruct (firstForbidden _ _); [simpl; split; split; eauto; try done;
                                  by intros [? ?] |].
  destruct (includes (withoutStrings _) ";");
    [simpl; split; split; eauto; try done; by intros [? ?] |].
  destruct (includes _ "--" || includes _ "/*"); simpl; split; split;
    eauto; try done; by intros [? ?].
Qed.

(** X2: the outcome of the validator does not depend on the letter case
    of the query nor on the white space around it. *)
Theorem validateSqlQuery_case_and_space (sql : string) :
  validateSqlQuery (toUpperCase sql) = validateSqlQuery sql /\
  validateSqlQuery (trim sql) = validateSqlQuery sql /\
  forall before after,
    allWhiteSpace before = true -> allWhiteSpace after = true ->
    validateSqlQuery (before +:+ sql +:+ after) = validateSqlQuery sql.
Proof.
  split; [|split].
  - apply validateSqlQuery_normalize, normalize_toUpperCase.
  - apply validateSqlQuery_normalize, normalize_trim.
  - intros before after Hb Ha. apply validateSqlQuery_normalize.
    unfold normalize. f_equal. by apply trim_padded.
Qed.

Lemma validateSqlQuery_case_and_space_witness :
  validateSqlQuery ("  " +:+ "select 1" +:+ LF) = validateSqlQuery "select 1".
Proof.
  apply (proj2 (proj2 (validateSqlQuery_case_and_space "select 1")));
    reflexivity.
Defined.

(** X4: in an accepted query every semicolon has a single or a double
    quote somewhere before it. *)
Theorem accepted_semicolon_follows_quote (sql pre post : string) :
  valid (validateSqlQuery sql) = true ->
  sql = pre +:+ ";" +:+ post ->
  hasChar singleQuote pre = true \/ hasChar doubleQuote pre = true.
Proof.
  intros Hvalid ->.
  destruct (hasChar singleQuote pre) eqn:Hs; [by left|].
  destruct (hasChar doubleQuote pre) eqn:Hd; [by right|]. exfalso.
  destruct (validateSqlQuery_valid _ Hvalid) as (_ & _ & Hsemi & _).
  rewrite (semicolon_survives pre post Hs Hd) in Hsemi. discriminate.
Qed.

Lemma accepted_semicolon_follows_quote_witness :
  hasChar singleQuote "SELECT 'a" = true \/
  hasChar doubleQuote "SELECT 'a" = true.
Proof.
  apply (accepted_semicolon_follows_quote "SELECT 'a;b'" "SELECT 'a" "b'");
    reflexivity.
Defined.

(** X5: the query text sent to the database is the trimmed SQL without
    its trailing run of semicolons: the run holds nothing but
    semicolons, and what is left does not end with one. *)
Theorem cleanSql_removes_trailing_run (sql : string) :
  exists run,
    trim sql = Route.cleanSql sql +:+ run /\
    allSemicolons run = true /\
    lastChar (Route.cleanSql sql) <> Some ";"%char /\
    stripTrailingSemicolons (Route.cleanSql sql) = Route.cleanSql sql.
Proof.
  unfold Route.cleanSql.
  destruct (stripTrailingSemicolons_split (trim sql)) as (run & H1 & H2 & H3).
  exists run. repeat split; [done | done | done |].
  by apply stripTrailingSemicolons_id.
Qed.

End ValidatorCoverage.

(** ** The answer parser and the step log *)

Section ParserCoverageFacts.
Import JsString Agent Specs.

Lemma splitOn_includes (p s b a : string) :
  splitOn p s = Some (b, a) -> s = b +:+ p +:+ a.
Proof. intros H. by destruct (splitOn_first _ _ _ _ H). Qed.

Lemma includes_decompose (s p : string) :
  includes s p = true -> exists b a, s = b +:+ p +:+ a.
Proof.
  unfold includes. destruct (splitOn p s) as [[b a]|] eqn:E; [|done].
  intros _. exists b, a. by apply splitOn_includes.
Qed.

(** What a part of a text holds, the text holds. *)
Lemma includes_inside (x t y p : string) :
  includes t p = true -> includes (x +:+ t +:+ y) p = true.
Proof.
  intros (b & a & ->)%includes_decompose.
  replace (x +:+ (b +:+ p +:+ a) +:+ y) with ((x +:+ b) +:+ p +:+ (a +:+ y))
    by (by rewrite !append_assoc).
  apply includes_append.
Qed.

Lemma trim_split (s : string) :
  exists x y, s = x +:+ trim s +:+ y.
Proof.
  destruct (trimStart_split s) as (x & _ & Hx).
  destruct (trimEnd_split (trimStart s)) as (y & _ & Hy).
  exists x, y. unfold trim. by rewrite <- Hy.
Qed.

Lemma includes_trim (s p : string) :
  includes (trim s) p = true -> includes s p = true.
Proof.
  intros H. destruct (trim_split s) as (x & y & Hs). rewrite Hs.
  by apply includes_inside.
Qed.

(** The text before the first occurrence of a pattern does not hold
    the pattern. *)
Lemma first_before (p s b a : string) :
  p <> "" -> FirstOccurrence p s b a -> includes b p = false.
Proof.
  intros Hp [Heq Hmin]. destruct (includes b p) eqn:E; [|done].
  apply includes_decompose in E as (x & y & ->).
  specialize (Hmin x (y +:+ p +:+ a)).
  rewrite !append_length in Hmin.
  assert (0 < String.length p) by (destruct p; [done | simpl; lia]).
  rewrite Heq, !append_assoc in Hmin. specialize (Hmin eq_refl). lia.
Qed.

Lemma matchSqlBlock_body (answer body : string) :
  matchSqlBlock answer = Some body -> includes body fence = false.
Proof.
  induction answer as [|c r IH]; [done|]. cbn [matchSqlBlock].
  destruct (stripPrefix sqlFence (String c r)) as [rest|]; [|exact IH].
  destruct (splitOn fence rest) as [[bd a]|] eqn:Es; [|exact IH].
  intros [= <-]. apply splitOn_first in Es.
  by apply (first_before fence rest bd a).
Qed.

Lemma stripPrefix_differs (a d : ascii) (p s : string) :
  Ascii.eqb d a = false -> stripPrefix (String a p) (String d s) = None.
Proof. intros H. simpl. rewrite Ascii.eqb_sym in H. by rewrite H. Qed.

Lemma stripPrefix_other (p s : string) (c : ascii) :
  head p = Some c -> hasChar c s = false -> forall t, s <> "" \/ t <> "" ->
  stripPrefix p (s +:+ t) = None \/ s = "".
Proof.
  destruct p as [|a p]; [done|]. intros [= ->] Hs t _.
  destruct s as [|d s]; [by right|]. left. simpl in *.
  apply orb_false_iff in Hs as [Hd _].
  rewrite Ascii.eqb_sym in Hd. by rewrite Hd.
Qed.

(** A pattern is first found behind a text that holds none of its first
    character. *)
Lemma splitOn_behind (p b a : string) (c : ascii) :
  head p = Some c -> hasChar c b = false ->
  splitOn p (b +:+ p +:+ a) = Some (b, a).
Proof.
  intros Hp. induction b as [|d b IH]; intros Hb; rewrite splitOn_unfold.
  - simpl. by rewrite stripPrefix_append.
  - destruct (stripPrefix_other p (String d b) c Hp Hb (p +:+ a)) as [->|];
      [by left | | done].
    simpl in Hb. apply orb_false_iff in Hb as [_ Hb].
    simpl. by rewrite (IH Hb).
Qed.

Lemma splitOn_here (p rest : string) :
  splitOn p (p +:+ rest) = Some ("", rest).
Proof. by rewrite splitOn_unfold, stripPrefix_append. Qed.

Lemma matchSqlBlock_behind (b s : string) :
  hasChar "`" b = false -> matchSqlBlock (b +:+ s) = matchSqlBlock s.
Proof.
  induction b as [|d b IH]; [done|]. simpl hasChar.
  intros [Hd Hb]%orb_false_iff. simpl String.append. cbn [matchSqlBlock].
  assert (Hno : stripPrefix sqlFence (String d (b +:+ s)) = None)
    by (by apply (stripPrefix_differs "`" d ("``sql" +:+ LF))).
  rewrite Hno. by apply IH.
Qed.

Lemma trim_app_ws (s ws : string) :
  allWhiteSpace ws = true -> trim (s +:+ ws) = trim s.
Proof.
  intros H. rewrite <- (trim_padded "" s ws eq_refl H). reflexivity.
Qed.

Lemma trim_ws_app (ws s : string) :
  allWhiteSpace ws = true -> trim (ws +:+ s) = trim s.
Proof.
  intros H. rewrite <- (trim_padded ws s "" H eq_refl).
  by rewrite append_nil_r.
Qed.

Lemma logToolCall_app (steps : list string) (tc : ToolCall) :
  logToolCall steps tc = steps ++ logToolCall [] tc.
Proof.
  unfold logToolCall.
  repeat (match goal with |- context [if ?b then _ else _] => destruct b end;
          simpl; try done).
  by rewrite app_nil_r.
Qed.

Lemma logCalls_app (calls : list ToolCall) (steps : list string) :
  fold_left logToolCall calls steps
  = steps ++ fold_left logToolCall calls [].
Proof.
  revert steps. induction calls as [|tc calls IH]; intros steps; simpl.
  - by rewrite app_nil_r.
  - rewrite (IH (logToolCall steps tc)), (IH (logToolCall [] tc)).
    by rewrite (logToolCall_app steps), app_assoc.
Qed.

Lemma logStep_app (steps : list string) (step : StepResult) :
  logStep steps step = steps ++ logStep [] step.
Proof.
  unfold logStep. destruct (toolCalls step); [apply logCalls_app|].
  by rewrite app_nil_r.
Qed.

Lemma logSteps_app (made : list StepResult) (steps : list string) :
  fold_left logStep made steps = steps ++ fold_left logStep made [].
Proof.
  revert steps. induction made as [|step made IH]; intros steps; simpl.
  - by rewrite app_nil_r.
  - rewrite (IH (logStep steps step)), (IH (logStep [] step)).
    by rewrite (logStep_app steps), app_assoc.
Qed.

End ParserCoverageFacts.

Section ParserCoverage.
Import JsString Agent Specs.

(** X6: an answer in the format that the system prompt asks for is
    parsed back to its parts: the SQL and the explanation, trimmed, for
    an explanation with no star and no backquote and an SQL text with
    no backquote. *)
Theorem parse_formatted_answer (explanation sql : string) :
  hasChar "`" explanation = false ->
  hasChar "*" explanation = false ->
  hasChar "`" sql = false ->
  extractSql (formatAnswer explanation sql) = trim sql /\
  extractExplanation (formatAnswer explanation sql) = trim explanation.
Proof.
  intros He1 He2 Hq. split.
  - unfold extractSql, formatAnswer.
    assert (Hpre : forall rest,
      "**Explanation:** " +:+ explanation +:+ LF +:+ LF +:+
      "**SQL Query:**" +:+ LF +:+ rest
      = ("**Explanation:** " +:+ explanation +:+ LF +:+ LF +:+
         "**SQL Query:**" +:+ LF) +:+ rest).
    { intros rest. by rewrite !append_assoc. }
    rewrite Hpre, matchSqlBlock_behind.
    2:{ rewrite !hasChar_app, He1. reflexivity. }
    assert (Hsplit : splitOn fence ((sql +:+ LF) +:+ fence +:+ "")
                     = Some (sql +:+ LF, ""))
      by (apply (splitOn_behind fence _ _ "`"); [done|];
          by rewrite hasChar_app, Hq).
    rewrite append_assoc in Hsplit. simpl in Hsplit.
    simpl. rewrite Hsplit. by apply trim_app_ws.
  - set (tail := "**" +:+ LF +:+ "```sql" +:+ LF +:+ sql +:+ LF +:+ "```").
    assert (Hshape :
      formatAnswer explanation sql
      = "**Explanation:**" +:+
        ((" " +:+ explanation +:+ LF +:+ LF) +:+ ("**SQL Query:" +:+ tail))).
    { unfold formatAnswer, tail. rewrite !append_assoc. reflexivity. }
    unfold extractExplanation, matchExplanation.
    rewrite Hshape, splitOn_here. unfold skipWhiteSpace.
    destruct (trimStart_app (" " +:+ explanation +:+ LF +:+ LF)
                ("**SQL Query:" +:+ tail) eq_refl)
      as (ws & pre' & Hws & Hp & ->).
    assert (Hstar : hasChar "*" pre' = false).
    { assert (H : hasChar "*" (" " +:+ explanation +:+ LF +:+ LF) = false)
        by (by rewrite !hasChar_app, He2).
      rewrite Hp, hasChar_app in H. by apply orb_false_iff in H as [_ ?]. }
    unfold splitFirst.
    rewrite (splitOn_behind "**SQL Query:" pre' tail "*" eq_refl Hstar).
    rewrite <- (trim_ws_app ws pre' Hws), <- Hp.
    rewrite (trim_ws_app " " _ eq_refl).
    replace (explanation +:+ LF +:+ LF) with (explanation +:+ (LF +:+ LF))
      by done.
    by apply trim_app_ws.
Qed.

Lemma parse_formatted_answer_witness :
  extractSql (formatAnswer "All users." "SELECT * FROM users") =
    trim "SELECT * FROM users" /\
  extractExplanation (formatAnswer "All users." "SELECT * FROM users") =
    trim "All users.".
Proof.
  apply (parse_formatted_answer "All users." "SELECT * FROM users");
    reflexivity.
Defined.

(** X7: the SQL and the explanation that the parser gives are trimmed,
    and the SQL holds no code fence. *)
Theorem parsed_fields_are_trimmed (answer : string) :
  trim (extractSql answer) = extractSql answer /\
  trim (extractExplanation answer) = extractExplanation answer /\
  includes (extractSql answer) fence = false.
Proof.
  split; [|split].
  - unfold extractSql. destruct (matchSqlBlock answer); [apply trim_idem|done].
  - unfold extractExplanation.
    destruct (matchExplanation answer); apply trim_idem.
  - unfold extractSql. destruct (matchSqlBlock answer) as [body|] eqn:E;
      [|done].
    destruct (includes (trim body) fence) eqn:Ei; [|done].
    apply includes_trim in Ei. by rewrite (matchSqlBlock_body _ _ E) in Ei.
Qed.

(** X8: the step log follows the steps: the log of a run of steps
    followed by further steps is the log of the first steps followed by
    the log of the further steps. *)
Theorem extractSteps_app (finalText : string) (made more : list StepResult) :
  extractSteps {| text := finalText; steps := Some (made ++ more) |}
  = extractSteps {| text := finalText; steps := Some made |}
    ++ extractSteps {| text := finalText; steps := Some more |}.
Proof.
  unfold extractSteps. simpl. rewrite fold_left_app. apply logSteps_app.
Qed.

End ParserCoverage.

(** ** The query endpoint *)

Section RouteCoverageFacts.
Import JsString Validator Schema Agent Route.

(** The SQL that the validator accepts does not end with a semicolon
    once trimmed. *)
Lemma valid_lastChar (sql : string) :
  valid (validateSqlQuery sql) = true -> lastChar (trim sql) <> Some ";"%char.
Proof.
  intros Hvalid Hlast.
  destruct (validateSqlQuery_valid sql Hvalid) as (_ & _ & H & _).
  rewrite includes_lastChar in H; [discriminate|].
  apply withoutStrings_lastChar. by rewrite lastChar_toUpperCase, Hlast.
Qed.

Lemma valid_cleanSql (sql : string) :
  valid (validateSqlQuery sql) = true -> cleanSql sql = trim sql.
Proof.
  intros H. unfold cleanSql. by apply stripTrailingSemicolons_id, valid_lastChar.
Qed.

Lemma validateSqlQuery_reason_cases (sql : string) :
  valid (validateSqlQuery sql) = true \/
  exists reason, Validator.error (validateSqlQuery sql) = Some reason.
Proof.
  unfold validateSqlQuery. cbv zeta.
  destruct (negb _ && negb _); [right; by eexists|].
  destruct (firstForbidden _ _); [right; by eexists|].
  destruct (includes (withoutStrings _) ";"); [right; by eexists|].
  destruct (includes _ "--" || includes _ "/*"); [right; by eexists|].
  by left.
Qed.

(** The three ways in which the handler ends. *)
Lemma POST_shape (env : Env) (body : Body) :
  ((truthy (question body) = false \/ credentials body = None \/
    schema body = None) /\
   POST env body = ([], missingFields)) \/
  (truthy (question body) = true /\
   exists creds sch,
     credentials body = Some creds /\ schema body = Some sch /\
     ((exists e, createLLMClient creds = inl e /\
         POST env body
         = ([CalledSchemaToFiles; CalledCreateQueryAgent], serverError e)) \/
      (createLLMClient creds = inr tt /\
       ((exists e,
           Agent.query (conversation env creds sch (question body)) = inl e /\
           POST env body = (agentTrace (question body), serverError e)) \/
        (exists result,
           Agent.query (conversation env creds sch (question body))
             = inr result /\
           POST env body
           = (agentTrace (question body) ++ fst (respond env creds result),
              snd (respond env creds result))))))).
Proof.
  unfold POST, createQueryAgent, conversation.
  destruct (credentials body) as [creds|]; [|left; split; [tauto|done]].
  destruct (schema body) as [sch|]; [|left; split; [tauto|done]].
  destruct (truthy (question body)) eqn:Hq; [|left; split; [tauto|done]].
  right. split; [done|]. exists creds, sch. split; [done|]. split; [done|].
  simpl. destruct (createLLMClient creds) as [e|[]]; [left; by exists e|].
  right. split; [done|].
  destruct (query _) as [e|result]; [left; by exists e|].
  right. exists result. split; [done|].
  by destruct (respond env creds result).
Qed.

(** The four ways in which the handler ends once the agent has
    returned. *)
Lemma respond_shape (env : Env) (creds : Credentials)
    (result : AgentResponse) :
  (Agent.sql result = "" /\
   respond env creds result = ([], extractionFailure result)) \/
  (isEmpty (trim (Agent.sql result)) = true /\
   respond env creds result = ([], extractionFailure result)) \/
  (isEmpty (trim (Agent.sql result)) = false /\
   valid (validateSqlQuery (Agent.sql result)) = false /\
   respond env creds result
   = ([CalledValidator (Agent.sql result)],
      {| status := 200; success := Some false;
         error := Validator.error (validateSqlQuery (Agent.sql result));
         explanation := Some (Agent.explanation result);
         sql := Some (Agent.sql result);
         steps := Some (agentSteps result);
         data := None; note := None |})) \/
  (isEmpty (trim (Agent.sql result)) = false /\
   valid (validateSqlQuery (Agent.sql result)) = true /\
   ((exists e,
       respond env creds result
       = ([CalledValidator (Agent.sql result); CalledCreateSupabaseClient],
          serverError e)) \/
    (exists message,
       respond env creds result
       = ([CalledValidator (Agent.sql result); CalledCreateSupabaseClient;
           CalledRpc (cleanSql (Agent.sql result))],
          softSuccess result message)) \/
    (exists rows,
       respond env creds result
       = ([CalledValidator (Agent.sql result); CalledCreateSupabaseClient;
           CalledRpc (cleanSql (Agent.sql result))],
          {| status := 200; success := Some true; error := None;
             explanation := Some (Agent.explanation result);
             sql := Some (Agent.sql result);
             steps := Some (agentSteps result);
             data := Some rows; note := None |})))).
Proof.
  unfold respond.
  destruct (Agent.sql result) as [|c r] eqn:Hsql; [left; by split|].
  rewrite <- Hsql. replace (truthy (Agent.sql result)) with true
    by (by rewrite Hsql).
  simpl negb. simpl orb. right.
  destruct (isEmpty (trim (Agent.sql result))) eqn:He; [left; by split|].
  right. cbv zeta.
  destruct (valid (validateSqlQuery (Agent.sql result))) eqn:Hv; simpl negb;
    cbv iota; [right | left; by repeat split].
  split; [done|]. split; [done|].
  destruct (createSupabaseClient env _ _) as [e|[]]; [left; by exists e|].
  right. unfold execute.
  destruct (rpc env (cleanSql (Agent.sql result))) as [d [m|]|].
  - left. by exists m.
  - right. by exists d.
  - left. by exists "RPC not available".
Qed.

End RouteCoverageFacts.

Section RouteCoverage.
Import JsString Validator Schema Agent Route Examples Cases.

(** X10: the database receives nothing but validated SQL: a query text
    passed to the remote procedure is the trimmed SQL of the agent,
    which the validator was called on and accepted, and the query text
    itself is accepted by the validator. *)
Theorem database_receives_validated_sql (env : Env) (body : Body)
    (query_text : string) :
  In (CalledRpc query_text) (fst (POST env body)) ->
  exists sql,
    In (CalledValidator sql) (fst (POST env body)) /\
    valid (validateSqlQuery sql) = true /\
    query_text = trim sql /\
    valid (validateSqlQuery query_text) = true.
Proof.
  intros Hin.
  destruct (POST_shape env body)
    as [[_ HP] | (_ & creds & sch & _ & _ &
                  [(e & _ & HP) | (_ & [(e & _ & HP) | (result & _ & HP)])])];
    rewrite HP in Hin |- *; simpl in Hin;
    try (repeat (destruct Hin as [Hin|Hin]; [discriminate Hin|]); done).
  simpl fst.
  repeat (destruct Hin as [Hin|Hin]; [discriminate Hin|]).
  destruct (respond_shape env creds result)
    as [[_ HR] | [[_ HR] | [(_ & _ & HR) | (_ & Hv & HR)]]].
  1-3: rewrite HR in Hin; simpl in Hin;
       repeat (destruct Hin as [Hin|Hin]; [discriminate Hin|]); done.
  assert (Hrpc : query_text = cleanSql (Agent.sql result)).
  { destruct HR as [(e & HR) | [(m & HR) | (d & HR)]]; rewrite HR in Hin;
      simpl in Hin;
      repeat (destruct Hin as [Hin|Hin]; [by inversion Hin|]); done. }
  exists (Agent.sql result). split.
  - do 3 right.
    destruct HR as [(e & HR) | [(m & HR) | (d & HR)]]; rewrite HR;
      simpl; tauto.
  - split; [done|]. rewrite Hrpc, (valid_cleanSql _ Hv). split; [done|].
    by rewrite (validateSqlQuery_normalize _ _ (normalize_trim _)).
Qed.

Lemma database_receives_validated_sql_witness :
  exists sql,
    In (CalledValidator sql)
       (fst (POST (failingDatabase sqlAnswer "denied") someBody)) /\
    valid (validateSqlQuery sql) = true /\
    "SELECT 1" = trim sql /\
    valid (validateSqlQuery "SELECT 1") = true.
Proof.
  apply (database_receives_validated_sql
           (failingDatabase sqlAnswer "denied") someBody "SELECT 1").
  simpl. tauto.
Defined.

(** X11: the endpoint answers with the status 400 exactly when the
    question is empty or the credentials or the schema are missing, and
    then it has called nothing. *)
Theorem missing_fields_give_400 (env : Env) (body : Body) :
  (status (snd (POST env body)) = 400 <->
   truthy (question body) = false \/ credentials body = None \/
   schema body = None) /\
  (status (snd (POST env body)) = 400 ->
   POST env body = ([], missingFields)).
Proof.
  destruct (POST_shape env body)
    as [[Hm HP] | (Hq & creds & sch & Hc & Hs &
                   [(e & _ & HP) | (_ & [(e & _ & HP) | (result & _ & HP)])])];
    rewrite HP; simpl.
  - split; [|done]. split; [by intros _ | by intros _].
  - split; [split; [done|] | done].
    intros [H|[H|H]]; congruence.
  - split; [split; [done|] | done].
    intros [H|[H|H]]; congruence.
  - assert (H200 : status (snd (respond env creds result)) <> 400).
    { destruct (respond_shape env creds result)
        as [[_ HR] | [[_ HR] | [(_ & _ & HR) |
            (_ & _ & [(e & HR) | [(m & HR) | (d & HR)]])]]];
        rewrite HR; simpl; discriminate. }
    split; [split; [done|] | done].
    intros [H|[H|H]]; congruence.
Qed.

Lemma missing_fields_give_400_witness :
  POST (missingDatabase sqlAnswer)
    {| question := "q"; credentials := None; schema := Some someSchema |}
  = ([], missingFields).
Proof.
  apply (proj2 (missing_fields_give_400 (missingDatabase sqlAnswer)
                  {| question := "q"; credentials := None;
                     schema := Some someSchema |})).
  reflexivity.
Defined.



(** X13: when the validator rejects the SQL of the agent, the endpoint
    answers with [success = false], the reason of the validator, the
    rejected SQL, the explanation and the steps, and the database is not
    contacted. *)
Theorem rejected_sql_is_not_executed (env : Env) (body : Body)
    (creds : Credentials) (sch : SchemaInfo) (result : AgentResponse) :
  credentials body = Some creds ->
  schema body = Some sch ->
  truthy (question body) = true ->
  createLLMClient creds = inr tt ->
  Agent.query (conversation env creds sch (question body)) = inr result ->
  isEmpty (trim (Agent.sql result)) = false ->
  valid (validateSqlQuery (Agent.sql result)) = false ->
  POST env body
  = (agentTrace (question body) ++ [CalledValidator (Agent.sql result)],
     {| status := 200; success := Some false;
        error := Validator.error (validateSqlQuery (Agent.sql result));
        explanation := Some (Agent.explanation result);
        sql := Some (Agent.sql result);
        steps := Some (agentSteps result);
        data := None; note := None |}) /\
  (exists reason,
     error (snd (POST env body)) = Some reason) /\
  ~ In CalledCreateSupabaseClient (fst (POST env body)) /\
  forall query_text, ~ In (CalledRpc query_text) (fst (POST env body)).
Proof.
  intros Hc Hs Hq Hl Ha Hne Hv.
  rewrite (POST_after_agent env body creds sch _ Hc Hs Hq Hl Ha).
  destruct (respond_shape env creds result)
    as [[H0 _] | [[H0 _] | [(_ & _ & HR) | (_ & H0 & _)]]];
    [rewrite H0 in Hne; discriminate Hne | congruence | | congruence].
  rewrite HR. simpl. split; [done|]. split.
  - destruct (validateSqlQuery_reason_cases (Agent.sql result)) as [H|H];
      [congruence | exact H].
  - split; [|intros query_text]; intros [H|[H|[H|[H|[]]]]]; discriminate H.
Qed.

Lemma rejected_sql_is_not_executed_witness :
  ~ In (CalledRpc "DELETE FROM users")
      (fst (POST (missingDatabase deleteAnswer) someBody)).
Proof.
  refine (proj2 (proj2 (proj2 (rejected_sql_is_not_executed
            (missingDatabase deleteAnswer)
            someBody someCredentials someSchema _
            eq_refl eq_refl eq_refl eq_refl eq_refl eq_refl eq_refl)))
            "DELETE FROM users").
Defined.



End RouteCoverage.

(** ** The schema materializer *)

Section SchemaCoverageFacts.
Import JsString Schema Specs.

Lemma insertTables_is_Some (schema : SchemaInfo) (l : list TableInfo.t)
    (files : gmap string string) (path : string) :
  is_Some (insertTables schema l files !! path) <->
  is_Some (files !! path) \/
  exists table, In table l /\ path = tablePath (TableInfo.table_name table).
Proof.
  induction l as [|last l IH] using rev_ind.
  - simpl. split; [by left | by intros [? | (? & [] & _)]].
  - rewrite insertTables_snoc, lookup_insert_is_Some, IH. split.
    + intros [<- | [_ [H | (t & Ht & ->)]]].
      * right. exists last. split; [apply in_or_app; right; by left | done].
      * by left.
      * right. exists t. split; [apply in_or_app; by left | done].
    + intros [H | (t & Ht & ->)].
      * destruct (decide (tablePath (TableInfo.table_name last) = path));
          [by left | right; split; [done | by left]].
      * apply in_app_or in Ht as [Ht | [-> | []]]; [|by left].
        destruct (decide (tablePath (TableInfo.table_name last)
                          = tablePath (TableInfo.table_name t)));
          [by left | right; split; [done|]]. right. by exists t.
Qed.

Lemma insertTables_named (schema : SchemaInfo) (l : list TableInfo.t)
    (files : gmap string string) (name : string) :
  files !! tablePath name = None ->
  insertTables schema l files !! tablePath name
  = tableContent schema <$> tableNamed name l.
Proof.
  intros Hfresh. unfold tableNamed.
  induction l as [|t l IH] using rev_ind;
    [unfold insertTables; simpl; by rewrite Hfresh|].
  rewrite insertTables_snoc, filter_app.
  destruct (decide (TableInfo.table_name t = name)) as [Hn|Hn].
  - rewrite filter_cons_True, filter_nil by done.
    rewrite last_snoc, Hn. simpl. apply lookup_insert_eq.
  - rewrite filter_cons_False, filter_nil, app_nil_r by done.
    rewrite lookup_insert_ne; [exact IH|].
    intros Heq. by apply tablePath_inj in Heq.
Qed.

Lemma join_holds (sep x : string) (l : list string) :
  In x l -> exists before after, join sep l = before +:+ x +:+ after.
Proof.
  induction l as [|y l IH]; [done|]. intros [->|Hin].
  - destruct l as [|z l].
    + exists "", "". simpl. by rewrite append_nil_r.
    + exists "", (sep +:+ join sep (z :: l)). reflexivity.
  - destruct (IH Hin) as (b & a & Hj). destruct l as [|z l]; [done|].
    exists (y +:+ sep +:+ b), a.
    change (join sep (y :: z :: l)) with (y +:+ sep +:+ join sep (z :: l)).
    by rewrite Hj, !append_assoc.
Qed.

Lemma filter_In {A : Type} (P : A -> Prop) `{forall x, Decision (P x)}
    (l : list A) (x : A) :
  In x l -> P x -> In x (filter P l).
Proof.
  intros Hin HP. apply list_elem_of_In, list_elem_of_filter.
  split; [done | by apply list_elem_of_In].
Qed.

End SchemaCoverageFacts.

Section SchemaCoverage.
Import JsString Schema Specs Examples Cases.

(** X15: the paths of the document set are the overview, the summary,
    the path of every table, and the relationships when there is a
    foreign key; there is no other document. *)
Theorem schemaToFiles_paths (schema : SchemaInfo) (path : string) :
  is_Some (schemaToFiles schema !! path) <->
  path = overviewPath \/ path = summaryPath \/
  (path = relationshipsPath /\ foreignKeys schema <> []) \/
  exists table,
    In table (tables schema) /\
    path = tablePath (TableInfo.table_name table).
Proof.
  unfold schemaToFiles. cbv zeta.
  fold (insertTables schema (tables schema)
          (<[overviewPath := overviewText schema]> ∅)).
  rewrite lookup_insert_is_Some.
  assert (Hinner :
    is_Some (insertTables schema (tables schema)
               (<[overviewPath := overviewText schema]> ∅) !! path) <->
    path = overviewPath \/
    exists table, In table (tables schema) /\
                  path = tablePath (TableInfo.table_name table)).
  { rewrite insertTables_is_Some, lookup_insert_is_Some. split.
    - intros [[<- | [_ H]] | H]; [by left | | by right].
      by apply lookup_empty_is_Some in H.
    - intros [-> | H]; [left; by left | by right]. }
  destruct (foreignKeys schema) as [|fk fks].
  - rewrite Hinner. split.
    + intros [<- | [_ [-> | H]]]; tauto.
    + intros [-> | [-> | [[_ H] | H]]]; [| by left | done |].
      * right. split; [done | by left].
      * destruct (decide (summaryPath = path)); [by left|].
        right. split; [done | by right].
  - rewrite lookup_insert_is_Some, Hinner. split.
    + intros [<- | [_ [<- | [_ [-> | H]]]]]; try tauto.
      right. right. left. by split.
    + intros [-> | [-> | [[-> _] | H]]].
      * right. split; [done|]. right. split; [done | by left].
      * by left.
      * right. split; [done | by left].
      * destruct (decide (summaryPath = path)); [by left|].
        right. split; [done|].
        destruct (decide (relationshipsPath = path)); [by left|].
        right. split; [done | by right].
Qed.

(** X16: the path of a table name holds the document of the last table
    of the description that has this name, and no document when no
    table has it. *)
Theorem schemaToFiles_table_document (schema : SchemaInfo) (name : string) :
  schemaToFiles schema !! tablePath name
  = tableContent schema <$> tableNamed name (tables schema).
Proof.
  rewrite schemaToFiles_table. apply insertTables_named.
  rewrite lookup_insert_ne; [done|].
  intros H. by destruct (tablePath_fresh name) as (Ho & _).
Qed.

(** X19: the summary is always there; it holds the entry of every
    table, and the entry of a table lists every column of the
    description that bears its name. *)
Theorem summary_document (schema : SchemaInfo) :
  schemaToFiles schema !! summaryPath = Some (summaryText schema) /\
  (forall table, In table (tables schema) ->
     exists before after,
       summaryText schema = before +:+ summaryEntry schema table +:+ after) /\
  (forall table c, In c (columns schema) ->
     ColumnInfo.table_name c = TableInfo.table_name table ->
     exists before after,
       summaryEntry schema table
       = before +:+ ("- " +:+ ColumnInfo.column_name c +:+ " (" +:+
                     ColumnInfo.data_type c +:+ ")") +:+ after).
Proof.
  split; [apply lookup_insert_eq|]. split.
  - intros table Hin. unfold summaryText.
    by apply (appendLines_holds (summaryEntry schema)).
  - intros table c Hc Hn. unfold summaryEntry.
    assert (Hin : In c (columnsOf schema table)) by (by apply filter_In).
    destruct (join_holds LF
                ("- " +:+ ColumnInfo.column_name c +:+ " (" +:+
                 ColumnInfo.data_type c +:+ ")")
                (map (fun c => "- " +:+ ColumnInfo.column_name c +:+ " (" +:+
                               ColumnInfo.data_type c +:+ ")")
                     (columnsOf schema table)))
      as (b & a & ->).
    { apply in_map_iff. by exists c. }
    exists (("### " +:+ TableInfo.table_name table +:+ LF) +:+ b),
      (a +:+ LF +:+ LF).
    by rewrite !append_assoc.
Qed.

Lemma summary_document_witness :
  exists before after,
    summaryText someSchema
    = before +:+ summaryEntry someSchema ordersTable +:+ after.
Proof.
  apply (proj1 (proj2 (summary_document someSchema)) ordersTable).
  left. reflexivity.
Defined.

End SchemaCoverage.

(** ** The schema introspection and the schema endpoint *)

Section IntrospectionFacts.
Import JsString Schema Agent Introspection Specs.

Lemma restDataType_truthy (columnDef : ColumnDef) :
  truthy (restDataType columnDef) = true.
Proof.
  unfold restDataType.
  destruct (format columnDef) as [f|]; simpl.
  - destruct (truthy f) eqn:E; [done|].
    destruct (type columnDef) as [t|]; simpl; [|done].
    by destruct (truthy t) eqn:Et.
  - destruct (type columnDef) as [t|]; simpl; [|done].
    by destruct (truthy t) eqn:Et.
Qed.

Lemma restColumns_In (tableName : string) (definition : TableDefinition)
    (columns : list ColumnInfo.t) (c : ColumnInfo.t) :
  In c (restColumns tableName definition columns) ->
  In c columns \/
  exists entry, c = restColumn tableName entry.
Proof.
  unfold restColumns. destruct (properties definition) as [props|]; [|tauto].
  revert columns. induction props as [|entry props IH] using rev_ind;
    intros columns; simpl; [tauto|].
  rewrite fold_left_app. simpl. intros [H | [<- | []]]%in_app_or.
  - by apply IH.
  - right. by exists entry.
Qed.

Lemma restEntry_invariant (acc : list TableInfo.t * list ColumnInfo.t)
    (entry : string * TableDefinition) :
  restInvariant acc -> restInvariant (restEntry acc entry).
Proof.
  intros [Hcols Htabs]. unfold restEntry.
  destruct (startsWith (fst entry) "_") eqn:E; [by split|].
  split; simpl.
  - intros c [Hc | (e & ->)]%restColumns_In.
    + destruct (Hcols c Hc) as ((t & Ht & Hn) & Hrest).
      split; [|done]. exists t. split; [apply in_or_app; by left | done].
    + split; [|by split; [apply restDataType_truthy|]].
      exists (restTable (fst entry)).
      split; [apply in_or_app; right; by left | done].
  - intros t [Ht | [<- | []]]%in_app_or; [by apply Htabs | done].
Qed.

Lemma restEntries_invariant (entries : list (string * TableDefinition))
    (acc : list TableInfo.t * list ColumnInfo.t) :
  restInvariant acc -> restInvariant (fold_left restEntry entries acc).
Proof.
  revert acc. induction entries as [|entry entries IH]; intros acc H; [done|].
  simpl. by apply IH, restEntry_invariant.
Qed.

Lemma restEntries_tables (entries : list (string * TableDefinition))
    (acc : list TableInfo.t * list ColumnInfo.t) :
  fst (fold_left restEntry entries acc)
  = fst acc ++ map restTable
                 (filter (fun name => startsWith name "_" = false)
                    (map fst entries)).
Proof.
  revert acc. induction entries as [|entry entries IH]; intros acc; simpl.
  - by rewrite app_nil_r.
  - rewrite IH. unfold restEntry.
    destruct (startsWith (fst entry) "_") eqn:E.
    + rewrite filter_cons_False; [done | by rewrite E].
    + rewrite filter_cons_True by done. simpl. by rewrite <- app_assoc.
Qed.

Lemma schemaToFiles_without_foreign_keys (schema : SchemaInfo) :
  foreignKeys schema = [] ->
  schemaToFiles schema !! relationshipsPath = None.
Proof.
  intros Hnil. unfold schemaToFiles. rewrite lookup_insert_ne by done.
  rewrite Hnil.
  fold (insertTables schema (tables schema)
          (<[overviewPath := overviewText schema]> ∅)).
  rewrite insertTables_other; [by rewrite lookup_insert_ne|].
  intros name H. by destruct (tablePath_fresh name) as (_ & Hr & _).
Qed.

End IntrospectionFacts.

Section IntrospectionCoverage.
Import JsString Schema Agent Introspection Specs Examples Cases.

(** X20: in the schema read from the REST endpoint every column bears
    the name of a table of the schema, has a type that is not empty, is
    nullable and has no default; every table is a base table of the
    public schema whose name does not start with an underscore; there
    is no foreign key. *)
Theorem rest_schema_shape (openApiSpec : OpenApiSpec) :
  let schema := parseOpenApi openApiSpec in
  (forall c, In c (columns schema) ->
     (exists t, In t (tables schema) /\
                TableInfo.table_name t = ColumnInfo.table_name c) /\
     truthy (ColumnInfo.data_type c) = true /\
     ColumnInfo.is_nullable c = "YES" /\
     ColumnInfo.column_default c = None) /\
  (forall t, In t (tables schema) ->
     TableInfo.table_schema t = "public" /\
     TableInfo.table_type t = "BASE TABLE" /\
     startsWith (TableInfo.table_name t) "_" = false) /\
  foreignKeys schema = [].
Proof.
  cbv zeta. unfold parseOpenApi. cbv zeta. simpl.
  assert (H : restInvariant
                match definitions openApiSpec with
                | Some entries => fold_left restEntry entries ([], [])
                | None => ([], [])
                end).
  { destruct (definitions openApiSpec);
      [apply restEntries_invariant|]; by split. }
  destruct H as [Hc Ht]. split; [exact Hc|]. split; [exact Ht | done].
Qed.

Lemma rest_schema_shape_witness :
  exists t,
    In t (tables (parseOpenApi {| definitions := Some restEntries |})) /\
    TableInfo.table_name t = "orders".
Proof.
  apply (proj1 (rest_schema_shape {| definitions := Some restEntries |})
           (restColumn "orders"
              ("total", {| type := Some "number"; format := None;
                           description := None |}))).
  simpl. tauto.
Defined.

(** X21: the tables of the schema read from the REST endpoint are the
    definitions whose name does not start with an underscore, in the
    order in which [Object.entries] lists the definitions: the names
    that are array indices first, in ascending order, then the other
    names in the order of the document. *)
Theorem rest_schema_tables (entries : list (string * TableDefinition)) :
  map TableInfo.table_name
    (tables (parseOpenApi {| definitions := Some entries |}))
  = filter (fun name => startsWith name "_" = false) (map fst entries).
Proof.
  unfold parseOpenApi. simpl. rewrite restEntries_tables. simpl.
  rewrite map_map. simpl. apply map_id.
Qed.

(** X22: the documents made from the schema read from the REST endpoint
    hold a document for every definition whose name does not start with
    an underscore, and no relationships document. *)
Theorem rest_schema_documents (entries : list (string * TableDefinition)) :
  let schema := parseOpenApi {| definitions := Some entries |} in
  schemaToFiles schema !! relationshipsPath = None /\
  forall entry,
    In entry entries -> startsWith (fst entry) "_" = false ->
    is_Some (schemaToFiles schema !! tablePath (fst entry)).
Proof.
  cbv zeta. split; [by apply schemaToFiles_without_foreign_keys|].
  intros entry Hin Hname.
  rewrite schemaToFiles_table. apply insertTables_is_Some. right.
  exists (restTable (fst entry)). split; [|done].
  unfold parseOpenApi. simpl. rewrite restEntries_tables. simpl.
  apply in_map, filter_In; [|done]. by apply in_map.
Qed.

Lemma rest_schema_documents_witness :
  is_Some (schemaToFiles (parseOpenApi {| definitions := Some restEntries |})
             !! tablePath "orders").
Proof.
  apply (proj2 (rest_schema_documents restEntries) ("orders", ordersDefinition)).
  - left. reflexivity.
  - reflexivity.
Defined.

(** X23: the schema endpoint answers with the status 400 exactly when
    the URL or the key is empty, and then nothing is fetched; an answer
    with the status 200 carries a schema, read from the address of the
    REST endpoint under the URL, and no error. *)
Theorem schema_endpoint_statuses
    (fetch : string -> string -> FetchOutcome) (body : SchemaRoute.Body) :
  (SchemaRoute.status (snd (SchemaRoute.POST fetch body)) = 400 <->
   SchemaRoute.supabaseUrl body = "" \/
   SchemaRoute.supabaseAnonKey body = "") /\
  (SchemaRoute.status (snd (SchemaRoute.POST fetch body)) = 400 ->
   fst (SchemaRoute.POST fetch body) = []) /\
  (SchemaRoute.status (snd (SchemaRoute.POST fetch body)) = 200 ->
   exists openApiSpec,
     fetch (SchemaRoute.supabaseUrl body +:+ "/rest/v1/")
       (SchemaRoute.supabaseAnonKey body)
     = FetchReturned true (inr openApiSpec) /\
     SchemaRoute.schema (snd (SchemaRoute.POST fetch body))
     = Some (parseOpenApi openApiSpec) /\
     SchemaRoute.error (snd (SchemaRoute.POST fetch body)) = None).
Proof.
  unfold SchemaRoute.POST, fetchSchemaViaRest.
  destruct (SchemaRoute.supabaseUrl body) as [|a u] eqn:Hu; simpl.
  { split; [split; [by left | done]|]. split; [done | discriminate]. }
  destruct (SchemaRoute.supabaseAnonKey body) as [|b k] eqn:Hk; simpl.
  { split; [split; [by right | done]|]. split; [done | discriminate]. }
  assert (Hnot : ~ (String a u = "" \/ String b k = ""))
    by (intros [H|H]; discriminate H).
  destruct (fetch _ _) as [e | [] [e | spec]]; simpl;
    (split; [split; [discriminate | tauto]|]);
    (split; [discriminate|]); try discriminate.
  intros _. by exists spec.
Qed.

Lemma schema_endpoint_statuses_witness :
  fst (SchemaRoute.POST (fun _ _ => FetchThrew ThrownOther)
         {| SchemaRoute.supabaseUrl := "";
            SchemaRoute.supabaseAnonKey := "anon" |}) = [].
Proof.
  apply (proj1 (proj2 (schema_endpoint_statuses
                         (fun _ _ => FetchThrew ThrownOther)
                         {| SchemaRoute.supabaseUrl := "";
                            SchemaRoute.supabaseAnonKey := "anon" |}))).
  reflexivity.
Defined.

(** X24: the foreign keys are optional for [fetchSchema]: whatever the
    remote procedure for the foreign keys does, the fetch fails or
    succeeds alike, with the same error or the same tables and columns;
    when the procedure throws or returns no data, the schema has no
    foreign key. *)
Theorem fetchSchema_foreign_keys_optional (supabase : SupabaseClient)
    (other : Thrown + option (list ForeignKeyInfo.t)) :
  let changed :=
    {| selectTables := selectTables supabase;
       rpcGetTablesInfo := rpcGetTablesInfo supabase;
       selectColumns := selectColumns supabase;
       rpcExecuteSql := other |} in
  match fetchSchema supabase, fetchSchema changed with
  | inl e, inl e' => e = e'
  | inr s, inr s' =>
      tables s = tables s' /\ columns s = columns s' /\
      (forall fks, rpcExecuteSql supabase = inr (Some fks) ->
                   foreignKeys s = fks) /\
      (rpcExecuteSql supabase = inr None \/
       (exists e, rpcExecuteSql supabase = inl e) -> foreignKeys s = [])
  | _, _ => False
  end.
Proof.
  cbv zeta. unfold fetchSchema, tablesFallback, fetchForeignKeys. simpl.
  destruct (error (selectTables supabase)) as [m|];
    [destruct (rpcGetTablesInfo supabase) as [e|[d|]]|]; try done;
    (destruct (error (selectColumns supabase)) as [m'|]; [done|]);
    simpl; (split; [done|]); (split; [done|]);
    (split; [by intros fks ->|]);
    by intros [-> | [e' ->]].
Qed.

(** X25: when the selection of the tables fails, [fetchSchema] goes on
    only if the fallback procedure returns data, and the error names
    the message of the selection otherwise; the rows of the fallback
    are not used: the tables of the schema are those of the failed
    selection, none when it has no data. *)
Theorem fetchSchema_tables_fallback (supabase : SupabaseClient)
    (message : string) :
  error (selectTables supabase) = Some message ->
  (tablesFallback supabase = None ->
   fetchSchema supabase
   = inl (ThrownError ("Failed to fetch tables: " +:+ message))) /\
  (forall rows s,
     tablesFallback supabase = Some rows ->
     fetchSchema supabase = inr s ->
     tables s = default [] (data (selectTables supabase))).
Proof.
  intros Herr. unfold fetchSchema. cbv zeta. rewrite Herr. split.
  - by intros ->.
  - intros rows s ->.
    destruct (error (selectColumns supabase)); [done|]. by intros [= <-].
Qed.

Lemma fetchSchema_tables_fallback_witness :
  tables {| tables := []; columns := [ordersColumn "id" "int"];
            foreignKeys := [] |}
  = default [] (data (selectTables failedSelection)).
Proof.
  apply (proj2 (fetchSchema_tables_fallback failedSelection "denied" eq_refl)
           [ordersTable]); reflexivity.
Defined.

End IntrospectionCoverage.

Section StorageFacts.
Import JsString Schema Agent Storage.

Variable credentialsJson : Json Credentials.
Variable schemaJson : Json SchemaInfo.

Lemma storage_round_trip_facts (creds : Credentials) (sch : SchemaInfo)
    (items : gmap string string) :
  truthy (stringify credentialsJson creds) = true ->
  parse credentialsJson (stringify credentialsJson creds) = Some creds ->
  truthy (stringify schemaJson sch) = true ->
  parse schemaJson (stringify schemaJson sch) = Some sch ->
  getCredentials credentialsJson
    (saveSchema schemaJson sch
       (saveCredentials credentialsJson creds (Some items))) = Some creds /\
  getSchema schemaJson
    (saveSchema schemaJson sch
       (saveCredentials credentialsJson creds (Some items))) = Some sch.
Proof.
  intros Hc1 Hc2 Hs1 Hs2.
  unfold getCredentials, getSchema, saveCredentials, saveSchema.
  rewrite lookup_insert_eq.
  rewrite (lookup_insert_ne _ SCHEMA_KEY CREDENTIALS_KEY) by done.
  rewrite lookup_insert_eq, Hc1, Hc2, Hs1, Hs2. done.
Qed.

Lemma storage_clear_facts (storage : option (gmap string string)) :
  getCredentials credentialsJson (clearCredentials storage) = None /\
  getSchema schemaJson (clearCredentials storage) = None.
Proof.
  destruct storage as [items|]; [|done]. simpl.
  by rewrite lookup_delete_ne, !lookup_delete_eq.
Qed.

End StorageFacts.

(** ** The storage of the browser, the page and the chat *)

Section StorageCoverage.
Import JsString Schema Agent Storage Examples Cases.

Variable credentialsJson : Json Credentials.
Variable schemaJson : Json SchemaInfo.

(** X26: what is saved is read back: in the browser, when the text of
    the credentials is not empty and parses back to them, the
    credentials saved are those read afterwards, also after the schema
    is saved; saving the credentials does not change the schema read;
    and the same holds with the two exchanged. *)
Theorem storage_round_trip (creds : Credentials) (sch : SchemaInfo)
    (items : gmap string string) :
  truthy (stringify credentialsJson creds) = true ->
  parse credentialsJson (stringify credentialsJson creds) = Some creds ->
  truthy (stringify schemaJson sch) = true ->
  parse schemaJson (stringify schemaJson sch) = Some sch ->
  getCredentials credentialsJson
    (saveCredentials credentialsJson creds (Some items)) = Some creds /\
  getCredentials credentialsJson
    (saveSchema schemaJson sch
       (saveCredentials credentialsJson creds (Some items))) = Some creds /\
  getSchema schemaJson
    (saveCredentials credentialsJson creds (Some items))
  = getSchema schemaJson (Some items) /\
  getSchema schemaJson (saveSchema schemaJson sch (Some items)) = Some sch /\
  getSchema schemaJson
    (saveCredentials credentialsJson creds
       (saveSchema schemaJson sch (Some items))) = Some sch /\
  getCredentials credentialsJson (saveSchema schemaJson sch (Some items))
  = getCredentials credentialsJson (Some items).
Proof.
  intros Hc1 Hc2 Hs1 Hs2.
  unfold getCredentials, getSchema, saveCredentials, saveSchema.
  rewrite !lookup_insert_eq.
  rewrite !(lookup_insert_ne _ SCHEMA_KEY CREDENTIALS_KEY) by done.
  rewrite !(lookup_insert_ne _ CREDENTIALS_KEY SCHEMA_KEY) by done.
  rewrite !lookup_insert_eq, Hc1, Hc2, Hs1, Hs2. done.
Qed.

(** X27: after the credentials are cleared neither the credentials nor
    the schema can be read, whatever was stored, and the other items of
    the storage are as they were. *)
Theorem storage_clear (storage : option (gmap string string)) :
  getCredentials credentialsJson (clearCredentials storage) = None /\
  getSchema schemaJson (clearCredentials storage) = None /\
  hasCredentials credentialsJson (clearCredentials storage) = false /\
  forall items key,
    storage = Some items ->
    key <> CREDENTIALS_KEY -> key <> SCHEMA_KEY ->
    exists items',
      clearCredentials storage = Some items' /\ items' !! key = items !! key.
Proof.
  assert (Hc : getCredentials credentialsJson (clearCredentials storage)
               = None).
  { destruct storage as [items|]; [|done]. simpl.
    by rewrite lookup_delete_ne, lookup_delete_eq. }
  split; [exact Hc|]. split.
  - destruct storage as [items|]; [|done]. simpl. by rewrite lookup_delete_eq.
  - split; [unfold hasCredentials; by rewrite Hc|].
    intros items key -> H1 H2. eexists. split; [reflexivity|].
    by rewrite !lookup_delete_ne.
Qed.

(** X28: a session outlives the page: after a connection in the
    browser, a page that is loaded anew on the same storage shows the
    chat with the credentials and the schema of the connection; after a
    disconnection it shows the landing page; before it is mounted a page
    shows nothing. *)
Theorem session_persistence (creds : Credentials) (sch : SchemaInfo)
    (state : Home.State) (items : gmap string string) :
  truthy (stringify credentialsJson creds) = true ->
  parse credentialsJson (stringify credentialsJson creds) = Some creds ->
  truthy (stringify schemaJson sch) = true ->
  parse schemaJson (stringify schemaJson sch) = Some sch ->
  let connected :=
    Home.handleConnect credentialsJson schemaJson creds sch state
      (Some items) in
  let disconnected :=
    Home.handleDisconnect (fst connected) (snd connected) in
  Home.render Home.initial = Home.Nothing /\
  Home.render
    (Home.onMount credentialsJson schemaJson Home.initial (snd connected))
  = Home.QueryInterface creds sch /\
  Home.render
    (Home.onMount credentialsJson schemaJson Home.initial (snd disconnected))
  = Home.Landing.
Proof.
  intros Hc1 Hc2 Hs1 Hs2. cbv zeta. split; [done|]. split.
  - unfold Home.handleConnect, Home.onMount. cbn [snd fst]. cbv zeta.
    destruct (storage_round_trip_facts credentialsJson schemaJson creds sch
                items Hc1 Hc2 Hs1 Hs2)
      as [-> ->]. done.
  - unfold Home.handleDisconnect, Home.handleConnect, Home.onMount.
    cbn [snd fst]. cbv zeta.
    destruct (storage_clear_facts credentialsJson schemaJson
                (Storage.saveSchema schemaJson sch
                   (Storage.saveCredentials credentialsJson creds (Some items))))
      as [-> _]. done.
Qed.

End StorageCoverage.

Section StorageWitnesses.
Import JsString Schema Agent Storage Examples Cases.

Lemma storage_round_trip_witness :
  getCredentials fixedCredentialsJson
    (saveCredentials fixedCredentialsJson someCredentials (Some ∅))
  = Some someCredentials.
Proof.
  apply (storage_round_trip fixedCredentialsJson fixedSchemaJson
           someCredentials someSchema ∅); reflexivity.
Defined.

Lemma storage_clear_witness :
  exists items',
    clearCredentials (Some {[ "theme" := "dark" ]}) = Some items' /\
    items' !! "theme" = ({[ "theme" := "dark" ]} : gmap string string) !! "theme".
Proof.
  apply (proj2 (proj2 (proj2 (storage_clear fixedCredentialsJson fixedSchemaJson
                                (Some {[ "theme" := "dark" ]}))))
           {[ "theme" := "dark" ]} "theme"); [reflexivity | discriminate ..].
Defined.

Lemma session_persistence_witness :
  Home.render
    (Home.onMount fixedCredentialsJson fixedSchemaJson Home.initial
       (snd (Home.handleConnect fixedCredentialsJson fixedSchemaJson
               someCredentials someSchema Home.initial (Some ∅))))
  = Home.QueryInterface someCredentials someSchema.
Proof.
  apply (session_persistence fixedCredentialsJson fixedSchemaJson
           someCredentials someSchema Home.initial ∅); reflexivity.
Defined.

End StorageWitnesses.

Section ChatCoverage.
Import JsString QueryInterface.

Lemma substring_split (n : nat) (s : string) :
  exists rest,
    s = String.substring 0 n s +:+ rest /\
    String.length (String.substring 0 n s) = Nat.min n (String.length s).
Proof.
  revert s. induction n as [|n IH]; intros s.
  - exists s. by destruct s.
  - destruct s as [|c s]; [by exists ""|].
    destruct (IH s) as (rest & Hs & Hl). exists rest. simpl.
    split; [by rewrite <- Hs | by rewrite Hl].
Qed.

(** X29: the title of a conversation is the input when it has at most
    40 characters, and otherwise its first 40 characters followed by
    three dots; it never has more than 43 characters. *)
Theorem conversationTitle_bounded (input : string) :
  (String.length input <= 40 -> conversationTitle input = input) /\
  (40 < String.length input ->
   exists first rest,
     input = first +:+ rest /\ String.length first = 40 /\
     conversationTitle input = first +:+ "...") /\
  String.length (conversationTitle input) <= 43.
Proof.
  unfold conversationTitle.
  destruct (substring_split 40 input) as (rest & Hs & Hl).
  destruct (40 <? String.length input) eqn:E.
  - apply Nat.ltb_lt in E. split; [lia|]. split.
    + intros _. exists (String.substring 0 40 input), rest.
      split; [done|]. split; [lia | done].
    + rewrite append_length. simpl. lia.
  - apply Nat.ltb_ge in E. split; [|split; [lia|]].
    + intros _. rewrite append_nil_r.
      assert (Hr : rest = "").
      { apply (f_equal String.length) in Hs.
        rewrite append_length, Hl in Hs.
        destruct rest as [|a r]; [done|].
        change (String.length (String a r)) with (S (String.length r)) in Hs.
        lia. }
      rewrite Hr, append_nil_r in Hs. by rewrite <- Hs.
    + rewrite append_length. simpl. lia.
Qed.

Lemma conversationTitle_bounded_witness :
  conversationTitle "show me the first 5 orders"
  = "show me the first 5 orders".
Proof.
  apply (proj1 (conversationTitle_bounded "show me the first 5 orders")).
  simpl. lia.
Defined.

(** X30: to toggle the steps of a message changes whether the message
    is among the expanded ones and leaves the other messages as they
    are; to toggle twice gives the set back. *)
Theorem toggleSteps_involution (messageId : string) (prev : gset string) :
  (messageId ∈ toggleSteps messageId prev <-> messageId ∉ prev) /\
  (forall other, other <> messageId ->
     (other ∈ toggleSteps messageId prev <-> other ∈ prev)) /\
  toggleSteps messageId (toggleSteps messageId prev) = prev.
Proof.
  unfold toggleSteps. split; [|split].
  - destruct (decide (messageId ∈ prev)); set_solver.
  - intros other Hne. destruct (decide (messageId ∈ prev)); set_solver.
  - destruct (decide (messageId ∈ prev)) as [Hin|Hout].
    + rewrite decide_False by set_solver.
      apply set_eq. intros x.
      destruct (decide (x = messageId)) as [->|]; set_solver.
    + rewrite decide_True by set_solver.
      apply set_eq. intros x.
      destruct (decide (x = messageId)) as [->|]; set_solver.
Qed.

Lemma toggleSteps_involution_witness :
  "b" ∈ toggleSteps "a" {[ "b" ]} <-> "b" ∈ ({[ "b" ]} : gset string).
Proof.
  apply (proj1 (proj2 (toggleSteps_involution "a" {[ "b" ]})) "b").
  discriminate.
Defined.

End ChatCoverage.

(** ** Further properties of the validator, of the materializer and of the parser *)

Ltac flatten_text := repeat first [rewrite append_assoc | progress simpl].

(** ** The removal of the quoted spans *)

Section TermFacts.
Import JsString Validator Specs Terms.

Lemma lacks_hasChar (q : ascii) (s : string) :
  lacks q s = negb (hasChar q s).
Proof.
  induction s as [|c r IH]; simpl; [done|].
  rewrite IH. by destruct (Ascii.eqb c q), (hasChar q r).
Qed.

Lemma lacks_false (q : ascii) (s : string) :
  lacks q s = true -> hasChar q s = false.
Proof. rewrite lacks_hasChar. by destruct (hasChar q s). Qed.

Lemma removeQuoted_none (q : ascii) (s : string) :
  hasChar q s = false -> removeQuoted q false s = s.
Proof.
  induction s as [|c r IH]; simpl; [done|].
  intros [Hc Hr]%orb_false_iff. by rewrite Hc, (IH Hr).
Qed.

(** Inside a span the text up to the next quote is dropped. *)
Lemma removeQuoted_inside (q : ascii) (b rest : string) :
  hasChar q b = false ->
  removeQuoted q true (b +:+ String q rest) = removeQuoted q false rest.
Proof.
  induction b as [|c b IH]; simpl.
  - by rewrite Ascii.eqb_refl.
  - intros [Hc Hb]%orb_false_iff. by rewrite Hc, (IH Hb).
Qed.

Lemma removeQuoted_span (q : ascii) (b rest : string) :
  hasChar q b = false ->
  removeQuoted q false (String q (b +:+ String q rest))
  = removeQuoted q false rest.
Proof.
  intros Hb. cbn [removeQuoted].
  rewrite Ascii.eqb_refl, hasChar_app. cbn [hasChar].
  rewrite Ascii.eqb_refl, orb_true_r. simpl. by apply removeQuoted_inside.
Qed.

(** The removal of the spans gives one text, the one that the pattern
    of the validator leaves. *)
Lemma SpansRemoved_removeQuoted (q : ascii) (s t : string) :
  SpansRemoved q s t -> t = removeQuoted q false s.
Proof.
  induction 1 as [|c s t Hc _ IH|b rest t Hb _ IH|s Hs].
  - done.
  - cbn [removeQuoted]. apply Ascii.eqb_neq in Hc. by rewrite Hc, IH.
  - rewrite removeQuoted_span; [done | by apply lacks_false].
  - apply lacks_false in Hs. cbn [removeQuoted].
    by rewrite Hs, andb_false_r, (removeQuoted_none _ _ Hs).
Qed.

Lemma hasChar_split (q : ascii) (s : string) :
  hasChar q s = true ->
  exists b rest, s = b +:+ String q rest /\ hasChar q b = false.
Proof.
  induction s as [|c r IH]; simpl; [done|].
  destruct (Ascii.eqb c q) eqn:E.
  - intros _. apply Ascii.eqb_eq in E as ->. by exists "", r.
  - simpl. intros H. destruct (IH H) as (b & rest & -> & Hb).
    exists (String c b), rest. simpl. by rewrite E, Hb.
Qed.

Lemma removeQuoted_SpansRemoved_bounded (q : ascii) (n : nat) (s : string) :
  String.length s <= n -> SpansRemoved q s (removeQuoted q false s).
Proof.
  revert s. induction n as [|n IH]; intros s Hlen.
  - destruct s; [constructor | simpl in Hlen; lia].
  - destruct s as [|c r]; [constructor|]. simpl in Hlen.
    destruct (Ascii.eqb c q) eqn:E.
    + apply Ascii.eqb_eq in E as ->.
      destruct (hasChar q r) eqn:Hr.
      * destruct (hasChar_split _ _ Hr) as (b & rest & -> & Hb).
        rewrite (removeQuoted_span _ _ _ Hb).
        apply spans_span; [by rewrite lacks_hasChar, Hb|].
        apply IH. rewrite append_length in Hlen. simpl in Hlen. lia.
      * cbn [removeQuoted].
        rewrite Hr, andb_false_r, (removeQuoted_none _ _ Hr).
        apply spans_last. by rewrite lacks_hasChar, Hr.
    + cbn [removeQuoted]. rewrite E. simpl.
      apply spans_keep; [by apply Ascii.eqb_neq|]. apply IH. lia.
Qed.

Lemma removeQuoted_SpansRemoved (q : ascii) (s : string) :
  SpansRemoved q s (removeQuoted q false s).
Proof. by apply (removeQuoted_SpansRemoved_bounded q (String.length s)). Qed.

Lemma quote_upper (q c : ascii) :
  q = singleQuote \/ q = doubleQuote ->
  Ascii.eqb (toUpperChar c) q = Ascii.eqb c q.
Proof. intros [-> | ->]; each_char c; reflexivity. Qed.

Lemma removeQuoted_toUpperCase (q : ascii) (inside : bool) (s : string) :
  q = singleQuote \/ q = doubleQuote ->
  removeQuoted q inside (toUpperCase s)
  = toUpperCase (removeQuoted q inside s).
Proof.
  intros Hq. revert inside. induction s as [|c r IH]; intros inside; [done|].
  cbn [toUpperCase removeQuoted].
  rewrite (quote_upper _ _ Hq), (hasChar_quote_upper _ _ Hq), !IH.
  destruct inside; [by destruct (Ascii.eqb c q)|].
  by destruct (Ascii.eqb c q && hasChar q r).
Qed.

Lemma withoutStrings_toUpperCase (s : string) :
  withoutStrings (toUpperCase s) = toUpperCase (withoutStrings s).
Proof.
  unfold withoutStrings.
  rewrite (removeQuoted_toUpperCase singleQuote) by (by left).
  by rewrite (removeQuoted_toUpperCase doubleQuote) by (by right).
Qed.

(** A text with no quote behind is left behind. *)
Lemma removeQuoted_app_r (q : ascii) (s w : string) :
  hasChar q w = false ->
  removeQuoted q false (s +:+ w) = removeQuoted q false s +:+ w /\
  (hasChar q s = true ->
   removeQuoted q true (s +:+ w) = removeQuoted q true s +:+ w).
Proof.
  intros Hw. induction s as [|c r [IH1 IH2]].
  - split; [|done]. simpl. by apply removeQuoted_none.
  - simpl String.append. cbn [removeQuoted hasChar].
    rewrite hasChar_app, Hw, orb_false_r. split.
    + destruct (Ascii.eqb c q && hasChar q r) eqn:E.
      * apply andb_true_iff in E as [_ Hr]. by apply IH2.
      * simpl. by rewrite IH1.
    + destruct (Ascii.eqb c q); simpl; [done|]. apply IH2.
Qed.

Lemma allWhiteSpace_hasChar (q : ascii) (w : string) :
  isWhiteSpace q = false -> allWhiteSpace w = true -> hasChar q w = false.
Proof.
  intros Hq. induction w as [|c w IH]; simpl; [done|].
  intros [Hc Hw]%andb_true_iff. rewrite (IH Hw), orb_false_r.
  apply Ascii.eqb_neq. intros ->. by rewrite Hq in Hc.
Qed.

Lemma withoutStrings_padded (before s after : string) :
  allWhiteSpace before = true -> allWhiteSpace after = true ->
  withoutStrings (before +:+ s +:+ after)
  = before +:+ withoutStrings s +:+ after.
Proof.
  intros Hb Ha. unfold withoutStrings.
  rewrite removeQuoted_app by (by apply allWhiteSpace_hasChar).
  rewrite (proj1 (removeQuoted_app_r singleQuote s after
                    (allWhiteSpace_hasChar singleQuote _ eq_refl Ha))).
  rewrite removeQuoted_app by (by apply allWhiteSpace_hasChar).
  by rewrite (proj1 (removeQuoted_app_r doubleQuote _ after
                       (allWhiteSpace_hasChar doubleQuote _ eq_refl Ha))).
Qed.

Lemma trim_around (s : string) :
  exists before after,
    allWhiteSpace before = true /\ allWhiteSpace after = true /\
    s = before +:+ trim s +:+ after.
Proof.
  destruct (trimStart_split s) as (before & Hb & Hs).
  destruct (trimEnd_split (trimStart s)) as (after & Ha & Ht).
  exists before, after. split; [done|]. split; [done|].
  unfold trim. by rewrite <- Ht.
Qed.

Lemma includes_char (a : ascii) (s : string) :
  includes s (String a "") = hasChar a s.
Proof.
  induction s as [|c r IH]; [done|].
  rewrite includes_cons, IH. cbn [hasChar]. f_equal.
  unfold startsWith. simpl. rewrite Ascii.eqb_sym. by destruct (Ascii.eqb c a).
Qed.

Lemma hasChar_semicolon_upper (s : string) :
  hasChar ";" (toUpperCase s) = hasChar ";" s.
Proof.
  induction s as [|c r IH]; simpl; [done|]. rewrite IH. f_equal.
  each_char c; reflexivity.
Qed.

(** The test of the statement rule, on the query itself. *)
Lemma statement_test (sql : string) :
  includes (withoutStrings (normalize sql)) ";"
  = hasChar ";" (withoutStrings sql).
Proof.
  unfold normalize.
  rewrite withoutStrings_toUpperCase, includes_char, hasChar_semicolon_upper.
  destruct (trim_around sql) as (before & after & Hb & Ha & Hs).
  rewrite Hs at 2. rewrite (withoutStrings_padded _ _ _ Hb Ha).
  rewrite !hasChar_app.
  rewrite (allWhiteSpace_hasChar ";" before eq_refl Hb).
  rewrite (allWhiteSpace_hasChar ";" after eq_refl Ha).
  by rewrite orb_false_r.
Qed.

Lemma statement_test_spans (sql u v : string) :
  SpansRemoved singleQuote sql u -> SpansRemoved doubleQuote u v ->
  includes (withoutStrings (normalize sql)) ";" = negb (lacks ";" v).
Proof.
  intros Hu Hv. apply SpansRemoved_removeQuoted in Hu, Hv. subst u v.
  rewrite statement_test, lacks_hasChar.
  unfold withoutStrings. by destruct (hasChar _ _).
Qed.

End TermFacts.

(** ** The keywords as whole words *)

Section WordFacts.
Import JsString Validator Specs Terms.

Lemma matchLiteralCI_text (kw s rest : string) (last l : option ascii) :
  matchLiteralCI kw s last = Some (l, rest) ->
  exists w,
    s = w +:+ rest /\ toUpperCase w = toUpperCase kw /\
    l = match lastChar w with Some c => Some c | None => last end.
Proof.
  revert s last. induction kw as [|a kw IH]; intros s last; simpl.
  - intros [= <- <-]. by exists "".
  - destruct s as [|b s]; [done|].
    destruct (Ascii.eqb (toUpperChar a) (toUpperChar b)) eqn:E; [|done].
    apply Ascii.eqb_eq in E. intros H.
    destruct (IH _ _ H) as (w & -> & Hw & ->).
    exists (String b w). simpl. rewrite Hw, E. split; [done|]. split; [done|].
    by destruct (lastChar w).
Qed.

Lemma upper_nonempty (w kw : string) :
  toUpperCase w = toUpperCase kw -> kw <> "" -> w <> "".
Proof. intros H Hkw ->. by destruct kw. Qed.

Lemma upper_words (w kw : string) :
  toUpperCase w = toUpperCase kw -> allWordChars kw = true ->
  allWordChars w = true.
Proof.
  intros H Hkw. by rewrite <- allWordChars_upper, H, allWordChars_upper.
Qed.

Lemma allWordChars_first (w : string) :
  w <> "" -> allWordChars w = true -> isWordOpt (head w) = true.
Proof. destruct w as [|c w]; [done|]. simpl. by intros _ [? _]%andb_true_iff. Qed.

Lemma allWordChars_last (w : string) :
  w <> "" -> allWordChars w = true -> isWordOpt (lastChar w) = true.
Proof.
  intros Hne Hw. destruct (lastChar w) as [c|] eqn:E.
  - simpl. by apply (allWordChars_lastChar w).
  - by apply lastChar_None in E.
Qed.

(** Where the pattern of a keyword matches, the keyword stands, in some
    letter case, with no word character next to it. *)
Lemma testWordFrom_text (kw s : string) (prev : option ascii) :
  kw <> "" -> allWordChars kw = true ->
  testWordFrom kw prev s = true ->
  exists a w b,
    s = a +:+ w +:+ b /\ toUpperCase w = toUpperCase kw /\
    isWordOpt (match lastChar a with Some c => Some c | None => prev end)
      = false /\
    isWordOpt (head b) = false.
Proof.
  intros Hne Hkw. revert prev.
  assert (Hat : forall p t, matchWordAt kw p t = true ->
            exists w b, t = w +:+ b /\ toUpperCase w = toUpperCase kw /\
                        isWordOpt p = false /\ isWordOpt (head b) = false).
  { intros prev t. unfold matchWordAt. intros [Hb Hm]%andb_true_iff.
    destruct (matchLiteralCI kw t prev) as [[l rest]|] eqn:E; [|done].
    destruct (matchLiteralCI_text _ _ _ _ _ E) as (w & -> & Hw & ->).
    pose proof (upper_nonempty _ _ Hw Hne) as Hwne.
    pose proof (upper_words _ _ Hw Hkw) as Hwall.
    exists w, rest. split; [done|]. split; [done|].
    unfold wordBoundary in Hb, Hm.
    rewrite (head_app_nonempty _ _ Hwne),
      (allWordChars_first _ Hwne Hwall) in Hb.
    pose proof (allWordChars_last _ Hwne Hwall) as Hl.
    destruct (lastChar w) as [c|]; [|done]. rewrite Hl in Hm.
    split; [by destruct (isWordOpt prev) | by destruct (isWordOpt (head rest))]. }
  induction s as [|c r IH]; intros prev; cbn [testWordFrom].
  - rewrite orb_false_r. intros H.
    destruct (Hat _ _ H) as (w & b & Hs & Hw & Hp & Hb).
    exists "", w, b. by simpl.
  - intros [H|H]%orb_true_iff.
    + destruct (Hat _ _ H) as (w & b & Hs & Hw & Hp & Hb).
      exists "", w, b. by simpl.
    + destruct (IH _ H) as (a & w & b & -> & Hw & Ha & Hb).
      exists (String c a), w, b. split; [done|]. split; [done|].
      split; [|done]. simpl. by destruct (lastChar a).
Qed.

Lemma toUpperCase_split (s x y : string) :
  toUpperCase s = x +:+ y ->
  exists s1 s2, s = s1 +:+ s2 /\ toUpperCase s1 = x /\ toUpperCase s2 = y.
Proof.
  revert s. induction x as [|c x IH]; intros s H.
  - by exists "", s.
  - destruct s as [|d s]; [done|]. simpl in H. injection H as Hc H.
    destruct (IH _ H) as (s1 & s2 & -> & H1 & H2).
    exists (String d s1), s2. simpl. by rewrite Hc, H1.
Qed.

Lemma dangerous_upper (keyword : string) :
  In keyword dangerousKeywords -> toUpperCase keyword = keyword.
Proof.
  unfold dangerousKeywords. simpl. intros Hin.
  repeat (destruct Hin as [<-|Hin]; [reflexivity|]). destruct Hin.
Qed.

Lemma space_not_word (c : ascii) :
  isWhiteSpace c = true -> isWordChar c = false.
Proof. each_char c; vm_compute; congruence. Qed.

Lemma allWhiteSpace_lastChar (w : string) :
  allWhiteSpace w = true -> isWordOpt (lastChar w) = false.
Proof.
  induction w as [|c w IH]; simpl; [done|].
  intros [Hc Hw]%andb_true_iff. specialize (IH Hw).
  destruct (lastChar w); [done|]. simpl. by apply space_not_word.
Qed.

Lemma allWhiteSpace_first (w : string) :
  allWhiteSpace w = true -> isWordOpt (head w) = false.
Proof.
  destruct w as [|c w]; simpl; [done|].
  intros [Hc _]%andb_true_iff. by apply space_not_word.
Qed.

(** A keyword that the pattern finds in the text that the validator
    looks at is held by the query as a whole word. *)
Lemma testWord_holdsWord (keyword sql : string) :
  In keyword dangerousKeywords ->
  testWord keyword (normalize sql) = true -> HoldsWord keyword sql.
Proof.
  intros Hin H. destruct (dangerous_words _ Hin) as [Hne Hall].
  destruct (testWordFrom_text _ _ _ Hne Hall H)
    as (a & w & b & Hs & Hw & Ha & Hb).
  rewrite (dangerous_upper _ Hin) in Hw.
  unfold normalize in Hs.
  destruct (toUpperCase_split _ _ _ Hs) as (a0 & r0 & Ht & Ha0 & Hr0).
  destruct (toUpperCase_split _ _ _ Hr0) as (w0 & b0 & -> & Hw0 & Hb0).
  destruct (trim_around sql) as (before & after & Hbefore & Hafter & Hsql).
  exists (before +:+ a0), w0, (b0 +:+ after). split; [|split; [|split]].
  - rewrite Hsql at 1. rewrite Ht. by rewrite !append_assoc.
  - rewrite <- Hw, <- Hw0. by rewrite toUpperCase_idem.
  - rewrite lastChar_app. subst a. rewrite lastChar_toUpperCase in Ha.
    destruct (lastChar a0) as [c|]; simpl in *.
    + by rewrite word_upper in Ha.
    + by apply allWhiteSpace_lastChar.
  - subst b. rewrite head_toUpperCase in Hb.
    destruct b0 as [|c b0]; simpl in *.
    + by apply allWhiteSpace_first.
    + by rewrite word_upper in Hb.
Qed.

Lemma firstForbidden_first (keywords : list string) (t named : string) :
  firstForbidden keywords t = Some named ->
  exists before after,
    keywords = before ++ named :: after /\
    (forall k, In k before -> testWord k t = false) /\
    testWord named t = true.
Proof.
  induction keywords as [|k rest IH]; simpl; [done|].
  destruct (testWord k t) eqn:E.
  - intros [= <-]. by exists [], rest.
  - intros H. destruct (IH H) as (before & after & -> & Hb & Hn).
    exists (k :: before), after. split; [done|]. split; [|done].
    intros k' [<-|Hk]; auto.
Qed.

(** The keyword that the loop of the validator stops at is the first
    keyword of the list that the query holds as a whole word. *)
Lemma firstForbidden_FirstHeld (sql named : string) :
  firstForbidden dangerousKeywords (normalize sql) = Some named ->
  FirstHeld dangerousKeywords sql named.
Proof.
  intros H. destruct (firstForbidden_first _ _ _ H)
    as (before & after & Hl & Hb & Hn).
  exists before, after. split; [done|]. split.
  - intros k Hk Hw.
    assert (Hin : In k dangerousKeywords)
      by (rewrite Hl; apply in_or_app; by left).
    pose proof (holdsWord_testWord k sql Hin Hw) as Ht.
    fold (normalize sql) in Ht. by rewrite (Hb k Hk) in Ht.
  - apply testWord_holdsWord; [|done].
    rewrite Hl. apply in_or_app. right. by left.
Qed.

Lemma notHeld_firstForbidden (sql : string) :
  (forall k, In k dangerousKeywords -> ~ HoldsWord k sql) ->
  firstForbidden dangerousKeywords (normalize sql) = None.
Proof.
  intros Hno.
  destruct (firstForbidden dangerousKeywords (normalize sql)) as [named|] eqn:E;
    [|done].
  destruct (firstForbidden_Some _ _ _ E) as [Hin Ht].
  destruct (Hno named Hin). by apply testWord_holdsWord.
Qed.

End WordFacts.

(** ** The keyword rule and the statement rule *)

Section ValidatorRules.
Import JsString Validator Specs Terms Inputs.

(** C1, as the code has it: a query that begins with a mutating keyword
    is rejected by the first rule, with the reason that only SELECT
    queries are allowed, which names no keyword. A query of ASCII
    characters that starts with SELECT or WITH and holds a mutating
    keyword as a whole word, in any letter case, is rejected with the
    reason that names the first keyword, in the order of the list, that
    the query holds as a whole word. *)
Theorem mutating_keyword_rejected (sql keyword : string) :
  In keyword dangerousKeywords ->
  (startsWith (normalize sql) keyword = true ->
   validateSqlQuery sql =
     invalid
       "Only SELECT queries are allowed. Query must start with SELECT or WITH.") /\
  (isAscii sql = true ->
   startsWithSelectOrWith sql ->
   HoldsWord keyword sql ->
   exists named,
     FirstHeld dangerousKeywords sql named /\
     validateSqlQuery sql =
       invalid ("Query contains forbidden keyword: " +:+ named +:+
                ". Only SELECT queries are allowed.") /\
     reasonNames (validateSqlQuery sql) named).
Proof.
  intros Hin. split.
  - intros Hstart.
    destruct (dangerous_prefix _ _ Hin Hstart) as [Hs Hw].
    unfold validateSqlQuery. fold (normalize sql). by rewrite Hs, Hw.
  - intros _ Hsel Hword.
    rewrite (validateSqlQuery_select sql Hsel). fold (normalize sql).
    destruct (firstForbidden dangerousKeywords (normalize sql))
      as [named|] eqn:E.
    + exists named. split; [by apply firstForbidden_FirstHeld|].
      split; [reflexivity|]. apply forbiddenKeywordMessage_names.
    + pose proof (holdsWord_testWord keyword sql Hin Hword) as Ht.
      fold (normalize sql) in Ht.
      rewrite (firstForbidden_None _ _ _ E Hin) in Ht. discriminate.
Qed.

Lemma mutating_keyword_rejected_witness :
  validateSqlQuery "DROP TABLE users;" =
    invalid
      "Only SELECT queries are allowed. Query must start with SELECT or WITH."
  /\
  exists before after,
    dangerousKeywords = before ++ "UPDATE" :: after /\
    (forall k, In k before -> ~ HoldsWord k twoKeywords) /\
    validateSqlQuery twoKeywords =
      invalid
        "Query contains forbidden keyword: UPDATE. Only SELECT queries are allowed.".
Proof.
  split.
  - apply (mutating_keyword_rejected "DROP TABLE users;" "DROP").
    + simpl. tauto.
    + reflexivity.
  - destruct (mutating_keyword_rejected twoKeywords "DROP") as [_ H].
    + simpl. tauto.
    + destruct H as (named & (before & after & Hl & Hb & _) & Hv & _).
      * reflexivity.
      * left. reflexivity.
      * exists "SELECT 1 WHERE ", "drop", " = update".
        repeat split; reflexivity.
      * assert (E : invalid (forbiddenKeywordMessage "UPDATE")
                    = invalid (forbiddenKeywordMessage named)) by exact Hv.
        injection E as E.
        pose proof (append_inj_r "UPDATE" named
                      ". Only SELECT queries are allowed." E) as <-.
        exists before, after. split; [exact Hl|]. split; [exact Hb|].
        reflexivity.
Defined.

(** C4, as the code has it. The spans between single quotes are removed
    from the query, then the spans between double quotes from what is
    left; a quote is paired with the next quote of its kind, and a
    quote with no partner stays. A query that still holds a semicolon
    after this is rejected; the reason cites multiple statements when
    the query, of ASCII characters, starts with SELECT or WITH and
    holds no forbidden keyword as a whole word, as for
    [SELECT 1; SELECT 2;]. A query that holds no semicolon after the
    removal passes this rule and is accepted when the other rules pass,
    as [SELECT 'a;b'] is. The semicolon of a quoted literal is not
    always removed: in [quoteInName] the single quote inside the
    double-quoted name is paired with the quote that opens the literal,
    and the query is rejected for multiple statements. *)
Theorem semicolon_outside_quotes_rejected :
  (forall (q : ascii) (s : string),
     exists t, SpansRemoved q s t /\
               forall t', SpansRemoved q s t' -> t' = t) /\
  (forall sql u v : string,
     SpansRemoved "'"%char sql u ->
     SpansRemoved "034"%char u v ->
     (lacks ";" v = false ->
      valid (validateSqlQuery sql) = false /\
      (isAscii sql = true ->
       startsWithSelectOrWith sql ->
       (forall k, In k dangerousKeywords -> ~ HoldsWord k sql) ->
       validateSqlQuery sql =
         invalid "Multiple SQL statements are not allowed.")) /\
     (lacks ";" v = true ->
      isAscii sql = true ->
      startsWithSelectOrWith sql ->
      (forall k, In k dangerousKeywords -> ~ HoldsWord k sql) ->
      includes sql "--" = false ->
      includes sql "/*" = false ->
      validateSqlQuery sql = {| valid := true; error := None |})) /\
  validateSqlQuery "SELECT 1; SELECT 2;" =
    invalid "Multiple SQL statements are not allowed." /\
  validateSqlQuery "SELECT 'a;b'" = {| valid := true; error := None |} /\
  validateSqlQuery quoteInName =
    invalid "Multiple SQL statements are not allowed.".
Proof.
  split; [|split; [|split; [|split]; reflexivity]].
  - intros q s. exists (removeQuoted q false s).
    split; [apply removeQuoted_SpansRemoved|].
    intros t'. apply SpansRemoved_removeQuoted.
  - intros sql u v Hu Hv.
    pose proof (statement_test_spans sql u v Hu Hv) as Htest.
    split.
    + intros Hsemi. rewrite Hsemi in Htest. simpl in Htest. split.
      * destruct (valid (validateSqlQuery sql)) eqn:E; [|reflexivity].
        destruct (validateSqlQuery_valid sql E) as (_ & _ & H & _).
        fold (normalize sql) in H. rewrite H in Htest. discriminate.
      * intros _ Hsel Hkw.
        rewrite (validateSqlQuery_select sql Hsel). fold (normalize sql).
        by rewrite (notHeld_firstForbidden _ Hkw), Htest.
    + intros Hsemi _ Hsel Hkw H1 H2. rewrite Hsemi in Htest. simpl in Htest.
      rewrite (validateSqlQuery_select sql Hsel). fold (normalize sql).
      rewrite (notHeld_firstForbidden _ Hkw), Htest.
      unfold normalize. rewrite !includes_normalized by reflexivity.
      by rewrite H1, H2.
Qed.

Lemma semicolon_outside_quotes_rejected_witness :
  (valid (validateSqlQuery "SELECT 1; SELECT 2;") = false /\
   validateSqlQuery "SELECT 1; SELECT 2;" =
     invalid "Multiple SQL statements are not allowed.") /\
  validateSqlQuery "SELECT 'a;b'" = {| valid := true; error := None |}.
Proof.
  destruct semicolon_outside_quotes_rejected as (_ & Hgen & _).
  split.
  - destruct (Hgen "SELECT 1; SELECT 2;" "SELECT 1; SELECT 2;"
                "SELECT 1; SELECT 2;") as [Hrej _].
    + repeat (apply spans_keep; [discriminate|]). apply spans_end.
    + repeat (apply spans_keep; [discriminate|]). apply spans_end.
    + destruct Hrej as [H1 H2]; [reflexivity|]. split; [exact H1|].
      apply H2; [reflexivity | left; reflexivity |].
      intros k Hk Hw.
      pose proof (holdsWord_testWord k _ Hk Hw) as H. simpl in Hk.
      repeat (destruct Hk as [<-|Hk]; [by vm_compute in H|]). destruct Hk.
  - destruct (Hgen "SELECT 'a;b'" "SELECT " "SELECT ") as [_ Hacc].
    + repeat (apply spans_keep; [discriminate|]).
      apply (spans_span "'"%char "a;b" "" ""); [reflexivity | apply spans_end].
    + repeat (apply spans_keep; [discriminate|]). apply spans_end.
    + apply Hacc; [reflexivity | reflexivity | left; reflexivity | |
                   reflexivity | reflexivity].
      intros k Hk Hw.
      pose proof (holdsWord_testWord k _ Hk Hw) as H. simpl in Hk.
      repeat (destruct Hk as [<-|Hk]; [by vm_compute in H|]). destruct Hk.
Defined.

(** C4, as the spec states it, fails twice. A semicolon outside the
    quoted spans does not always give the reason of the statement rule:
    a forbidden keyword is named first. And a query whose only
    semicolon lies inside a quoted literal is not always accepted: the
    single quote inside a double-quoted name is paired with the quote
    that opens the literal, so that the semicolon of the literal is
    left. *)
Lemma semicolon_claim_fails :
  (SpansRemoved "'"%char "SELECT 1; DELETE FROM t" "SELECT 1; DELETE FROM t" /\
   SpansRemoved "034"%char "SELECT 1; DELETE FROM t"
     "SELECT 1; DELETE FROM t" /\
   lacks ";" "SELECT 1; DELETE FROM t" = false /\
   validateSqlQuery "SELECT 1; DELETE FROM t" =
     invalid
       "Query contains forbidden keyword: DELETE. Only SELECT queries are allowed." /\
   error (validateSqlQuery "SELECT 1; DELETE FROM t")
     <> Some "Multiple SQL statements are not allowed.") /\
  (exists front,
     quoteInName = front +:+ "'c;d'" /\ lacks ";" front = true /\
     valid (validateSqlQuery quoteInName) = false /\
     validateSqlQuery quoteInName =
       invalid "Multiple SQL statements are not allowed.").
Proof.
  split.
  - split; [|split; [|split; [|split]]].
    + repeat (apply spans_keep; [discriminate|]). apply spans_end.
    + repeat (apply spans_keep; [discriminate|]). apply spans_end.
    + reflexivity.
    + reflexivity.
    + discriminate.
  - exists ("SELECT " +:+ String "034"%char "a'b" +:+ String "034"%char ", ").
    repeat split.
Qed.

(** X3: an accepted query of ASCII characters holds none of the
    dangerous keywords as a whole word, in any letter case. *)
Theorem accepted_query_holds_no_keyword (sql keyword : string) :
  isAscii sql = true ->
  valid (validateSqlQuery sql) = true ->
  In keyword dangerousKeywords ->
  ~ HoldsWord keyword sql.
Proof.
  intros _ Hvalid Hin Hword.
  destruct (validateSqlQuery_valid sql Hvalid) as (_ & Hnone & _).
  pose proof (holdsWord_testWord keyword sql Hin Hword) as H.
  rewrite (firstForbidden_None _ _ _ Hnone Hin) in H. discriminate H.
Qed.

Lemma accepted_query_holds_no_keyword_witness :
  ~ HoldsWord "DROP" "SELECT dropped FROM t".
Proof.
  apply (accepted_query_holds_no_keyword "SELECT dropped FROM t" "DROP").
  - reflexivity.
  - reflexivity.
  - simpl. tauto.
Defined.

End ValidatorRules.

(** ** The statements of the schema materializer *)

Section StatefulFacts.
Import JsString Schema Stateful.

Lemma appendOverview_loop {A : Type} (line : A -> string) (l : list A)
    (st : Store) :
  fold_left (fun st x => appendOverview (line x) st) l st
  = setOverview (fold_left (fun text x => text +:+ line x) l (overview st)) st.
Proof.
  revert st. induction l as [|x l IH]; intros st; simpl.
  - by destruct st.
  - by rewrite IH.
Qed.

Lemma appendContent_loop {A : Type} (line : A -> string) (l : list A)
    (st : Store) :
  fold_left (fun st x => appendContent (line x) st) l st
  = setContent (fold_left (fun text x => text +:+ line x) l (content st)) st.
Proof.
  revert st. induction l as [|x l IH]; intros st; simpl.
  - by destruct st.
  - by rewrite IH.
Qed.

Lemma appendRelationships_loop {A : Type} (line : A -> string) (l : list A)
    (st : Store) :
  fold_left (fun st x => appendRelationships (line x) st) l st
  = setRelationships
      (fold_left (fun text x => text +:+ line x) l (relationships st)) st.
Proof.
  revert st. induction l as [|x l IH]; intros st; simpl.
  - by destruct st.
  - by rewrite IH.
Qed.

Lemma summaryEntryStatements_eq (schema : SchemaInfo) (st : Store)
    (table : TableInfo.t) :
  summaryEntryStatements schema st table
  = setSummary (summary st +:+ summaryEntry schema table) st.
Proof.
  unfold summaryEntryStatements, summaryEntry, appendSummary, setSummary.
  by flatten_text.
Qed.

Lemma summaryEntryStatements_loop (schema : SchemaInfo)
    (l : list TableInfo.t) (st : Store) :
  fold_left (summaryEntryStatements schema) l st
  = setSummary
      (fold_left (fun text table => text +:+ summaryEntry schema table) l
         (summary st)) st.
Proof.
  revert st. induction l as [|x l IH]; intros st; simpl.
  - by destruct st.
  - by rewrite IH, summaryEntryStatements_eq.
Qed.

(** What the first statements leave in [files]. *)
Lemma overviewStatements_files (schema : SchemaInfo) (st : Store) :
  files (overviewStatements schema st)
  = <[overviewPath := overviewText schema]> ∅.
Proof.
  unfold overviewStatements. cbv zeta. rewrite appendOverview_loop.
  reflexivity.
Qed.

(** The six statements that start the document of a table write its
    two headers. *)
Lemma tableStatements_headers (table : TableInfo.t) :
  ((((("# Table: " +:+ TableInfo.table_name table +:+ LF +:+ LF) +:+
      ("Type: " +:+ TableInfo.table_type table +:+ LF)) +:+
     ("Schema: " +:+ TableInfo.table_schema table +:+ LF +:+ LF)) +:+
    ("## Columns" +:+ LF +:+ LF)) +:+
   ("| Column | Type | Nullable | Default |" +:+ LF)) +:+
  ("|--------|------|----------|--------|" +:+ LF)
  = tableHeader table +:+ columnsHeader.
Proof. unfold tableHeader, columnsHeader. by flatten_text. Qed.

(** What one turn of the loop over the tables writes in [content]. *)
Lemma tableStatements_content (schema : SchemaInfo) (st : Store)
    (table : TableInfo.t) :
  content (tableStatements schema st table) = tableContent schema table.
Proof.
  unfold tableStatements. cbv zeta. rewrite appendContent_loop.
  unfold tableContent, foreignKeysSection.
  destruct (foreignKeysOf schema table) as [|fk fks].
  - cbn [assignFile setFiles content setContent appendContent].
    by rewrite tableStatements_headers, append_nil_r.
  - rewrite appendContent_loop.
    cbn [assignFile setFiles content setContent appendContent].
    rewrite tableStatements_headers.
    rewrite (appendLines_prefix tableForeignKeyLine (fk :: fks)).
    rewrite (appendLines_prefix tableForeignKeyLine (fk :: fks)
               (LF +:+ "## Foreign Keys" +:+ LF +:+ LF)).
    by rewrite append_assoc.
Qed.

(** One turn of the loop over the tables: the document is built from
    the start and assigned to its path. *)
Lemma tableStatements_files (schema : SchemaInfo) (st : Store)
    (table : TableInfo.t) :
  files (tableStatements schema st table)
  = <[tablePath (TableInfo.table_name table) := tableContent schema table]>
      (files st).
Proof.
  rewrite <- (tableStatements_content schema st table).
  unfold tableStatements. cbv zeta. rewrite appendContent_loop.
  destruct (foreignKeysOf schema table) as [|fk fks]; [reflexivity|].
  rewrite appendContent_loop. reflexivity.
Qed.

Lemma tableStatements_loop (schema : SchemaInfo) (l : list TableInfo.t)
    (st : Store) :
  files (fold_left (tableStatements schema) l st)
  = insertTables schema l (files st).
Proof.
  revert st. induction l as [|table l IH]; intros st; simpl; [done|].
  by rewrite IH, tableStatements_files.
Qed.

Lemma relationshipsStatements_files (schema : SchemaInfo) (st : Store) :
  files (relationshipsStatements schema st)
  = match foreignKeys schema with
    | [] => files st
    | _ :: _ => <[relationshipsPath := relationshipsText schema]> (files st)
    end.
Proof.
  unfold relationshipsStatements, relationshipsText.
  destruct (foreignKeys schema) as [|fk fks]; [done|]. cbv zeta.
  rewrite appendRelationships_loop. reflexivity.
Qed.

Lemma summaryStatements_files (schema : SchemaInfo) (st : Store) :
  files (summaryStatements schema st)
  = <[summaryPath := summaryText schema]> (files st).
Proof.
  unfold summaryStatements. cbv zeta. rewrite summaryEntryStatements_loop.
  reflexivity.
Qed.

(** The statements of [schemaToFiles] build, from any store, the
    documents that the function [Schema.schemaToFiles] gives. *)
Lemma run_files (schema : SchemaInfo) (st : Store) :
  files (run schema st) = schemaToFiles schema.
Proof.
  unfold run. cbv zeta.
  rewrite summaryStatements_files, relationshipsStatements_files,
    tableStatements_loop, overviewStatements_files.
  reflexivity.
Qed.

End StatefulFacts.

Section StatefulClaims.
Import JsString Schema Stateful Examples Cases Inputs.

(** C7: the documents that a call of [schemaToFiles] returns are fixed
    by the description alone. Whatever the variables of the function
    hold when the call starts, the same paths receive the same texts;
    in particular a call that follows another call, on any description,
    returns what a first call returns. The documents are those of the
    function [Schema.schemaToFiles]. *)
Theorem schemaToFiles_deterministic (schema : SchemaInfo) :
  (forall before1 before2 : Store,
     schemaToFilesFrom before1 schema = schemaToFilesFrom before2 schema) /\
  (forall (before : Store) (earlier : SchemaInfo),
     schemaToFilesFrom (run earlier before) schema
     = schemaToFilesFrom before schema) /\
  (forall (before : Store) (path : string),
     schemaToFilesFrom before schema !! path = schemaToFiles schema !! path).
Proof.
  unfold schemaToFilesFrom. split; [|split].
  - intros before1 before2. by rewrite !run_files.
  - intros before earlier. by rewrite !run_files.
  - intros before path. by rewrite run_files.
Qed.

Lemma schemaToFiles_deterministic_witness :
  schemaToFilesFrom (run linkedSchema freshStore) someSchema
  = schemaToFilesFrom freshStore someSchema /\
  schemaToFilesFrom (run linkedSchema freshStore) someSchema
    !! "schema/relationships.md" = None.
Proof.
  split.
  - apply (proj1 (proj2 (schemaToFiles_deterministic someSchema))).
  - rewrite (proj2 (proj2 (schemaToFiles_deterministic someSchema))).
    reflexivity.
Defined.

End StatefulClaims.

(** ** The block of SQL, the text of the documents, the model
       identifiers *)

Section BlockFacts.
Import JsString Agent Specs Terms.

Lemma isBlank_isWhiteSpace (c : ascii) : isBlank c = isWhiteSpace c.
Proof. each_char c; reflexivity. Qed.

Lemma allBlank_allWhiteSpace (s : string) : allBlank s = allWhiteSpace s.
Proof.
  induction s as [|c r IH]; simpl; [done|].
  by rewrite isBlank_isWhiteSpace, IH.
Qed.

Lemma trimEnd_lastChar (s : string) (c : ascii) :
  lastChar (trimEnd s) = Some c -> isWhiteSpace c = false.
Proof.
  revert c. induction s as [|d r IH]; intros c; simpl; [done|].
  destruct (isWhiteSpace d && isEmpty (trimEnd r)) eqn:E; [done|].
  simpl. destruct (lastChar (trimEnd r)) as [e|] eqn:El.
  - intros [= <-]. by apply IH.
  - intros [= <-]. apply lastChar_None in El. rewrite El in E. simpl in E.
    by rewrite andb_true_r in E.
Qed.

Lemma trimEnd_fixed (t : string) :
  (forall c, lastChar t = Some c -> isWhiteSpace c = false) -> trimEnd t = t.
Proof.
  intros Hlast. destruct (lastChar t) as [c|] eqn:E.
  - rewrite <- (append_nil_r t) at 1. rewrite trimEnd_app.
    + simpl. apply append_nil_r.
    + rewrite E. simpl. by apply Hlast.
  - apply lastChar_None in E. by subst t.
Qed.

(** What [trim] gives is the text without the white space at its two
    ends, and nothing else is. *)
Lemma trim_TrimmedTo (body : string) : TrimmedTo body (trim body).
Proof.
  destruct (trim_around body) as (before & after & Hb & Ha & Hs).
  exists before, after. rewrite !allBlank_allWhiteSpace.
  split; [done|]. split; [done|]. split; [done|]. split.
  - intros c Hc. rewrite isBlank_isWhiteSpace.
    pose proof (trimEnd_head _ (trimStart_head body)) as H.
    fold (trim body) in H. by rewrite Hc in H.
  - intros c Hc. rewrite isBlank_isWhiteSpace.
    by apply (trimEnd_lastChar (trimStart body)).
Qed.

Lemma TrimmedTo_trim (body t : string) : TrimmedTo body t -> trim body = t.
Proof.
  intros (before & after & -> & Hb & Ha & Hhead & Hlast).
  rewrite allBlank_allWhiteSpace in Hb, Ha.
  rewrite (trim_padded _ _ _ Hb Ha). unfold trim.
  rewrite trimStart_fixed.
  - apply trimEnd_fixed. intros c Hc. rewrite <- isBlank_isWhiteSpace.
    by apply Hlast.
  - destruct (head t) as [c|] eqn:E; [|done]. simpl.
    rewrite <- isBlank_isWhiteSpace. by apply Hhead.
Qed.

Lemma FirstBlock_matchSqlBlock (answer body : string) :
  FirstBlock answer body -> matchSqlBlock answer = Some body.
Proof. exact (matchSqlBlock_first answer body). Qed.

Lemma matchSqlBlock_HasBlock (answer body : string) :
  matchSqlBlock answer = Some body -> HasBlock answer.
Proof. exact (matchSqlBlock_block answer body). Qed.

Lemma HasBlock_FirstBlock (answer : string) :
  HasBlock answer -> exists body, FirstBlock answer body.
Proof. exact (block_first answer). Qed.

End BlockFacts.

Section SqlBlock.
Import JsString Agent Specs Terms Examples Inputs.

(** C8, as the code has it: a block of SQL is opened by three
    backquotes, the tag [sql] in lower case and a line feed, and closed
    by the next three backquotes. The extracted SQL is the contents of
    the first such block, when they are ASCII characters, without the
    white space at their two ends; every text has such a trimmed form.
    The extracted SQL is the empty string when the answer holds no such
    block, and an answer that holds such a block has a first one. A
    block whose tag is in upper case, or whose tag is followed by a
    carriage return, is no such block. *)
Theorem extractSql_first_block :
  (forall answer body t : string,
     FirstBlock answer body -> isAscii body = true -> TrimmedTo body t ->
     extractSql answer = t) /\
  (forall body : string, exists t, TrimmedTo body t) /\
  (forall answer : string, ~ HasBlock answer -> extractSql answer = "") /\
  (forall answer : string,
     HasBlock answer -> exists body, FirstBlock answer body) /\
  extractSql upperTagAnswer = "" /\
  extractSql crlfAnswer = "".
Proof.
  split; [|split; [|split; [|split; [|split; reflexivity]]]].
  - intros answer body t Hblock _ Ht. unfold extractSql.
    rewrite (FirstBlock_matchSqlBlock _ _ Hblock). by apply TrimmedTo_trim.
  - intros body. exists (trim body). apply trim_TrimmedTo.
  - intros answer H. unfold extractSql.
    destruct (matchSqlBlock answer) as [body|] eqn:E; [|done].
    destruct H. by apply (matchSqlBlock_HasBlock _ body).
  - apply HasBlock_FirstBlock.
Qed.

Lemma extractSql_first_block_witness : extractSql sqlAnswer = "SELECT 1".
Proof.
  apply (proj1 extractSql_first_block sqlAnswer ("SELECT 1" +:+ LF)).
  - exists ("**Explanation:** one row" +:+ LF +:+ LF +:+ "**SQL Query:**"
            +:+ LF),
      ("SELECT 1" +:+ LF +:+ "```"), "".
    split; apply splitOn_first; reflexivity.
  - reflexivity.
  - exists "", LF. split; [reflexivity|]. split; [reflexivity|].
    split; [reflexivity|]. split; intros c [= <-]; reflexivity.
Defined.

(** C8, as the spec states it, fails: the contents of a fenced block
    whose tag is SQL in upper case, or whose lines end with a carriage
    return and a line feed, are not extracted. *)
Lemma extractSql_misses_tagged_block :
  (TaggedBlock upperTagAnswer ("SELECT 1" +:+ LF) /\
   TrimmedTo ("SELECT 1" +:+ LF) "SELECT 1" /\
   extractSql upperTagAnswer = "" /\
   extractSql upperTagAnswer <> "SELECT 1") /\
  (TaggedBlock crlfAnswer ("SELECT 1" +:+ String "013" LF) /\
   TrimmedTo ("SELECT 1" +:+ String "013" LF) "SELECT 1" /\
   extractSql crlfAnswer = "" /\
   extractSql crlfAnswer <> "SELECT 1").
Proof.
  split.
  - split; [|split; [|split; [reflexivity | discriminate]]].
    + exists "", "SQL", LF, "". split; [reflexivity|].
      split; [reflexivity | by left].
    + exists "", LF. split; [reflexivity|]. split; [reflexivity|].
      split; [reflexivity|]. split; intros c [= <-]; reflexivity.
  - split; [|split; [|split; [reflexivity | discriminate]]].
    + exists "", "sql", (String "013" LF), "". split; [reflexivity|].
      split; [reflexivity | by right].
    + exists "", (String "013" LF). split; [reflexivity|].
      split; [reflexivity|]. split; [reflexivity|].
      split; intros c [= <-]; reflexivity.
Qed.

End SqlBlock.

Section DocumentFacts.
Import JsString Schema Specs Terms.

Lemma appendLines_foldr {A : Type} (line : A -> string) (l : list A)
    (init : string) :
  fold_left (fun text x => text +:+ line x) l init
  = init +:+ foldr String.append "" (map line l).
Proof.
  revert init. induction l as [|x l IH]; intros init; simpl.
  - by rewrite append_nil_r.
  - by rewrite IH, append_assoc.
Qed.

Lemma columnRow_text (c : ColumnInfo.t) :
  columnRow c
  = "| " +:+ ColumnInfo.column_name c +:+ " | " +:+
    ColumnInfo.data_type c +:+ " | " +:+ nullableCell c +:+ " | " +:+
    defaultCell c +:+ " |" +:+ LF.
Proof.
  unfold columnRow, nullableCell, defaultCell. cbv zeta.
  destruct (String.eqb_spec (ColumnInfo.is_nullable c) "YES"),
    (decide (ColumnInfo.is_nullable c = "YES")); try done.
  - destruct (ColumnInfo.column_default c) as [d|]; [|done].
    by destruct d.
  - destruct (ColumnInfo.column_default c) as [d|]; [|done].
    by destruct d.
Qed.

Lemma foreignKeysSection_text (fks : list ForeignKeyInfo.t) :
  foreignKeysSection fks = "" \/
  exists lines,
    foreignKeysSection fks = LF +:+ "## Foreign Keys" +:+ LF +:+ LF +:+ lines.
Proof.
  destruct fks as [|fk fks]; [by left|]. right. unfold foreignKeysSection.
  rewrite appendLines_foldr, !append_assoc. eauto.
Qed.

End DocumentFacts.

Section DocumentText.
Import JsString Schema Specs Terms Examples Cases.

(** C9: a table that no column refers to still has its document, at the
    path of its name: the two header lines of the column table and no
    row, followed by nothing or by the section of the foreign keys of
    this name. The document bears the type and the schema of the last
    table of this name, the table itself when no other table has its
    name. The overview holds the line of the table, with its name and
    its type. *)
Theorem table_without_columns_is_materialized (schema : SchemaInfo)
    (table : TableInfo.t) :
  In table (tables schema) ->
  (forall c, In c (columns schema) ->
             ColumnInfo.table_name c <> TableInfo.table_name table) ->
  (exists owner keys,
     In owner (tables schema) /\
     TableInfo.table_name owner = TableInfo.table_name table /\
     ((forall other, In other (tables schema) ->
         TableInfo.table_name other = TableInfo.table_name table ->
         other = table) -> owner = table) /\
     (keys = "" \/
      exists lines,
        keys = LF +:+ "## Foreign Keys" +:+ LF +:+ LF +:+ lines) /\
     ((forall fk, In fk (foreignKeys schema) ->
         ForeignKeyInfo.table_name fk <> TableInfo.table_name table) ->
      keys = "") /\
     schemaToFiles schema
       !! ("schema/tables/" +:+ TableInfo.table_name table +:+ ".md")
     = Some ("# Table: " +:+ TableInfo.table_name table +:+ LF +:+ LF +:+
             "Type: " +:+ TableInfo.table_type owner +:+ LF +:+
             "Schema: " +:+ TableInfo.table_schema owner +:+ LF +:+ LF +:+
             "## Columns" +:+ LF +:+ LF +:+
             "| Column | Type | Nullable | Default |" +:+ LF +:+
             "|--------|------|----------|--------|" +:+ LF +:+ keys)) /\
  (exists before after,
     schemaToFiles schema !! "schema/overview.md"
     = Some ("# Database Schema Overview" +:+ LF +:+ LF +:+
             "## Tables" +:+ LF +:+ LF +:+
             before +:+
             "- " +:+ TableInfo.table_name table +:+ " (" +:+
             TableInfo.table_type table +:+ ")" +:+ LF +:+
             after)).
Proof.
  intros Hin Hcols. split.
  - destruct (insertTables_lookup schema (tables schema)
                (<[overviewPath := overviewText schema]> ∅) table Hin)
      as (owner & Ho & Hn & Hl).
    exists owner, (foreignKeysSection (foreignKeysOf schema owner)).
    split; [done|]. split; [done|].
    split; [intros Huniq; by apply Huniq|].
    split; [apply foreignKeysSection_text|]. split.
    + intros Hfks. unfold foreignKeysOf. rewrite filter_none; [done|].
      intros fk Hfk. rewrite Hn. by apply Hfks.
    + change ("schema/tables/" +:+ TableInfo.table_name table +:+ ".md")
        with (tablePath (TableInfo.table_name table)).
      rewrite schemaToFiles_table, Hl. f_equal.
      rewrite tableContent_no_columns.
      * unfold emptyTableDocument, tableHeader, columnsHeader.
        rewrite Hn. by flatten_text.
      * unfold columnsOf. apply filter_none. intros c Hc. rewrite Hn.
        by apply Hcols.
  - change "schema/overview.md" with overviewPath.
    rewrite schemaToFiles_overview. unfold overviewText.
    rewrite appendLines_prefix.
    destruct (appendLines_holds overviewLine (tables schema) "" table Hin)
      as (before & after & ->).
    exists before, after. unfold overviewHeader, overviewLine.
    by flatten_text.
Qed.

Lemma table_without_columns_is_materialized_witness :
  schemaToFiles someSchema !! "schema/tables/audit.md"
  = Some ("# Table: audit" +:+ LF +:+ LF +:+
          "Type: BASE TABLE" +:+ LF +:+
          "Schema: public" +:+ LF +:+ LF +:+
          "## Columns" +:+ LF +:+ LF +:+
          "| Column | Type | Nullable | Default |" +:+ LF +:+
          "|--------|------|----------|--------|" +:+ LF) /\
  exists before after,
    schemaToFiles someSchema !! "schema/overview.md"
    = Some ("# Database Schema Overview" +:+ LF +:+ LF +:+
            "## Tables" +:+ LF +:+ LF +:+
            before +:+ "- audit (BASE TABLE)" +:+ LF +:+ after).
Proof.
  destruct (table_without_columns_is_materialized someSchema emptyTable)
    as [(owner & keys & _ & _ & Hown & _ & Hkeys & Hdoc) Hover].
  - right. left. reflexivity.
  - intros c [<-|[<-|[]]]; discriminate.
  - split; [|exact Hover].
    rewrite Hown, Hkeys in Hdoc.
    + exact Hdoc.
    + intros fk [].
    + intros other [<-|[<-|[]]]; [discriminate | reflexivity].
Defined.

(** X17: the document of a table holds, for every column of the
    description that bears the name of the table, the row with its
    name, its type, Yes or No for a column that may or may not be null,
    and its default value or a dash; and, for every foreign key that
    bears the name of the table, the line with its column, an arrow and
    the column it refers to. *)
Theorem tableContent_lists_columns_and_keys (schema : SchemaInfo)
    (table : TableInfo.t) :
  (forall c, In c (columns schema) ->
     ColumnInfo.table_name c = TableInfo.table_name table ->
     exists before after,
       tableContent schema table
       = before +:+
         "| " +:+ ColumnInfo.column_name c +:+ " | " +:+
         ColumnInfo.data_type c +:+ " | " +:+ nullableCell c +:+ " | " +:+
         defaultCell c +:+ " |" +:+ LF +:+
         after) /\
  (forall fk, In fk (foreignKeys schema) ->
     ForeignKeyInfo.table_name fk = TableInfo.table_name table ->
     exists before after,
       tableContent schema table
       = before +:+
         "- " +:+ ForeignKeyInfo.column_name fk +:+ " " +:+ rightArrow +:+
         " " +:+ ForeignKeyInfo.foreign_table_name fk +:+ "." +:+
         ForeignKeyInfo.foreign_column_name fk +:+ LF +:+
         after).
Proof.
  unfold tableContent. cbv zeta. split.
  - intros c Hc Hn.
    assert (Hin : In c (columnsOf schema table))
      by (by apply filter_In).
    destruct (appendLines_holds columnRow _
                (tableHeader table +:+ columnsHeader) c Hin)
      as (b & a & ->).
    exists b, (a +:+ foreignKeysSection (foreignKeysOf schema table)).
    rewrite columnRow_text. by rewrite !append_assoc.
  - intros fk Hfk Hn.
    assert (Hin : In fk (foreignKeysOf schema table))
      by (by apply filter_In).
    unfold foreignKeysSection.
    set (rows := fold_left _ (columnsOf schema table) _).
    destruct (foreignKeysOf schema table) as [|fk0 fks] eqn:E; [done|].
    destruct (appendLines_holds tableForeignKeyLine (fk0 :: fks)
                (LF +:+ "## Foreign Keys" +:+ LF +:+ LF) fk Hin)
      as (b & a & ->).
    exists (rows +:+ b), a. unfold tableForeignKeyLine.
    by rewrite !append_assoc.
Qed.

Lemma tableContent_lists_columns_and_keys_witness :
  (exists before after,
     tableContent someSchema ordersTable
     = before +:+ "| total | numeric | No | - |" +:+ LF +:+ after) /\
  (exists before after,
     tableContent linkedSchema ordersTable
     = before +:+ "- user_id " +:+ rightArrow +:+ " users.id" +:+ LF +:+
       after).
Proof.
  split.
  - apply (proj1 (tableContent_lists_columns_and_keys someSchema ordersTable)
             (ordersColumn "total" "numeric")).
    + right. left. reflexivity.
    + reflexivity.
  - destruct (proj2 (tableContent_lists_columns_and_keys linkedSchema
                       ordersTable)
                {| ForeignKeyInfo.constraint_name := "orders_user_id_fkey";
                   ForeignKeyInfo.table_schema := "public";
                   ForeignKeyInfo.table_name := "orders";
                   ForeignKeyInfo.column_name := "user_id";
                   ForeignKeyInfo.foreign_table_schema := "public";
                   ForeignKeyInfo.foreign_table_name := "users";
                   ForeignKeyInfo.foreign_column_name := "id" |})
      as (before & after & H).
    + left. reflexivity.
    + reflexivity.
    + exists before, after. exact H.
Defined.

(** X18: the relationships document is absent when the description has
    no foreign key; otherwise it is present, starts with its two
    headings and holds, for every foreign key, the line with the table
    and the column of the key, an arrow, and the table and the column
    it refers to. *)
Theorem relationships_document (schema : SchemaInfo) :
  (foreignKeys schema = [] ->
   schemaToFiles schema !! "schema/relationships.md" = None) /\
  (foreignKeys schema <> [] ->
   exists lines,
     schemaToFiles schema !! "schema/relationships.md"
     = Some ("# Table Relationships" +:+ LF +:+ LF +:+
             "## Foreign Key Relationships" +:+ LF +:+ LF +:+ lines)) /\
  (forall fk, In fk (foreignKeys schema) ->
     exists before after,
       schemaToFiles schema !! "schema/relationships.md"
       = Some ("# Table Relationships" +:+ LF +:+ LF +:+
               "## Foreign Key Relationships" +:+ LF +:+ LF +:+
               before +:+
               "- " +:+ ForeignKeyInfo.table_name fk +:+ "." +:+
               ForeignKeyInfo.column_name fk +:+ " " +:+ rightArrow +:+
               " " +:+ ForeignKeyInfo.foreign_table_name fk +:+ "." +:+
               ForeignKeyInfo.foreign_column_name fk +:+ LF +:+
               after)).
Proof.
  change "schema/relationships.md" with relationshipsPath.
  assert (Hfold : insertTables schema (tables schema)
                    (<[overviewPath := overviewText schema]> ∅)
                  !! relationshipsPath = None).
  { rewrite insertTables_other.
    - by rewrite lookup_insert_ne.
    - intros name H. by destruct (tablePath_fresh name) as (_ & Hr & _). }
  assert (Hsome : foreignKeys schema <> [] ->
                  schemaToFiles schema !! relationshipsPath
                  = Some (relationshipsText schema)).
  { intros Hne. unfold schemaToFiles. rewrite lookup_insert_ne by done.
    destruct (foreignKeys schema); [done|]. apply lookup_insert_eq. }
  split; [|split].
  - intros Hnil. unfold schemaToFiles. rewrite lookup_insert_ne by done.
    rewrite Hnil. exact Hfold.
  - intros Hne. rewrite (Hsome Hne). unfold relationshipsText.
    rewrite appendLines_prefix.
    exists (fold_left (fun text fk => text +:+ relationshipLine fk)
              (foreignKeys schema) "").
    by flatten_text.
  - intros fk Hin. rewrite Hsome by (by destruct (foreignKeys schema)).
    unfold relationshipsText. rewrite appendLines_prefix.
    destruct (appendLines_holds relationshipLine (foreignKeys schema) ""
                fk Hin) as (b & a & ->).
    exists b, a. unfold relationshipLine. f_equal. by flatten_text.
Qed.

Lemma relationships_document_witness :
  schemaToFiles someSchema !! "schema/relationships.md" = None /\
  exists before after,
    schemaToFiles linkedSchema !! "schema/relationships.md"
    = Some ("# Table Relationships" +:+ LF +:+ LF +:+
            "## Foreign Key Relationships" +:+ LF +:+ LF +:+
            before +:+ "- orders.user_id " +:+ rightArrow +:+ " users.id" +:+
            LF +:+ after).
Proof.
  split.
  - apply (proj1 (relationships_document someSchema)). reflexivity.
  - destruct (proj2 (proj2 (relationships_document linkedSchema))
                {| ForeignKeyInfo.constraint_name := "orders_user_id_fkey";
                   ForeignKeyInfo.table_schema := "public";
                   ForeignKeyInfo.table_name := "orders";
                   ForeignKeyInfo.column_name := "user_id";
                   ForeignKeyInfo.foreign_table_schema := "public";
                   ForeignKeyInfo.foreign_table_name := "users";
                   ForeignKeyInfo.foreign_column_name := "id" |})
      as (before & after & H).
    + left. reflexivity.
    + exists before, after. exact H.
Defined.

End DocumentText.

Section ModelDefaults.
Import JsString Agent.

(** X9: the model identifier is never empty. An override that is not
    empty is taken as it is. With an empty or absent override the
    identifier is [gpt-4o-mini] for the provider [openai],
    [claude-sonnet-4-20250514] for [anthropic], [gemini-3-pro-preview]
    for [google], and [gpt-4o-mini] for any other provider. *)
Theorem getModelId_not_empty (provider : string)
    (modelOverride : option string) :
  truthy (getModelId provider modelOverride) = true /\
  (truthyOpt modelOverride = true ->
   modelOverride = Some (getModelId provider modelOverride)) /\
  (truthyOpt modelOverride = false ->
   (provider = "openai" ->
    getModelId provider modelOverride = "gpt-4o-mini") /\
   (provider = "anthropic" ->
    getModelId provider modelOverride = "claude-sonnet-4-20250514") /\
   (provider = "google" ->
    getModelId provider modelOverride = "gemini-3-pro-preview") /\
   (provider <> "openai" -> provider <> "anthropic" ->
    provider <> "google" ->
    getModelId provider modelOverride = "gpt-4o-mini")).
Proof.
  unfold getModelId. destruct (truthyOpt modelOverride) eqn:E.
  - destruct modelOverride as [m|]; [|done]. simpl in *.
    split; [done|]. split; [done|]. done.
  - split; [|split; [done|]].
    + by repeat (match goal with |- context [if ?b then _ else _] =>
                   destruct b end).
    + intros _. split; [by intros ->|]. split; [by intros ->|].
      split; [by intros ->|]. intros H1 H2 H3.
      apply String.eqb_neq in H1, H2, H3. by rewrite H1, H2, H3.
Qed.

Lemma getModelId_not_empty_witness :
  getModelId "anthropic" (Some "") = "claude-sonnet-4-20250514" /\
  getModelId "mistral" None = "gpt-4o-mini".
Proof.
  split.
  - apply (proj2 (proj2 (getModelId_not_empty "anthropic" (Some ""))));
      reflexivity.
  - apply (proj2 (proj2 (getModelId_not_empty "mistral" None)));
      [reflexivity | discriminate | discriminate | discriminate].
Defined.

End ModelDefaults.
